(** * Causal influence reward of [Algorithms/ppo_causal.py]

    A shallow embedding of the numeric core of the file: [kl_div], the
    Jensen-Shannon expression of [compute_influence_reward],
    [marginalize_predictions_over_own_actions], [compute_influence_reward],
    the two configuration mix-ins and
    [InfluenceScheduleMixIn.current_influence_curriculum_weight].

    Numbers.  A Python/NumPy double is idealised as a real number; the
    non-finite doubles (NaN, +Inf, -Inf) that [kl_div] tests for are kept
    as the extra value [NonFinite] of the type [float], produced exactly
    where the real operation is undefined (division by zero, logarithm of a
    non-positive number).  Rounding, overflow and underflow are not
    modelled.  [scipy.special.softmax] is taken by its definition
    [exp x_i / sum_j exp x_j].

    Arrays.  An n-dimensional array is a nested list; [tens X n] is the
    type of n nested lists over [X].  A nested list does not record the
    inner dimensions of an array one of whose axes has length 0.  NumPy
    broadcasting of one axis is [bcast]; operations that NumPy can refuse
    return a [result]. *)

From Stdlib Require Import Reals Lra Lia ZArith List.
From stdpp Require Import base option list strings gmap.

#[local] Open Scope R_scope.

(** ** Exceptions and the result monad *)

Inductive error :=
| KeyError (key : string)
| IndexError
| ValueError
| ZeroDivisionError
| Unmodelled
| SystemExit (msg : string).

Inductive result (A : Type) :=
| Ok (a : A)
| Err (e : error).
Arguments Ok {A} a.
Arguments Err {A} e.

#[global] Instance result_ret : MRet result := fun A a => Ok a.
#[global] Instance result_bind : MBind result := fun A B f m =>
  match m with Ok a => f a | Err e => Err e end.
#[global] Instance result_fmap : FMap result := fun A B f m =>
  match m with Ok a => Ok (f a) | Err e => Err e end.

(** ** Nested lists as arrays *)

Fixpoint tens (X : Type) (n : nat) : Type :=
  match n with
  | O => X
  | S k => list (tens X k)
  end.

Fixpoint tmap {X Y : Type} (f : X -> Y) (n : nat) : tens X n -> tens Y n :=
  match n return tens X n -> tens Y n with
  | O => f
  | S k => map (tmap f k)
  end.

Fixpoint tall {X : Type} (P : X -> bool) (n : nat) : tens X n -> bool :=
  match n return tens X n -> bool with
  | O => P
  | S k => forallb (tall P k)
  end.

(** Elementwise combination of two axes of equal length; NumPy refuses axes
    of different lengths with a ValueError. *)
Fixpoint zip_with_r {X Y Z : Type} (f : X -> Y -> result Z)
    (xs : list X) (ys : list Y) : result (list Z) :=
  match xs, ys with
  | [], [] => Ok []
  | x :: xs', y :: ys' =>
      z ← f x y; zs ← zip_with_r f xs' ys'; Ok (z :: zs)
  | _, _ => Err ValueError
  end.

(** One axis of NumPy broadcasting: an axis of length 1 is stretched to the
    length of the other one, otherwise the lengths have to agree. *)
Definition bcast {X Y Z : Type} (f : X -> Y -> result Z)
    (xs : list X) (ys : list Y) : result (list Z) :=
  match xs, ys with
  | [x], _ => mapM (f x) ys
  | _, [y] => mapM (fun x => f x y) xs
  | _, _ => zip_with_r f xs ys
  end.

(** In-place operators ([a *= b]) only stretch the right operand: the
    result has to fit the array on the left. *)
Definition bcast_into {X Y : Type} (f : X -> Y -> result X)
    (xs : list X) (ys : list Y) : result (list X) :=
  match ys with
  | [y] => mapM (fun x => f x y) xs
  | _ => zip_with_r f xs ys
  end.

Fixpoint bcastN {X Y Z : Type} (f : X -> Y -> result Z) (n : nat)
    : tens X n -> tens Y n -> result (tens Z n) :=
  match n return tens X n -> tens Y n -> result (tens Z n) with
  | O => f
  | S k => bcast (bcastN f k)
  end.

(** ** Numeric primitives *)

Inductive float :=
| Finite (r : R)
| NonFinite.

Definition isfinite (x : float) : bool :=
  match x with Finite _ => true | NonFinite => false end.

Definition finite_or_zero (x : float) : R :=
  match x with Finite r => r | NonFinite => 0 end.

Definition fadd (x y : float) : float :=
  match x, y with
  | Finite a, Finite b => Finite (a + b)
  | _, _ => NonFinite
  end.

(** [np.sum] of doubles some of which may be non-finite. *)
Definition fsum (l : list float) : float := foldr fadd (Finite 0) l.

(** [np.sum] of finite doubles. *)
Definition rsum (l : list R) : R := foldr Rplus 0 l.

(** [scipy.special.softmax(x, axis=-1)] on one row. *)
Definition softmax (x : list R) : list R :=
  let e := map exp x in map (fun v => v / rsum e) e.

(** [x / x.sum(axis=-1, keepdims=1)] on one row. *)
Definition normalize (x : list R) : list R :=
  map (fun v => v / rsum x) x.

(** [np.clip(x, lo, hi)], that is [minimum(hi, maximum(x, lo))]. *)
Definition clip (lo hi x : R) : R := Rmin hi (Rmax x lo).

(** ** [kl_div] *)

(** One element of [np.where(p != 0, p * np.log(p / q), 0)]. *)
Definition kl_term (p q : R) : float :=
  if Req_dec_T p 0 then Finite 0
  else if Req_dec_T q 0 then NonFinite
  else if Rlt_dec 0 (p / q) then Finite (p * ln (p / q))
  else NonFinite.

(** One element of [np.sum(..., axis=-1)]: the reduction of the last axis. *)
Definition kl_row (p q : list R) : result float :=
  terms ← bcast (fun x y => Ok (kl_term x y)) p q; Ok (fsum terms).

(** The array [kl] of the source, before the finiteness test. *)
Definition kl_raw (n : nat) (p q : tens (list R) n) : result (tens float n) :=
  bcastN kl_row n p q.

(** [kl_div(p, q)] for arrays of rank [n + 1]. *)
Definition kl_div (n : nat) (p q : tens (list R) n) : result (tens R n) :=
  kl ← kl_raw n p q;
  Ok (if tall isfinite n kl
      then tmap finite_or_zero n kl
      else tmap (fun _ => 0) n kl).

(** The expression of the ['jsd'] branch of [compute_influence_reward]:
    [mean = 0.5 * (p + q)] and
    [0.5 * kl_div(p, mean) + 0.5 * kl_div(q, mean)]. *)
Definition jsd (n : nat) (p q : tens (list R) n) : result (tens R n) :=
  s ← bcastN (bcast (fun x y => Ok (x + y))) n p q;
  let mean_probs := tmap (map (Rmult 0.5)) n s in
  a ← kl_div n p mean_probs;
  b ← kl_div n q mean_probs;
  bcastN (fun x y => Ok (x + y)) n
    (tmap (Rmult 0.5) n a) (tmap (Rmult 0.5) n b).

(** ** Trajectories

    A trajectory is a [SampleBatch], a dictionary from field names to
    arrays.  The embedding knows arrays of doubles of rank 1 to 4, arrays
    of integers of rank 1 and 2 and arrays of booleans of rank 1.  Where a
    field holds an array of a kind that the data model does not give it and
    Python would go on with another shape, the embedding stops with
    [Unmodelled]; the theorems below are about trajectories laid out as in
    the data model. *)

Inductive value :=
| VFloat1 (a : list R)
| VFloat2 (a : list (list R))
| VFloat3 (a : list (list (list R)))
| VFloat4 (a : list (list (list (list R))))
| VInt1 (a : list Z)
| VInt2 (a : list (list Z))
| VBool1 (a : list bool).

Definition MOA_PREDS : string := "moa_preds".
Definition OTHERS_ACTIONS : string := "others_actions".
Definition ALL_ACTIONS : string := "all_actions".
Definition VISIBILITY : string := "others_visibility".
Definition ACTION_LOGITS : string := "action_logits".
Definition COUNTERFACTUAL_ACTIONS : string := "counterfactual_actions".

(** [len(v)] *)
Definition len (v : value) : nat :=
  match v with
  | VFloat1 a => length a
  | VFloat2 a => length a
  | VFloat3 a => length a
  | VFloat4 a => length a
  | VInt1 a => length a
  | VInt2 a => length a
  | VBool1 a => length a
  end.

(** [trajectory[key]] *)
Definition getitem (trajectory : gmap string value) (key : string)
    : result value :=
  match trajectory !! key with
  | Some v => Ok v
  | None => Err (KeyError key)
  end.

(** Position of a Python index [i] on an axis of [size] elements; negative
    indices count from the end. *)
Definition py_index (size : nat) (i : Z) : result nat :=
  if decide (0 <= i < Z.of_nat size)%Z then Ok (Z.to_nat i)
  else if decide (- Z.of_nat size <= i < 0)%Z
       then Ok (Z.to_nat (i + Z.of_nat size))
       else Err IndexError.

Definition item {X : Type} (l : list X) (i : nat) : result X :=
  match l !! i with
  | Some x => Ok x
  | None => Err IndexError
  end.

(** The two index arrays of [a[traj_index, :, actions, :]] are broadcast
    against each other; index arrays that do not fit are an IndexError. *)
Definition index_pairs (bs : list nat) (acts : list Z)
    : result (list (nat * Z)) :=
  match bs, acts with
  | [b], _ => Ok (map (pair b) acts)
  | _, [a] => Ok (map (fun b => (b, a)) bs)
  | _, _ => if decide (length bs = length acts)
            then Ok (zip bs acts) else Err IndexError
  end.

(** [a[traj_index, :, actions, :]] for a rank 4 array [a]: entry [i] of the
    result is [a[b_i, :, actions_i, :]]. *)
Definition take_own_action (a : list (list (list (list R))))
    (traj_index : list nat) (actions : list Z)
    : result (list (list (list R))) :=
  ps ← index_pairs traj_index actions;
  mapM (fun '(b, act) =>
          row ← item a b;
          mapM (fun per_agent =>
                  i ← py_index (length per_agent) act; item per_agent i)
               row) ps.

(** [count] consecutive pieces of [size] elements each. *)
Definition pieces {X : Type} (count size : nat) (l : list X) : list (list X) :=
  map (fun i => take size (drop (i * size) l)) (seq 0 count).

(** [np.reshape(flat, [count, -1])] for one flat block: NumPy works out the
    free dimension and refuses a block that does not divide evenly, and
    any array when the known dimensions multiply to 0. *)
Definition reshape_rows {X : Type} (count : nat) (flat : list X)
    : result (list (list X)) :=
  if decide (count = 0)%nat then Err ValueError
  else if decide (length flat mod count = 0)%nat
       then Ok (pieces count (length flat / count) flat)
       else Err ValueError.

(** [np.reshape(flat, [count, -1, width])] for one flat block. *)
Definition reshape_blocks {X : Type} (count width : nat) (flat : list X)
    : result (list (list (list X))) :=
  if decide (count * width = 0)%nat then Err ValueError
  else if decide (length flat mod (count * width) = 0)%nat
       then let k := (length flat / (count * width))%nat in
            Ok (map (pieces k width) (pieces count (k * width) flat))
       else Err ValueError.

(** [a.shape[-1]] of a rank 2 array. *)
Definition last_dim {X : Type} (a : list (list X)) : nat :=
  match a with
  | r :: _ => length r
  | [] => 0
  end.

(** [np.sum(block, axis=-2)] for one block with rows of [width] entries. *)
Definition sum_rows (width : nat) (block : list (list R)) : list R :=
  foldr (zip_with Rplus) (replicate width 0) block.

(** ** The policy object *)

Record Config := {
  cfg_num_other_agents : nat;
  cfg_moa_weight : R;
  cfg_train_moa_only_when_visible : bool;
  cfg_influence_reward_clip : R;
  cfg_influence_reward_weight : R;
  cfg_influence_curriculum_steps : R;
  cfg_influence_scaledown_start : R;
  cfg_influence_scaledown_end : R;
  cfg_influence_scaledown_final_val : R;
  cfg_influence_only_when_visible : bool;
  cfg_influence_divergence_measure : string
}.

(** The defaults that the module adds to [DEFAULT_CONFIG]. *)
Definition CONFIG : Config := {|
  cfg_num_other_agents := 1;
  cfg_moa_weight := 10;
  cfg_train_moa_only_when_visible := true;
  cfg_influence_reward_clip := 10;
  cfg_influence_reward_weight := 1;
  cfg_influence_curriculum_steps := 10000000;
  cfg_influence_scaledown_start := 100000000;
  cfg_influence_scaledown_end := 300000000;
  cfg_influence_scaledown_final_val := 0.5;
  cfg_influence_only_when_visible := true;
  cfg_influence_divergence_measure := "kl"
|}.

Record Policy := {
  train_moa_only_when_visible : bool;
  num_other_agents : nat;
  moa_weight : R;
  influence_divergence_measure : string;
  influence_only_when_visible : bool;
  influence_reward_clip : R;
  influence_reward_weight : R;
  influence_curriculum_steps : R;
  inf_scale_start : R;
  inf_scale_end : R;
  inf_scale_final_val : R;
  steps_processed : Z;
  curr_influence_weight : R
}.

(** [setup_mixins]: [InfluenceScheduleMixIn.__init__] followed by
    [ConfigInitializerMixIn.__init__]; both copy configuration entries to
    attributes of the policy and check nothing. *)
Definition setup_mixins (config : Config) : Policy := {|
  influence_reward_weight := cfg_influence_reward_weight config;
  influence_curriculum_steps := cfg_influence_curriculum_steps config;
  inf_scale_start := cfg_influence_scaledown_start config;
  inf_scale_end := cfg_influence_scaledown_end config;
  inf_scale_final_val := cfg_influence_scaledown_final_val config;
  steps_processed := 0;
  curr_influence_weight := cfg_influence_reward_weight config;
  train_moa_only_when_visible := cfg_train_moa_only_when_visible config;
  num_other_agents := cfg_num_other_agents config;
  moa_weight := cfg_moa_weight config;
  influence_divergence_measure := cfg_influence_divergence_measure config;
  influence_only_when_visible := cfg_influence_only_when_visible config;
  influence_reward_clip := cfg_influence_reward_clip config
|}.

(** [self.steps_processed = k] *)
Definition set_steps_processed (k : Z) (self : Policy) : Policy := {|
  train_moa_only_when_visible := train_moa_only_when_visible self;
  num_other_agents := num_other_agents self;
  moa_weight := moa_weight self;
  influence_divergence_measure := influence_divergence_measure self;
  influence_only_when_visible := influence_only_when_visible self;
  influence_reward_clip := influence_reward_clip self;
  influence_reward_weight := influence_reward_weight self;
  influence_curriculum_steps := influence_curriculum_steps self;
  inf_scale_start := inf_scale_start self;
  inf_scale_end := inf_scale_end self;
  inf_scale_final_val := inf_scale_final_val self;
  steps_processed := k;
  curr_influence_weight := curr_influence_weight self
|}.

(** [self.curr_influence_weight = w] *)
Definition set_curr_influence_weight (w : R) (self : Policy) : Policy := {|
  train_moa_only_when_visible := train_moa_only_when_visible self;
  num_other_agents := num_other_agents self;
  moa_weight := moa_weight self;
  influence_divergence_measure := influence_divergence_measure self;
  influence_only_when_visible := influence_only_when_visible self;
  influence_reward_clip := influence_reward_clip self;
  influence_reward_weight := influence_reward_weight self;
  influence_curriculum_steps := influence_curriculum_steps self;
  inf_scale_start := inf_scale_start self;
  inf_scale_end := inf_scale_end self;
  inf_scale_final_val := inf_scale_final_val self;
  steps_processed := steps_processed self;
  curr_influence_weight := w
|}.

(** [InfluenceScheduleMixIn.current_influence_curriculum_weight].  The
    method stores the weight in [curr_influence_weight] and returns nothing.
    Dividing a Python number by zero raises ZeroDivisionError. *)
Definition current_influence_curriculum_weight (self : Policy)
    : result Policy :=
  if Rlt_dec (IZR (steps_processed self)) (influence_curriculum_steps self)
  then
    if Req_dec_T (influence_curriculum_steps self) 0
    then Err ZeroDivisionError
    else
      let percent :=
        IZR (steps_processed self) / influence_curriculum_steps self in
      Ok (set_curr_influence_weight
            (percent * influence_reward_weight self) self)
  else if Rgt_dec (IZR (steps_processed self)) (inf_scale_start self)
  then
    if Req_dec_T (inf_scale_end self - inf_scale_start self) 0
    then Err ZeroDivisionError
    else
      let percent :=
        (IZR (steps_processed self) - inf_scale_start self)
        / (inf_scale_end self - inf_scale_start self) in
      let diff := influence_reward_weight self - inf_scale_final_val self in
      let scaled := influence_reward_weight self - diff * percent in
      Ok (set_curr_influence_weight
            (Rmax (inf_scale_final_val self) scaled) self)
  else Ok (set_curr_influence_weight (influence_reward_weight self) self).

(** ** [marginalize_predictions_over_own_actions] *)

(** The rows [a[b]] of an array, each flattened in C order, which is all
    that [np.reshape] looks at. *)
Definition flat_rows (v : value) : result (list (list R)) :=
  match v with
  | VFloat1 a => Ok (map (fun x => [x]) a)
  | VFloat2 a => Ok a
  | VFloat3 a => Ok (map mjoin a)
  | VFloat4 a => Ok (map (fun r => mjoin (mjoin r)) a)
  | _ => Err Unmodelled
  end.

(** [np.tile(a, [1, reps, 1])] of a rank 2 array [a]: with three
    repetition counts NumPy first gives [a] a new leading axis of length
    1, so that the rows of [a] are repeated along the second axis of the
    rank 3 result. *)
Definition tile_1_n_1 {X : Type} (a : list (list X)) (reps : nat)
    : list (list (list X)) :=
  [mjoin (replicate reps a)].

Definition marginalize_predictions_over_own_actions
    (policy : Policy) (trajectory : gmap string value)
    : result (list (list (list R))) :=
  logits ← getitem trajectory ACTION_LOGITS;
  logits ← match logits with
           | VFloat2 a => Ok a
           | VFloat1 _ => Err ValueError
           | _ => Err Unmodelled
           end;
  (* Probability of each action in original trajectory *)
  let action_probs := map softmax logits in
  (* Normalize to reduce numerical inaccuracies *)
  let action_probs := map normalize action_probs in
  counter_probs ← getitem trajectory COUNTERFACTUAL_ACTIONS;
  rows ← flat_rows counter_probs;
  counter_probs ←
    match rows with
    | [] => Err ValueError
    | _ => mapM (reshape_blocks (num_other_agents policy)
                   (last_dim action_probs)) rows
    end;
  let counter_probs := map (map (map softmax)) counter_probs in
  let marginal_probs :=
    map (map (sum_rows (last_dim action_probs))) counter_probs in
  (* Multiply by probability of each action to renormalize probability *)
  let tiled_probs := tile_1_n_1 action_probs (num_other_agents policy) in
  marginal_probs ←
    bcastN (fun x y => Ok (x * y)) 3 marginal_probs tiled_probs;
  (* Normalize to reduce numerical inaccuracies *)
  Ok (map (map normalize) marginal_probs).

(** ** [compute_influence_reward] *)

(** Lines 200 to 205: the prediction under the action that was taken. *)
Definition true_probs_of (policy : Policy) (trajectory : gmap string value)
    : result (list (list (list R))) :=
  true_probs ← getitem trajectory COUNTERFACTUAL_ACTIONS;
  obs ← getitem trajectory "obs";
  let traj_index := seq 0 (len obs) in
  actions ← getitem trajectory "actions";
  true_probs ←
    match true_probs, actions with
    | VFloat4 a, VInt1 acts => take_own_action a traj_index acts
    | VFloat4 _, (VFloat1 _ | VFloat2 _ | VFloat3 _ | VFloat4 _) =>
        Err IndexError
    | (VFloat1 _ | VFloat2 _ | VFloat3 _), _ => Err IndexError
    | _, _ => Err Unmodelled
    end;
  true_probs ←
    match true_probs with
    | [] => Err ValueError
    | _ => mapM (fun r => reshape_rows (num_other_agents policy) (mjoin r))
                true_probs
    end;
  let true_probs := map (map softmax) true_probs in
  Ok (map (map normalize) true_probs).

Definition EXIT_MESSAGE : string :=
  "Please specify an influence divergence measure from [kl, jsd]".

(** Lines 211 to 218: the divergence measure is looked up by name here,
    after both distributions have been computed. *)
Definition divergence (policy : Policy)
    (true_probs marginal_probs : list (list (list R)))
    : result (list (list R)) :=
  if decide (influence_divergence_measure policy = "kl")
  then kl_div 2 true_probs marginal_probs
  else if decide (influence_divergence_measure policy = "jsd")
  then jsd 2 true_probs marginal_probs
  else Err (SystemExit EXIT_MESSAGE).

(** Lines 221 to 226: [influence_per_agent_step *= visibility]. *)
Definition mask_invisible (policy : Policy) (trajectory : gmap string value)
    (influence_per_agent_step : list (list R)) : result (list (list R)) :=
  if influence_only_when_visible policy
  then
    visibility ← getitem trajectory VISIBILITY;
    match visibility with
    | VFloat2 vis =>
        bcast_into (bcast_into (fun x v => Ok (x * v)))
          influence_per_agent_step vis
    | _ => Err Unmodelled
    end
  else Ok influence_per_agent_step.

(** Lines 229 and 230: sum over the last axis, then clip. *)
Definition summarize_and_clip (policy : Policy)
    (influence_per_agent_step : list (list R)) : list R :=
  let influence := map rsum influence_per_agent_step in
  map (clip (- influence_reward_clip policy) (influence_reward_clip policy))
      influence.

(** The array [influence_per_agent_step] of lines 211 to 218, before the
    visibility is applied. *)
Definition divergence_per_agent_step (policy : Policy)
    (trajectory : gmap string value) : result (list (list R)) :=
  true_probs ← true_probs_of policy trajectory;
  (* Get marginal predictions where effect of self is marginalized out *)
  marginal_probs ← marginalize_predictions_over_own_actions policy trajectory;
  (* Compute influence per agent/step ([B, N]) using different metrics *)
  divergence policy true_probs marginal_probs.

(** The same array after line 226. *)
Definition influence_per_agent_step (policy : Policy)
    (trajectory : gmap string value) : result (list (list R)) :=
  per_agent_step ← divergence_per_agent_step policy trajectory;
  (* Zero out influence for steps where the other agent isn't visible. *)
  mask_invisible policy trajectory per_agent_step.

(** The function returns the trajectory it was given, updated in place; the
    policy is the other object it changes, so the embedding returns both.
    When an exception leaves the function the embedding keeps no state. *)
Definition compute_influence_reward (policy : Policy)
    (trajectory : gmap string value)
    : result (Policy * gmap string value) :=
  per_agent_step ← influence_per_agent_step policy trajectory;
  (* Summarize and clip influence reward *)
  let influence := summarize_and_clip policy per_agent_step in
  (* Get influence curriculum weight *)
  obs ← getitem trajectory "obs";
  let policy :=
    set_steps_processed (steps_processed policy + Z.of_nat (len obs)) policy in
  let inf_weight := curr_influence_weight policy in
  (* Add to trajectory *)
  let trajectory := <["total_influence" := VFloat1 influence]> trajectory in
  rewards ← getitem trajectory "rewards";
  let trajectory := <["reward_without_influence" := rewards]> trajectory in
  rewards ← getitem trajectory "rewards";
  new_rewards ←
    match rewards with
    | VFloat1 r =>
        bcast (fun x y => Ok (x + y)) r (map (fun x => x * inf_weight) influence)
    | _ => Err Unmodelled
    end;
  Ok (policy, <["rewards" := VFloat1 new_rewards]> trajectory).

(** ** Predicates and functions used to state the properties *)

Fixpoint tzip_with {X Y Z : Type} (f : X -> Y -> Z) (n : nat)
    : tens X n -> tens Y n -> tens Z n :=
  match n return tens X n -> tens Y n -> tens Z n with
  | O => f
  | S k => zip_with (tzip_with f k)
  end.

Fixpoint tForall {X : Type} (P : X -> Prop) (n : nat) : tens X n -> Prop :=
  match n return tens X n -> Prop with
  | O => P
  | S k => Forall (tForall P k)
  end.

Fixpoint tForall2 {X Y : Type} (P : X -> Y -> Prop) (n : nat)
    : tens X n -> tens Y n -> Prop :=
  match n return tens X n -> tens Y n -> Prop with
  | O => P
  | S k => Forall2 (tForall2 P k)
  end.

(** Two arrays of rank [n + 1] of identical shape. *)
Definition same_shape (n : nat) (p q : tens (list R) n) : Prop :=
  tForall2 (fun r s => length r = length s) n p q.

(** An array of rank [n + 1] without negative entries. *)
Definition nonneg (n : nat) (p : tens (list R) n) : Prop :=
  tForall (Forall (fun x => 0 <= x)) n p.

(** The double [p * log(p / q)] is finite, or is not looked at. *)
Definition term_defined (x y : R) : Prop := x = 0 \/ (y <> 0 /\ 0 < x / y).

Definition all_defined (n : nat) (p q : tens (list R) n) : Prop :=
  tForall2 (Forall2 term_defined) n p q.

(** For arrays without negative entries: [q] is positive wherever [p] is. *)
Definition supported (n : nat) (p q : tens (list R) n) : Prop :=
  tForall2 (Forall2 (fun x y => 0 < x -> 0 < y)) n p q.

(** [p[a] * log(p[a] / q[a])], taken as 0 where [p[a] == 0]. *)
Definition kl_summand (x y : R) : R :=
  if Req_dec_T x 0 then 0 else x * ln (x / y).

(** The sum over [a] of the summands of one row. *)
Definition kl_sum (p q : list R) : R := rsum (zip_with kl_summand p q).

(** One entry of [kl] when both rows have the same length. *)
Definition kl_row_val (p q : list R) : float := fsum (zip_with kl_term p q).

(** [0.5 * (p + q)] on one row. *)
Definition mean_row (p q : list R) : list R :=
  map (Rmult 0.5) (zip_with Rplus p q).

(** One entry of the Jensen-Shannon expression. *)
Definition jsd_row (p q : list R) : R :=
  0.5 * kl_sum p (mean_row p q) + 0.5 * kl_sum q (mean_row p q).

(** The weight that [current_influence_curriculum_weight] leaves in
    [curr_influence_weight]. *)
Definition weight_after (self : Policy) : result R :=
  curr_influence_weight <$> current_influence_curriculum_weight self.

(** A policy set up with [influence_reward_weight = 1.0],
    [influence_curriculum_steps = 100], [influence_scaledown_start = 100],
    [influence_scaledown_end = 300] and
    [influence_scaledown_final_val = 0.5], after [steps] steps. *)
Definition schedule_example (steps : Z) : Policy :=
  set_steps_processed steps
    (setup_mixins {|
       cfg_num_other_agents := 1;
       cfg_moa_weight := 10;
       cfg_train_moa_only_when_visible := true;
       cfg_influence_reward_clip := 10;
       cfg_influence_reward_weight := 1;
       cfg_influence_curriculum_steps := 100;
       cfg_influence_scaledown_start := 100;
       cfg_influence_scaledown_end := 300;
       cfg_influence_scaledown_final_val := 0.5;
       cfg_influence_only_when_visible := true;
       cfg_influence_divergence_measure := "kl" |}).

(** The data model asks for one batch length [B] on the first axis of
    every field of a trajectory. *)
Definition first_axis (trajectory : gmap string value) (B : nat) : Prop :=
  forall key v, trajectory !! key = Some v -> len v = B.

(** Entry [i] of an axis once a right operand of length 1 is stretched. *)
Definition stretched {X : Type} (l : list X) (i : nat) : option X :=
  match l with
  | [x] => Some x
  | _ => l !! i
  end.

(** The visibility that multiplies entry [(b, n)] of the divergences. *)
Definition visibility_entry (vis : list (list R)) (b n : nat) : option R :=
  row ← stretched vis b; stretched row n.

(** The fields that [compute_influence_reward] assigns. *)
Definition written_fields : list string :=
  ["total_influence"; "reward_without_influence"; "rewards"].

(** ** Example inputs *)

(** One step, one other agent, two actions.  The agent prefers its first
    action three to one and took it; the other agent is predicted to
    answer the first action with a coin flip and the second one three to
    one. *)
Definition example_trajectory : gmap string value :=
  <["obs" := VFloat2 [[0]]]>
  (<["actions" := VInt1 [0%Z]]>
  (<["rewards" := VFloat1 [1]]>
  (<[ACTION_LOGITS := VFloat2 [[ln 3; 0]]]>
  (<[COUNTERFACTUAL_ACTIONS := VFloat4 [[[[0; 0]; [ln 3; 0]]]]]>
  (<[VISIBILITY := VFloat2 [[1]]]> ∅))))).

(** The same step with the counterfactual logits in the flat layout
    [B, N * A, A]. *)
Definition example_flat : gmap string value :=
  <[COUNTERFACTUAL_ACTIONS := VFloat3 [[[0; 0]; [ln 3; 0]]]]>
    example_trajectory.

(** The same step with the other agent out of sight. *)
Definition example_unseen : gmap string value :=
  <[VISIBILITY := VFloat2 [[0]]]> example_trajectory.

(** The Kullback-Leibler divergence of that step. *)
Definition example_divergence : R := kl_sum [1 / 2; 1 / 2] [5 / 6; 1 / 6].

(** Two steps and a single action, with [n] other agents. *)
Definition two_steps (n : nat) : gmap string value :=
  <[ACTION_LOGITS := VFloat2 [[0]; [0]]]>
  (<[COUNTERFACTUAL_ACTIONS :=
       VFloat4 [replicate n [[0]]; replicate n [[0]]]]> ∅).

Definition with_agents (n : nat) (config : Config) : Config := {|
  cfg_num_other_agents := n;
  cfg_moa_weight := cfg_moa_weight config;
  cfg_train_moa_only_when_visible := cfg_train_moa_only_when_visible config;
  cfg_influence_reward_clip := cfg_influence_reward_clip config;
  cfg_influence_reward_weight := cfg_influence_reward_weight config;
  cfg_influence_curriculum_steps := cfg_influence_curriculum_steps config;
  cfg_influence_scaledown_start := cfg_influence_scaledown_start config;
  cfg_influence_scaledown_end := cfg_influence_scaledown_end config;
  cfg_influence_scaledown_final_val :=
    cfg_influence_scaledown_final_val config;
  cfg_influence_only_when_visible := cfg_influence_only_when_visible config;
  cfg_influence_divergence_measure := cfg_influence_divergence_measure config
|}.

Definition with_measure (name : string) (config : Config) : Config := {|
  cfg_num_other_agents := cfg_num_other_agents config;
  cfg_moa_weight := cfg_moa_weight config;
  cfg_train_moa_only_when_visible := cfg_train_moa_only_when_visible config;
  cfg_influence_reward_clip := cfg_influence_reward_clip config;
  cfg_influence_reward_weight := cfg_influence_reward_weight config;
  cfg_influence_curriculum_steps := cfg_influence_curriculum_steps config;
  cfg_influence_scaledown_start := cfg_influence_scaledown_start config;
  cfg_influence_scaledown_end := cfg_influence_scaledown_end config;
  cfg_influence_scaledown_final_val :=
    cfg_influence_scaledown_final_val config;
  cfg_influence_only_when_visible := cfg_influence_only_when_visible config;
  cfg_influence_divergence_measure := name
|}.

(** ** The marginal of the design

    The design asks for
    [marginal[b, n, :] = sum over own_action of
       action_probs[b, own_action] * counterfactual_probs[b, n, own_action, :]],
    normalised along the last axis. *)

Definition weighted_marginal (action_probs : list R)
    (counterfactual_probs : list (list R)) : list R :=
  normalize
    (sum_rows (last_dim counterfactual_probs)
       (zip_with (fun p row => map (Rmult p) row)
          action_probs counterfactual_probs)).

Definition marginal_by_weighting (policy : Policy)
    (trajectory : gmap string value) : result (list (list (list R))) :=
  logits ← getitem trajectory ACTION_LOGITS;
  logits ← match logits with
           | VFloat2 a => Ok a
           | _ => Err Unmodelled
           end;
  let action_probs := map normalize (map softmax logits) in
  counter_probs ← getitem trajectory COUNTERFACTUAL_ACTIONS;
  rows ← flat_rows counter_probs;
  counter_probs ←
    mapM (reshape_blocks (num_other_agents policy) (last_dim action_probs))
         rows;
  let counter_probs := map (map (map softmax)) counter_probs in
  zip_with_r (fun probs blocks => Ok (map (weighted_marginal probs) blocks))
    action_probs counter_probs.

(** ** The data model of a trajectory *)

(** Rectangular nested lists of the given dimensions. *)
Definition rect2 {X : Type} (d0 d1 : nat) (a : list (list X)) : Prop :=
  length a = d0 /\ Forall (fun r => length r = d1) a.

Definition rect3 {X : Type} (d0 d1 d2 : nat) (a : list (list (list X)))
    : Prop :=
  length a = d0 /\ Forall (rect2 d1 d2) a.

Definition rect4 {X : Type} (d0 d1 d2 d3 : nat)
    (a : list (list (list (list X)))) : Prop :=
  length a = d0 /\ Forall (rect3 d1 d2 d3) a.

(** A trajectory of [B] steps for an agent with [A] actions, with the
    fields that [compute_influence_reward] reads laid out as the data
    model has them: [actions] [B] with entries that index an axis of
    length [A], [rewards] [B], [action_logits] [B, A],
    [counterfactual_actions] [B, N, A, A] and [others_visibility]
    [B, N]. *)
Record data_model (policy : Policy) (trajectory : gmap string value)
    (B A : nat) : Prop := {
  dm_steps : (1 <= B)%nat;
  dm_own_actions : (1 <= A)%nat;
  dm_agents : (1 <= num_other_agents policy)%nat;
  dm_obs : exists v, trajectory !! "obs" = Some v /\ len v = B;
  dm_actions :
    exists acts,
      trajectory !! "actions" = Some (VInt1 acts) /\ length acts = B /\
      Forall (fun a => (- Z.of_nat A <= a < Z.of_nat A)%Z) acts;
  dm_rewards :
    exists r, trajectory !! "rewards" = Some (VFloat1 r) /\ length r = B;
  dm_logits :
    exists l, trajectory !! ACTION_LOGITS = Some (VFloat2 l) /\ rect2 B A l;
  dm_counterfactuals :
    exists c,
      trajectory !! COUNTERFACTUAL_ACTIONS = Some (VFloat4 c) /\
      rect4 B (num_other_agents policy) A A c;
  dm_visibility :
    exists v,
      trajectory !! VISIBILITY = Some (VFloat2 v) /\
      rect2 B (num_other_agents policy) v
}.

(** The length of an axis after broadcasting lengths that fit. *)
Definition bdim (d d' : nat) : nat :=
  if decide (d = 1)%nat then d' else d.

(** ** Further predicates *)

(** A row of positive entries that sum to 1. *)
Definition distribution (r : list R) : Prop :=
  Forall (fun x => 0 < x) r /\ rsum r = 1.

(** ** Further example configurations *)

(** The defaults with a ramp of 100 steps. *)
Definition CONFIG_SMALL : Config := {|
  cfg_num_other_agents := cfg_num_other_agents CONFIG;
  cfg_moa_weight := cfg_moa_weight CONFIG;
  cfg_train_moa_only_when_visible := cfg_train_moa_only_when_visible CONFIG;
  cfg_influence_reward_clip := cfg_influence_reward_clip CONFIG;
  cfg_influence_reward_weight := cfg_influence_reward_weight CONFIG;
  cfg_influence_curriculum_steps := 100;
  cfg_influence_scaledown_start := cfg_influence_scaledown_start CONFIG;
  cfg_influence_scaledown_end := cfg_influence_scaledown_end CONFIG;
  cfg_influence_scaledown_final_val := cfg_influence_scaledown_final_val CONFIG;
  cfg_influence_only_when_visible := cfg_influence_only_when_visible CONFIG;
  cfg_influence_divergence_measure := cfg_influence_divergence_measure CONFIG
|}.

Definition with_scaledown (first last : R) (config : Config) : Config := {|
  cfg_num_other_agents := cfg_num_other_agents config;
  cfg_moa_weight := cfg_moa_weight config;
  cfg_train_moa_only_when_visible := cfg_train_moa_only_when_visible config;
  cfg_influence_reward_clip := cfg_influence_reward_clip config;
  cfg_influence_reward_weight := cfg_influence_reward_weight config;
  cfg_influence_curriculum_steps := cfg_influence_curriculum_steps config;
  cfg_influence_scaledown_start := first;
  cfg_influence_scaledown_end := last;
  cfg_influence_scaledown_final_val :=
    cfg_influence_scaledown_final_val config;
  cfg_influence_only_when_visible := cfg_influence_only_when_visible config;
  cfg_influence_divergence_measure := cfg_influence_divergence_measure config
|}.

(** An array of shape [d0, d1, A] every row of which is a distribution. *)
Definition distributions (d0 d1 A : nat) (a : list (list (list R))) : Prop :=
  length a = d0 /\
  Forall (fun blk =>
            length blk = d1 /\
            Forall (fun r => length r = A /\ distribution r) blk) a.

(** The fields that [compute_influence_reward] reads before it writes. *)
Definition read_fields : list string :=
  [COUNTERFACTUAL_ACTIONS; "obs"; "actions"; ACTION_LOGITS; VISIBILITY].

(** Two steps, two other agents and a single action. *)
Definition two_by_two : gmap string value :=
  <["obs" := VFloat2 [[0]; [0]]]>
  (<["actions" := VInt1 [0; 0]%Z]>
  (<["rewards" := VFloat1 [0; 0]]>
  (<[ACTION_LOGITS := VFloat2 [[0]; [0]]]>
  (<[COUNTERFACTUAL_ACTIONS := VFloat4 [[[[0]]; [[0]]]; [[[0]]; [[0]]]]]>
  (<[VISIBILITY := VFloat2 [[1; 1]; [1; 1]]]> ∅))))).

(** [m] does not raise a KeyError. *)
Definition no_key_error {A : Type} (m : result A) : Prop :=
  forall key, m <> Err (KeyError key).

(** ** [agent_name_to_idx] and [get_agent_visibility_multiplier]

    Agent numbers and the entries of [agent_ids] are Python ints, on which
    [int] is the identity.  The field [others_visibility] that
    [get_agent_visibility_multiplier] reads holds, for every step, the
    numbers of the agents in sight: a rank 2 array of integers or a list
    of lists of them. *)

Definition agent_name_to_idx (agent_num self_id : Z) : Z :=
  if decide (agent_num > self_id)%Z then (agent_num - 1)%Z else agent_num.

(** [visibility[i, vis_agents] = 1] on an array with [width] columns: the
    row index and every column index have to be in bounds, negative
    column indices count from the end. *)
Definition set_visible (width : nat) (visibility : list (list R)) (i : nat)
    (vis_agents : list Z) : result (list (list R)) :=
  row ← item visibility i;
  cols ← mapM (py_index width) vis_agents;
  Ok (<[i := foldr (fun j r => <[j := 1]> r) row cols]> visibility).

(** The loop [for i, v in enumerate(trajectory[VISIBILITY])], from step
    [i] on.  [agent_ids[i]] is evaluated once for every entry of [v]. *)
Fixpoint visibility_loop (num_other_agents : nat) (agent_ids : list Z)
    (i : nat) (rows : list (list Z)) (visibility : list (list R))
    : result (list (list R)) :=
  match rows with
  | [] => Ok visibility
  | v :: rows' =>
      vis_agents ←
        mapM (fun a => self_id ← item agent_ids i;
                       Ok (agent_name_to_idx a self_id)) v;
      visibility ← set_visible num_other_agents visibility i vis_agents;
      visibility_loop num_other_agents agent_ids (S i) rows' visibility
  end.

Definition get_agent_visibility_multiplier (trajectory : gmap string value)
    (num_other_agents : nat) (agent_ids : list Z)
    : result (list (list R)) :=
  obs ← getitem trajectory "obs";
  let traj_len := len obs in
  let visibility := replicate traj_len (replicate num_other_agents 0) in
  rows ← getitem trajectory VISIBILITY;
  rows ← match rows with
         | VInt2 a => Ok a
         | _ => Err Unmodelled
         end;
  visibility_loop num_other_agents agent_ids 0 rows visibility.

(** Entry [(i, j)] of a rank 2 array. *)
Definition entry {X : Type} (a : list (list X)) (i j : nat) : option X :=
  row ← a !! i; row !! j.

(** Agent [a] lands in column [j] of the row of the agent [self_id]. *)
Definition names_column (num_other_agents : nat) (self_id : Z) (j : nat)
    (a : Z) : bool :=
  match py_index num_other_agents (agent_name_to_idx a self_id) with
  | Ok j' => bool_decide (j' = j)
  | Err _ => false
  end.

(** Row [i] of the field names an agent that lands in column [j]. *)
Definition listed (num_other_agents : nat) (agent_ids : list Z)
    (rows : list (list Z)) (i j : nat) : bool :=
  match rows !! i, agent_ids !! i with
  | Some row, Some self_id =>
      existsb (names_column num_other_agents self_id j) row
  | _, _ => false
  end.

(** The field has no more rows than the array of zeros, and every row
    names agents whose own number is known and whose column exists. *)
Definition visibility_fits (traj_len num_other_agents : nat)
    (agent_ids : list Z) (rows : list (list Z)) : Prop :=
  (length rows <= traj_len)%nat /\
  forall i row a, rows !! i = Some row -> a ∈ row ->
    exists self_id, agent_ids !! i = Some self_id /\
      (- Z.of_nat num_other_agents <= agent_name_to_idx a self_id
       < Z.of_nat num_other_agents)%Z.

(** Two steps seen by the agents 0 and 1 of three: agent 0 sees both
    others, agent 1 sees agent 0. *)
Definition visibility_example : gmap string value :=
  <["obs" := VFloat2 [[0]; [0]]]>
  (<[VISIBILITY := VInt2 [[1; 2]; [0]]%Z]> ∅).

(** ** [MOALoss]

    TensorFlow tensors are arrays as before, float32 idealised as a real
    number.  [tf.nn.sparse_softmax_cross_entropy_with_logits] is taken by
    its definition, minus the logarithm of the softmax probability of the
    label; it wants labels of exactly the shape of the logits without
    their last axis.  A label outside [0, A) is an error on some devices
    and a NaN on others, and is left outside the model.  The mean of no
    entries is NaN. *)

(** One entry of the cross entropy. *)
Definition cross_entropy (logits : list R) (label : Z) : result R :=
  if decide (0 <= label < Z.of_nat (length logits))%Z
  then p ← item (softmax logits) (Z.to_nat label); Ok (- ln p)
  else Err Unmodelled.

(** [a[:-1]] *)
Definition all_but_last {X : Type} (a : list X) : list X :=
  take (length a - 1) a.

(** [tf.reduce_mean] of a rank 2 tensor. *)
Definition reduce_mean (a : list (list R)) : float :=
  match mjoin a with
  | [] => NonFinite
  | flat => Finite (rsum flat / INR (length flat))
  end.

(** [x * w] for a float32 that may be NaN. *)
Definition fscale (x : float) (w : R) : float :=
  match x with
  | Finite r => Finite (r * w)
  | NonFinite => NonFinite
  end.

Record MOALoss_object := {
  ce_per_entry : list (list R);
  total_loss : float
}.

(** [MOALoss.__init__]; [num_actions] is not used. *)
Definition MOALoss (pred_logits : list (list (list R)))
    (true_actions : list (list Z)) (loss_weight : R)
    (others_visibility : option (list (list R))) : result MOALoss_object :=
  (* Remove the prediction for the final step *)
  let action_logits := all_but_last pred_logits in
  (* Remove first agent (self) and first action *)
  let true_actions := map (drop 1) (drop 1 true_actions) in
  (* Compute softmax cross entropy *)
  ce ← zip_with_r (zip_with_r cross_entropy) action_logits true_actions;
  (* Zero out the loss if the other agent isn't visible to this one. *)
  ce ← match others_visibility with
       | Some others_visibility =>
           let others_visibility := drop 1 others_visibility in
           bcastN (fun x v => Ok (x * v)) 2 ce others_visibility
       | None => Ok ce
       end;
  Ok {| ce_per_entry := ce;
        total_loss := fscale (reduce_mean ce) loss_weight |}.

(** The multiplier of the cross entropy at step [t] for the other agent
    [n]: 1 when no visibility is given. *)
Definition visibility_at (others_visibility : option (list (list R)))
    (t n : nat) : option R :=
  match others_visibility with
  | Some vis => entry vis t n
  | None => Some 1
  end.

(** Two steps, one other agent, two actions; all logits 0. *)
Definition moa_example_logits : list (list (list R)) :=
  [[[0; 0]]; [[0; 0]]].

Definition moa_example_actions : list (list Z) := [[0; 0]; [0; 1]]%Z.

(** ** [postprocess_trajectory]

    The value network behind [policy._value], the number of state tensors
    of the model and RLlib's [compute_advantages] (called with the
    [gamma], [lambda] and [use_gae] of the configuration) lie outside the
    file; the embedding takes them as parameters.  [other_agent_batches]
    and [episode] are not used by the function. *)

(** What indexing the first axis of an array gives. *)
Inductive element :=
| EFloat (x : R)
| EInt (z : Z)
| EBool (b : bool)
| EArray (a : value).

Definition last_of {X : Type} (l : list X) : result X :=
  match last l with
  | Some x => Ok x
  | None => Err IndexError
  end.

(** [a[-1]] *)
Definition last_item (a : value) : result element :=
  match a with
  | VFloat1 l => EFloat <$> last_of l
  | VFloat2 l => (fun r => EArray (VFloat1 r)) <$> last_of l
  | VFloat3 l => (fun r => EArray (VFloat2 r)) <$> last_of l
  | VFloat4 l => (fun r => EArray (VFloat3 r)) <$> last_of l
  | VInt1 l => EInt <$> last_of l
  | VInt2 l => (fun r => EArray (VInt1 r)) <$> last_of l
  | VBool1 l => EBool <$> last_of l
  end.

(** [np.reshape(np.atleast_2d(np.array(a)), [-1, 1])]: the entries of [a]
    in C order, one in each row. *)
Definition column (a : value) : result value :=
  match a with
  | VInt1 l => Ok (VInt2 (map (fun x => [x]) l))
  | VInt2 l => Ok (VInt2 (map (fun x => [x]) (mjoin l)))
  | VFloat1 l => Ok (VFloat2 (map (fun x => [x]) l))
  | VFloat2 l => Ok (VFloat2 (map (fun x => [x]) (mjoin l)))
  | VFloat3 l => Ok (VFloat2 (map (fun x => [x]) (mjoin (mjoin l))))
  | VFloat4 l => Ok (VFloat2 (map (fun x => [x]) (mjoin (mjoin (mjoin l)))))
  | VBool1 _ => Err Unmodelled
  end.

(** [np.hstack((own, others))] for an array [own] of rank 2: the rows are
    joined, integers next to doubles become doubles, and an array of
    another rank or with another number of rows is refused. *)
Definition hstack (own others : value) : result value :=
  match own, others with
  | VInt2 a, VInt2 b =>
      VInt2 <$> zip_with_r (fun r s => Ok (r ++ s)) a b
  | VInt2 a, VFloat2 b =>
      VFloat2 <$> zip_with_r (fun r s => Ok (map IZR r ++ s)) a b
  | VFloat2 a, VInt2 b =>
      VFloat2 <$> zip_with_r (fun r s => Ok (r ++ map IZR s)) a b
  | VFloat2 a, VFloat2 b =>
      VFloat2 <$> zip_with_r (fun r s => Ok (r ++ s)) a b
  | (VInt2 _ | VFloat2 _), (VInt1 _ | VFloat1 _ | VFloat3 _ | VFloat4 _) =>
      Err ValueError
  | _, _ => Err Unmodelled
  end.

(** The decimal digits of a number. *)
Fixpoint digits (u : Decimal.uint) : string :=
  match u with
  | Decimal.Nil => ""
  | Decimal.D0 u => "0" +:+ digits u
  | Decimal.D1 u => "1" +:+ digits u
  | Decimal.D2 u => "2" +:+ digits u
  | Decimal.D3 u => "3" +:+ digits u
  | Decimal.D4 u => "4" +:+ digits u
  | Decimal.D5 u => "5" +:+ digits u
  | Decimal.D6 u => "6" +:+ digits u
  | Decimal.D7 u => "7" +:+ digits u
  | Decimal.D8 u => "8" +:+ digits u
  | Decimal.D9 u => "9" +:+ digits u
  end.

(** ["state_out_{}".format(i)] *)
Definition state_out (i : nat) : string :=
  "state_out_" +:+ digits (Nat.to_uint i).

Section postprocessing.

Variable num_state_tensors : nat.
Variable _value :
  element -> element -> element -> list (list element) -> result R.
Variable compute_advantages :
  gmap string value -> R -> result (gmap string value).

(** The branch that asks the value network for the value of the state
    after the last step. *)
Definition bootstrap_value (sample_batch : gmap string value) : result R :=
  next_state ←
    mapM (fun i => s ← getitem sample_batch (state_out i);
                   x ← last_item s; Ok [x])
         (seq 0 num_state_tensors);
  next_obs ← getitem sample_batch "new_obs";
  next_obs ← last_item next_obs;
  actions ← getitem sample_batch "actions";
  action ← last_item actions;
  rewards ← getitem sample_batch "rewards";
  reward ← last_item rewards;
  _value next_obs action reward next_state.

Definition postprocess_trajectory (policy : Policy)
    (sample_batch : gmap string value)
    : result (Policy * gmap string value) :=
  (* Extract matrix of self and other agents' actions. *)
  actions ← getitem sample_batch "actions";
  own_actions ← column actions;
  others_actions ← getitem sample_batch OTHERS_ACTIONS;
  all_actions ← hstack own_actions others_actions;
  let sample_batch := <[ALL_ACTIONS := all_actions]> sample_batch in
  (* Compute causal social influence reward and add to batch. *)
  '(policy, sample_batch) ← compute_influence_reward policy sample_batch;
  dones ← getitem sample_batch "dones";
  completed ← match dones with
              | VBool1 l => last_of l
              | _ => Err Unmodelled
              end;
  last_r ← (if completed : bool then Ok 0
            else bootstrap_value sample_batch);
  sample_batch ← compute_advantages sample_batch last_r;
  Ok (policy, sample_batch).

End postprocessing.

(** The example step as a finished episode, with the action of the other
    agent. *)
Definition example_batch : gmap string value :=
  <[OTHERS_ACTIONS := VInt2 [[1%Z]]]>
    (<["dones" := VBool1 [true]]> example_trajectory).

(** ** [compute_influence_reward] and the objects it assigns to

    The function works on local arrays up to line 230: indexing with
    index arrays copies, [softmax], the divisions and [kl_div] build new
    arrays, and the in-place product of line 226 changes the array that
    [kl_div] or the sum of line 215 has just built.  The policy is
    assigned to on line 234 and the trajectory on lines 238 to 240.  An
    [outcome] is the two objects as they are when control leaves the
    function, with the exception that ended the call, if any. *)

Record outcome := {
  policy_after : Policy;
  trajectory_after : gmap string value;
  raised : option error
}.

Definition compute_influence_reward_in_place (policy : Policy)
    (trajectory : gmap string value) : outcome :=
  match influence_per_agent_step policy trajectory with
  | Err e =>
      {| policy_after := policy; trajectory_after := trajectory;
         raised := Some e |}
  | Ok per_agent_step =>
      (* Summarize and clip influence reward *)
      let influence := summarize_and_clip policy per_agent_step in
      (* Get influence curriculum weight *)
      match getitem trajectory "obs" with
      | Err e =>
          {| policy_after := policy; trajectory_after := trajectory;
             raised := Some e |}
      | Ok obs =>
          let policy :=
            set_steps_processed
              (steps_processed policy + Z.of_nat (len obs)) policy in
          let inf_weight := curr_influence_weight policy in
          (* Add to trajectory *)
          let trajectory :=
            <["total_influence" := VFloat1 influence]> trajectory in
          match getitem trajectory "rewards" with
          | Err e =>
              {| policy_after := policy; trajectory_after := trajectory;
                 raised := Some e |}
          | Ok rewards =>
              let trajectory :=
                <["reward_without_influence" := rewards]> trajectory in
              match
                rewards ← getitem trajectory "rewards";
                match rewards with
                | VFloat1 r =>
                    bcast (fun x y => Ok (x + y)) r
                      (map (fun x => x * inf_weight) influence)
                | _ => Err Unmodelled
                end
              with
              | Err e =>
                  {| policy_after := policy; trajectory_after := trajectory;
                     raised := Some e |}
              | Ok new_rewards =>
                  {| policy_after := policy;
                     trajectory_after :=
                       <["rewards" := VFloat1 new_rewards]> trajectory;
                     raised := None |}
              end
          end
      end
  end.

(** What the caller of [compute_influence_reward] gets. *)
Definition returned (o : outcome) : result (Policy * gmap string value) :=
  match raised o with
  | None => Ok (policy_after o, trajectory_after o)
  | Some e => Err e
  end.

(** ** The influence of the design

    The design sums, at every step [b], the divergences of
    [true_probs[b, n, :]] from [marginal_probs[b, n, :]] over the other
    agents [n], each multiplied by the visibility of the agent, with the
    marginal of the design, and clips the sum. *)

(** The divergence of one distribution from another one. *)
Definition divergence_of_rows (policy : Policy) (p q : list R) : result R :=
  d ← divergence policy [[p]] [[q]];
  match d with
  | [[x]] => Ok x
  | _ => Err ValueError
  end.

Definition influence_by_design (policy : Policy)
    (trajectory : gmap string value) : result (list R) :=
  true_probs ← true_probs_of policy trajectory;
  marginal_probs ← marginal_by_weighting policy trajectory;
  per_agent_step ←
    zip_with_r (zip_with_r (divergence_of_rows policy))
      true_probs marginal_probs;
  per_agent_step ← mask_invisible policy trajectory per_agent_step;
  Ok (summarize_and_clip policy per_agent_step).

(** Two steps, one other agent, two actions.  The other agent is
    predicted to act the same whatever the agent does: all counterfactual
    logits are 0.  The agent itself is undecided at the first step and
    prefers its first action three to one at the second. *)
Definition cross_step_trajectory : gmap string value :=
  <["obs" := VFloat2 [[0]; [0]]]>
  (<["actions" := VInt1 [0; 0]%Z]>
  (<["rewards" := VFloat1 [1; 1]]>
  (<[ACTION_LOGITS := VFloat2 [[0; 0]; [ln 3; 0]]]>
  (<[COUNTERFACTUAL_ACTIONS :=
       VFloat4 [[[[0; 0]; [0; 0]]]; [[[0; 0]; [0; 0]]]]]>
  (<[VISIBILITY := VFloat2 [[1]; [1]]]> ∅))))).

(** The divergence of the even distribution from the agent's action
    probabilities at the second step. *)
Definition cross_step_divergence : R :=
  kl_sum [1 / 2; 1 / 2] [3 / 4; 1 / 4].

(** The example step without its rewards. *)
Definition example_without_rewards : gmap string value :=
  delete "rewards" example_trajectory.

(** * Properties *)

(** ** Broadcasting of arrays of identical shape *)

Section broadcasting.
Context {X Y Z : Type}.
Implicit Types (f : X -> Y -> result Z) (g : X -> Y -> Z).

Lemma mapM_Ok_cons {A B : Type} (h : A -> result B) a l :
  mapM h (a :: l) = (y ← h a; k ← mapM h l; Ok (y :: k)).
Proof. reflexivity. Qed.

Lemma bcast_same_length f xs ys :
  length xs = length ys -> bcast f xs ys = zip_with_r f xs ys.
Proof.
  destruct xs as [|x [|x' xs]], ys as [|y [|y' ys]]; try discriminate;
    intros _; reflexivity.
Qed.

Lemma bcast_same_length_not f xs ys :
  length xs <> 1%nat -> length ys <> 1%nat ->
  bcast f xs ys = zip_with_r f xs ys.
Proof.
  destruct xs as [|x [|x' xs]], ys as [|y [|y' ys]]; cbn; intros H1 H2;
    try reflexivity; contradiction.
Qed.

Lemma zip_with_r_total f g xs ys :
  Forall2 (fun x y => f x y = Ok (g x y)) xs ys ->
  zip_with_r f xs ys = Ok (zip_with g xs ys).
Proof.
  induction 1 as [|x y xs ys Hxy _ IH]; [reflexivity|].
  cbn. rewrite Hxy. cbn. rewrite IH. reflexivity.
Qed.

Lemma bcast_total f g xs ys :
  Forall2 (fun x y => f x y = Ok (g x y)) xs ys ->
  bcast f xs ys = Ok (zip_with g xs ys).
Proof.
  intros H. rewrite bcast_same_length by (eapply Forall2_length; eauto).
  apply zip_with_r_total; assumption.
Qed.

End broadcasting.

Lemma tForall2_impl {A B : Type} (P Q : A -> B -> Prop) n
    (p : tens A n) (q : tens B n) :
  (forall x y, P x y -> Q x y) -> tForall2 P n p q -> tForall2 Q n p q.
Proof.
  intros HPQ. revert p q. induction n as [|n IH]; cbn; intros p q H; [auto|].
  induction H; constructor; auto.
Qed.

Lemma bcastN_total {X Y Z : Type} (f : X -> Y -> result Z) (g : X -> Y -> Z)
    n (p : tens X n) (q : tens Y n) :
  tForall2 (fun x y => f x y = Ok (g x y)) n p q ->
  bcastN f n p q = Ok (tzip_with g n p q).
Proof.
  revert p q. induction n as [|n IH]; cbn; intros p q H; [assumption|].
  apply bcast_total. induction H; constructor; auto.
Qed.

(** *** Rows of [kl_div] *)





Lemma kl_term_defined x y : term_defined x y -> kl_term x y = Finite (kl_summand x y).
Proof.
  unfold term_defined, kl_term, kl_summand. intros [Hx | [Hy Hpos]].
  - destruct (Req_dec_T x 0); [reflexivity | contradiction].
  - destruct (Req_dec_T x 0); [reflexivity|].
    destruct (Req_dec_T y 0); [contradiction|].
    destruct (Rlt_dec 0 (x / y)); [reflexivity | contradiction].
Qed.

Lemma kl_term_undefined x y : ~ term_defined x y -> kl_term x y = NonFinite.
Proof.
  unfold term_defined, kl_term. intros H.
  destruct (Req_dec_T x 0); [tauto|].
  destruct (Req_dec_T y 0); [reflexivity|].
  destruct (Rlt_dec 0 (x / y)); [tauto | reflexivity].
Qed.

Lemma term_defined_dec x y : {term_defined x y} + {~ term_defined x y}.
Proof.
  unfold term_defined.
  destruct (Req_dec_T x 0); [left; tauto|].
  destruct (Req_dec_T y 0); [right; tauto|].
  destruct (Rlt_dec 0 (x / y)); [left; tauto | right; tauto].
Qed.

Lemma kl_row_val_finite p q :
  Forall2 term_defined p q -> kl_row_val p q = Finite (kl_sum p q).
Proof.
  unfold kl_row_val, kl_sum.
  induction 1 as [|x y p q Hxy _ IH]; [reflexivity|].
  cbn. rewrite (kl_term_defined _ _ Hxy). unfold fsum in IH. rewrite IH. reflexivity.
Qed.

Lemma kl_row_val_nonfinite p q :
  length p = length q -> ~ Forall2 term_defined p q -> kl_row_val p q = NonFinite.
Proof.
  unfold kl_row_val. revert q. induction p as [|x p IH]; intros [|y q] Hlen Hnot;
    try discriminate.
  - exfalso. apply Hnot. constructor.
  - cbn. destruct (term_defined_dec x y) as [Hd | Hd].
    + rewrite (kl_term_defined _ _ Hd). unfold fsum in IH. rewrite IH; [reflexivity | | ].
      * cbn in Hlen. lia.
      * intros Hall. apply Hnot. constructor; assumption.
    + rewrite (kl_term_undefined _ _ Hd). reflexivity.
Qed.

Lemma kl_row_same_length p q :
  length p = length q -> kl_row p q = Ok (kl_row_val p q).
Proof.
  intros Hlen. unfold kl_row, kl_row_val.
  rewrite (bcast_total _ kl_term); [reflexivity|].
  revert q Hlen. induction p; intros [|y q] Hlen; try discriminate; constructor; auto.
Qed.

(** *** Arrays of any rank *)

Lemma tall_tzip_with {X Y Z : Type} (P : Z -> bool) (g : X -> Y -> Z) n
    (p : tens X n) (q : tens Y n) :
  tForall2 (fun x y => P (g x y) = true) n p q ->
  tall P n (tzip_with g n p q) = true.
Proof.
  revert p q. induction n as [|n IH]; cbn; intros p q H; [assumption|].
  induction H as [|x y p q Hxy _ IHl]; [reflexivity|].
  cbn. rewrite (IH _ _ Hxy). exact IHl.
Qed.

Lemma tall_tzip_with_inv {X Y Z : Type} (S : X -> Y -> Prop) (P : Z -> bool)
    (g : X -> Y -> Z) n (p : tens X n) (q : tens Y n) :
  tForall2 S n p q ->
  tall P n (tzip_with g n p q) = true ->
  tForall2 (fun x y => S x y /\ P (g x y) = true) n p q.
Proof.
  revert p q. induction n as [|n IH]; cbn; intros p q H Hall; [auto|].
  induction H as [|x y p q Hxy _ IHl]; [constructor|].
  cbn in Hall. apply andb_prop in Hall as [H1 H2]. constructor; auto.
Qed.

Lemma tmap_tzip_with {X Y Z W : Type} (h : Z -> W) (g : X -> Y -> Z) n
    (p : tens X n) (q : tens Y n) :
  tmap h n (tzip_with g n p q) = tzip_with (fun x y => h (g x y)) n p q.
Proof.
  revert p q. induction n as [|n IH]; cbn; intros p q; [reflexivity|].
  revert q. induction p as [|x p IHp]; intros [|y q]; cbn; try reflexivity.
  rewrite IH, IHp. reflexivity.
Qed.

Lemma tzip_with_ext {X Y Z : Type} (g g' : X -> Y -> Z) n
    (p : tens X n) (q : tens Y n) :
  tForall2 (fun x y => g x y = g' x y) n p q ->
  tzip_with g n p q = tzip_with g' n p q.
Proof.
  revert p q. induction n as [|n IH]; cbn; intros p q H; [assumption|].
  induction H as [|x y p q Hxy _ IHl]; [reflexivity|].
  cbn. rewrite (IH _ _ Hxy), IHl. reflexivity.
Qed.

Lemma tzip_with_const {X Y Z W : Type} (S : X -> Y -> Prop) (g : X -> Y -> Z)
    (c : W) n (p : tens X n) (q : tens Y n) :
  tForall2 S n p q ->
  tmap (fun _ => c) n (tzip_with g n p q) = tmap (fun _ => c) n p.
Proof.
  revert p q. induction n as [|n IH]; cbn; intros p q H; [reflexivity|].
  induction H as [|x y p q Hxy _ IHl]; [reflexivity|].
  cbn. rewrite (IH _ _ Hxy), IHl. reflexivity.
Qed.



Lemma kl_raw_same_shape n p q :
  same_shape n p q -> kl_raw n p q = Ok (tzip_with kl_row_val n p q).
Proof.
  intros H. apply bcastN_total. revert H. apply tForall2_impl.
  apply kl_row_same_length.
Qed.

Lemma all_defined_same_shape n p q : all_defined n p q -> same_shape n p q.
Proof. apply tForall2_impl. intros x y H. eapply Forall2_length; eauto. Qed.

Lemma kl_row_val_finite_inv p q :
  length p = length q -> isfinite (kl_row_val p q) = true ->
  Forall2 term_defined p q.
Proof.
  intros Hlen Hfin. destruct (Forall2_dec term_defined (dec := term_defined_dec) p q) as [H | H];
    [assumption|].
  rewrite (kl_row_val_nonfinite _ _ Hlen H) in Hfin. discriminate.
Qed.

Lemma kl_div_all_defined n p q :
  all_defined n p q -> kl_div n p q = Ok (tzip_with kl_sum n p q).
Proof.
  intros H. unfold kl_div.
  rewrite kl_raw_same_shape by (apply all_defined_same_shape; assumption).
  cbn. rewrite tall_tzip_with.
  - rewrite tmap_tzip_with. f_equal. apply tzip_with_ext.
    revert H. apply tForall2_impl. intros x y Hxy.
    rewrite (kl_row_val_finite _ _ Hxy). reflexivity.
  - revert H. apply tForall2_impl. intros x y Hxy.
    rewrite (kl_row_val_finite _ _ Hxy). reflexivity.
Qed.

Lemma kl_div_not_all_defined n p q :
  same_shape n p q -> ~ all_defined n p q ->
  kl_div n p q = Ok (tmap (fun _ => 0) n p).
Proof.
  intros Hs Hnot. unfold kl_div. rewrite (kl_raw_same_shape _ _ _ Hs). cbn.
  destruct (tall isfinite n (tzip_with kl_row_val n p q)) eqn:Hall.
  - exfalso. apply Hnot.
    apply (tall_tzip_with_inv _ _ _ _ _ _ Hs) in Hall.
    revert Hall. apply tForall2_impl. intros x y [Hlen Hfin].
    apply kl_row_val_finite_inv; assumption.
  - f_equal. eapply tzip_with_const; eassumption.
Qed.

(** ** [kl_div]: the finiteness test *)

Lemma tForall2_sides {X Y : Type} (P : X -> Y -> Prop) (A : X -> Prop)
    (B : Y -> Prop) n (p : tens X n) (q : tens Y n) :
  tForall2 P n p q -> tForall A n p -> tForall B n q ->
  tForall2 (fun x y => P x y /\ A x /\ B y) n p q.
Proof.
  revert p q. induction n as [|n IH]; cbn; intros p q H Hp Hq; [auto|].
  induction H as [|x y p q Hxy _ IHl]; [constructor|].
  inversion Hp; inversion Hq; subst. constructor; auto.
Qed.

Lemma term_defined_nonneg x y :
  0 <= x -> 0 <= y -> term_defined x y <-> (0 < x -> 0 < y).
Proof.
  intros Hx Hy. unfold term_defined. split.
  - intros [-> | [Hy0 _]] Hpos; lra.
  - intros H. destruct (Req_dec_T x 0) as [-> | Hx0]; [left; reflexivity|].
    right. assert (0 < x) by lra. assert (0 < y) by auto.
    split; [lra|]. apply Rdiv_lt_0_compat; assumption.
Qed.

Lemma row_defined_nonneg p q :
  Forall (fun x => 0 <= x) p -> Forall (fun x => 0 <= x) q ->
  Forall2 term_defined p q <-> Forall2 (fun x y => 0 < x -> 0 < y) p q.
Proof.
  intros Hp Hq. split; intros H.
  - induction H as [|x y p q Hxy _ IH]; [constructor|].
    inversion Hp; inversion Hq; subst. constructor; [|auto].
    apply term_defined_nonneg; assumption.
  - induction H as [|x y p q Hxy _ IH]; [constructor|].
    inversion Hp; inversion Hq; subst. constructor; [|auto].
    apply term_defined_nonneg; assumption.
Qed.

Lemma all_defined_supported n p q :
  same_shape n p q -> nonneg n p -> nonneg n q ->
  all_defined n p q <-> supported n p q.
Proof.
  intros Hs Hp Hq. unfold all_defined, supported. split; intros H.
  - pose proof (tForall2_sides _ _ _ _ _ _ H Hp Hq) as H'.
    revert H'. apply tForall2_impl. intros x y (Hd & Hx & Hy).
    apply row_defined_nonneg; assumption.
  - pose proof (tForall2_sides _ _ _ _ _ _ H Hp Hq) as H'.
    revert H'. apply tForall2_impl. intros x y (Hd & Hx & Hy).
    apply row_defined_nonneg; assumption.
Qed.

Lemma kl_div_same_shape_returns n p q :
  same_shape n p q -> exists r, kl_div n p q = Ok r.
Proof.
  intros Hs. unfold kl_div. rewrite (kl_raw_same_shape _ _ _ Hs). cbn. eauto.
Qed.

(** C4.  For arrays [p], [q] of identical shape without negative entries,
    [kl_div p q] is, at every outer index, the sum over [a] of
    [p[a] * log(p[a] / q[a])] where the terms with [p[a] == 0] count as 0,
    provided no entry of that result is non-finite, that is, provided [q]
    is positive wherever [p] is; if some entry is non-finite the whole
    result is the all-zero array of that shape.  The call always returns,
    and what it returns is an array of finite numbers. *)
Theorem kl_div_nonneg (n : nat) (p q : tens (list R) n) :
  same_shape n p q -> nonneg n p -> nonneg n q ->
  (supported n p q -> kl_div n p q = Ok (tzip_with kl_sum n p q)) /\
  (~ supported n p q -> kl_div n p q = Ok (tmap (fun _ => 0) n p)) /\
  (exists r : tens R n, kl_div n p q = Ok r).
Proof.
  intros Hs Hp Hq. pose proof (all_defined_supported n p q Hs Hp Hq) as Hiff.
  repeat split.
  - intros H. apply kl_div_all_defined, Hiff, H.
  - intros H. apply kl_div_not_all_defined; [assumption|].
    intros Hd. apply H, Hiff, Hd.
  - apply kl_div_same_shape_returns; assumption.
Qed.

Lemma kl_div_nonneg_witness :
  kl_div 1 [[1; 0]; [1; 1]] [[0; 1]; [1; 1]] = Ok [0; 0].
Proof.
  refine (proj1 (proj2 (kl_div_nonneg 1 [[1; 0]; [1; 1]] [[0; 1]; [1; 1]]
                          _ _ _)) _).
  - repeat constructor.
  - repeat constructor; lra.
  - repeat constructor; lra.
  - intros H. inversion H as [|? ? ? ? Hrow _]; subst.
    inversion Hrow as [|? ? ? ? Hxy _]; subst. lra.
Defined.

(** A row that is finite next to one that is not. *)
Lemma ln_half_neg : ln (1 / 2) < 0.
Proof. rewrite <- ln_1. apply ln_increasing; lra. Qed.

(** C5, as stated, fails: the entries of [kl] are not replaced one by one.
    With [p = [[1], [1]]] and [q = [[0], [2]]] the first entry of [kl] is
    non-finite and the second one is [log(1/2)]; [kl_div] returns
    [[0, 0]], not [[0, log(1/2)]]. *)
Lemma kl_div_not_per_element :
  ~ (forall (n : nat) (p q : tens (list R) n) (kl : tens float n),
       kl_raw n p q = Ok kl ->
       kl_div n p q = Ok (tmap finite_or_zero n kl)).
Proof.
  intros H.
  assert (Hs : same_shape 1 [[1]; [1]] [[0]; [2]]) by (repeat constructor).
  specialize (H 1%nat [[1]; [1]] [[0]; [2]] _ (kl_raw_same_shape _ _ _ Hs)).
  rewrite kl_div_not_all_defined in H; [|assumption|].
  - cbn in H. unfold kl_row_val in H. cbn in H.
    rewrite (kl_term_defined 1 2) in H by (right; lra).
    unfold kl_summand in H. destruct (Req_dec_T 1 0); [lra|].
    cbn in H. injection H as H. pose proof ln_half_neg. lra.
  - intros Hd. inversion Hd as [|? ? ? ? Hrow _]; subst.
    inversion Hrow as [|? ? ? ? Hxy _]; subst.
    destruct Hxy as [? | [? _]]; lra.
Qed.

(** C5, amended.  The suppression is all or nothing: for arrays of
    identical shape, as soon as one entry of the divergence would be
    non-finite every entry of the result is 0, also those whose own value
    is finite; only when every entry is finite does each one keep its
    value. *)
Theorem kl_div_all_or_nothing (n : nat) (p q : tens (list R) n) :
  same_shape n p q ->
  (all_defined n p q -> kl_div n p q = Ok (tzip_with kl_sum n p q)) /\
  (~ all_defined n p q ->
     exists r, kl_div n p q = Ok r /\ tForall (fun x => x = 0) n r).
Proof.
  intros Hs. split.
  - apply kl_div_all_defined.
  - intros Hnot. exists (tmap (fun _ => 0) n p).
    split; [apply kl_div_not_all_defined; assumption|].
    clear. induction n as [|n IH]; cbn; [reflexivity|].
    induction p; constructor; auto.
Qed.

Lemma kl_div_all_or_nothing_witness :
  exists r, kl_div 1 [[1]; [1]] [[0]; [2]] = Ok r
            /\ tForall (fun x => x = 0) 1 r.
Proof.
  refine (proj2 (kl_div_all_or_nothing 1 [[1]; [1]] [[0]; [2]] _) _).
  - repeat constructor.
  - intros Hd. inversion Hd as [|? ? ? ? Hrow _]; subst.
    inversion Hrow as [|? ? ? ? Hxy _]; subst.
    destruct Hxy as [? | [? _]]; lra.
Defined.

(** ** The Jensen-Shannon expression *)

Section fusion.
Context {X Y : Type}.

Lemma tzip_with_fuse_l {Z W : Type} (g : X -> Z -> W) (k : X -> Y -> Z) n
    (p : tens X n) (q : tens Y n) :
  tzip_with g n p (tzip_with k n p q)
  = tzip_with (fun x y => g x (k x y)) n p q.
Proof.
  revert p q. induction n as [|n IH]; cbn; intros p q; [reflexivity|].
  revert q. induction p as [|x p IHp]; intros [|y q]; cbn; try reflexivity.
  rewrite IH, IHp. reflexivity.
Qed.

Lemma tzip_with_fuse_r {Z W : Type} (g : Y -> Z -> W) (k : X -> Y -> Z) n
    (p : tens X n) (q : tens Y n) :
  tzip_with g n q (tzip_with k n p q)
  = tzip_with (fun x y => g y (k x y)) n p q.
Proof.
  revert p q. induction n as [|n IH]; cbn; intros p q; [reflexivity|].
  revert q. induction p as [|x p IHp]; intros [|y q]; cbn; try reflexivity.
  rewrite IH, IHp. reflexivity.
Qed.

Lemma tzip_with_fuse_both {Z1 Z2 W : Type} (g : Z1 -> Z2 -> W)
    (k1 : X -> Y -> Z1) (k2 : X -> Y -> Z2) n (p : tens X n) (q : tens Y n) :
  tzip_with g n (tzip_with k1 n p q) (tzip_with k2 n p q)
  = tzip_with (fun x y => g (k1 x y) (k2 x y)) n p q.
Proof.
  revert p q. induction n as [|n IH]; cbn; intros p q; [reflexivity|].
  revert q. induction p as [|x p IHp]; intros [|y q]; cbn; try reflexivity.
  rewrite IH, IHp. reflexivity.
Qed.

Lemma tzip_with_flip {Z : Type} (g : X -> Y -> Z) n
    (p : tens X n) (q : tens Y n) :
  tzip_with (fun y x => g x y) n q p = tzip_with g n p q.
Proof.
  revert p q. induction n as [|n IH]; cbn; intros p q; [reflexivity|].
  revert q. induction p as [|x p IHp]; intros [|y q]; cbn; try reflexivity.
  rewrite IH, IHp. reflexivity.
Qed.

Lemma tForall2_flip (S : X -> Y -> Prop) n (p : tens X n) (q : tens Y n) :
  tForall2 S n p q -> tForall2 (fun y x => S x y) n q p.
Proof.
  revert p q. induction n as [|n IH]; cbn; intros p q H; [assumption|].
  induction H; constructor; auto.
Qed.

Lemma tForall2_tzip_l {Z : Type} (S : X -> Y -> Prop) (T : X -> Z -> Prop)
    (k : X -> Y -> Z) n (p : tens X n) (q : tens Y n) :
  (forall x y, S x y -> T x (k x y)) ->
  tForall2 S n p q -> tForall2 T n p (tzip_with k n p q).
Proof.
  intros HST. revert p q. induction n as [|n IH]; cbn; intros p q H; [auto|].
  induction H; cbn; constructor; auto.
Qed.

Lemma tForall2_tzip_r {Z : Type} (S : X -> Y -> Prop) (T : Y -> Z -> Prop)
    (k : X -> Y -> Z) n (p : tens X n) (q : tens Y n) :
  (forall x y, S x y -> T y (k x y)) ->
  tForall2 S n p q -> tForall2 T n q (tzip_with k n p q).
Proof.
  intros HST. revert p q. induction n as [|n IH]; cbn; intros p q H; [auto|].
  induction H; cbn; constructor; auto.
Qed.

Lemma tForall2_tzip_both {Z1 Z2 : Type} (S : X -> Y -> Prop)
    (T : Z1 -> Z2 -> Prop) (k1 : X -> Y -> Z1) (k2 : X -> Y -> Z2) n
    (p : tens X n) (q : tens Y n) :
  (forall x y, S x y -> T (k1 x y) (k2 x y)) ->
  tForall2 S n p q ->
  tForall2 T n (tzip_with k1 n p q) (tzip_with k2 n p q).
Proof.
  intros HST. revert p q. induction n as [|n IH]; cbn; intros p q H; [auto|].
  induction H; cbn; constructor; auto.
Qed.

Lemma tForall_tzip {Z : Type} (S : X -> Y -> Prop) (T : Z -> Prop)
    (k : X -> Y -> Z) n (p : tens X n) (q : tens Y n) :
  (forall x y, S x y -> T (k x y)) ->
  tForall2 S n p q -> tForall T n (tzip_with k n p q).
Proof.
  intros HST. revert p q. induction n as [|n IH]; cbn; intros p q H; [auto|].
  induction H; cbn; constructor; auto.
Qed.
End fusion.

(** [log z <= z - 1], the inequality behind Gibbs' inequality. *)
Lemma ln_le_minus_1 z : 0 < z -> ln z <= z - 1.
Proof.
  intros Hz. pose proof (exp_ineq1_le (ln z)) as H.
  rewrite exp_ln in H by assumption. lra.
Qed.

Lemma kl_summand_lower x m : 0 <= x -> 0 <= m -> (0 < x -> 0 < m) ->
  x - m <= kl_summand x m.
Proof.
  intros Hx Hm Hpos. unfold kl_summand.
  destruct (Req_dec_T x 0) as [-> | Hx0]; [lra|].
  assert (Hx' : 0 < x) by lra. specialize (Hpos Hx').
  assert (Hq : 0 < m / x) by (apply Rdiv_lt_0_compat; assumption).
  replace (x / m) with (/ (m / x)) by (field; lra).
  rewrite ln_Rinv by assumption.
  pose proof (ln_le_minus_1 _ Hq) as Hln.
  assert (x * ln (m / x) <= x * (m / x - 1))
    by (apply Rmult_le_compat_l; lra).
  replace (x * (m / x - 1)) with (m - x) in * by (field; lra). lra.
Qed.

Lemma jsd_row_nonneg p q :
  Forall (fun x => 0 <= x) p -> Forall (fun x => 0 <= x) q ->
  0 <= jsd_row p q.
Proof.
  intros Hp Hq. unfold jsd_row, kl_sum, mean_row.
  enough (0 <= rsum (zip_with kl_summand p
                       (map (Rmult 0.5) (zip_with Rplus p q)))
               + rsum (zip_with kl_summand q
                         (map (Rmult 0.5) (zip_with Rplus p q)))) by lra.
  revert q Hq. induction Hp as [|x p Hx _ IH]; intros q Hq.
  { cbn. rewrite zip_with_nil_r. cbn. lra. }
  destruct Hq as [|y q Hy Hq]; [cbn; lra|]. cbn.
  specialize (IH q Hq).
  pose proof (kl_summand_lower x (0.5 * (x + y))) as H1.
  pose proof (kl_summand_lower y (0.5 * (x + y))) as H2.
  assert (x - 0.5 * (x + y) <= kl_summand x (0.5 * (x + y)))
    by (apply H1; lra).
  assert (y - 0.5 * (x + y) <= kl_summand y (0.5 * (x + y)))
    by (apply H2; lra).
  unfold rsum in *. lra.
Qed.

Lemma mean_row_defined_l p q :
  length p = length q ->
  Forall (fun x => 0 <= x) p -> Forall (fun x => 0 <= x) q ->
  Forall2 term_defined p (mean_row p q).
Proof.
  unfold mean_row. intros Hlen Hp. revert q Hlen.
  induction Hp as [|x p Hx _ IH]; intros [|y q] Hlen Hq; try discriminate;
    cbn; constructor.
  - inversion Hq; subst. apply term_defined_nonneg; lra.
  - inversion Hq; subst. apply IH; [cbn in Hlen; lia | assumption].
Qed.

Lemma mean_row_defined_r p q :
  length p = length q ->
  Forall (fun x => 0 <= x) p -> Forall (fun x => 0 <= x) q ->
  Forall2 term_defined q (mean_row p q).
Proof.
  unfold mean_row. intros Hlen Hp. revert q Hlen.
  induction Hp as [|x p Hx _ IH]; intros [|y q] Hlen Hq; try discriminate;
    cbn; constructor.
  - inversion Hq; subst. apply term_defined_nonneg; lra.
  - inversion Hq; subst. apply IH; [cbn in Hlen; lia | assumption].
Qed.

Lemma jsd_row_sym p q : jsd_row q p = jsd_row p q.
Proof.
  unfold jsd_row, mean_row.
  replace (zip_with Rplus q p) with (zip_with Rplus p q); [lra|].
  revert q. induction p as [|x p IH]; intros [|y q]; cbn; try reflexivity.
  rewrite IH. f_equal. lra.
Qed.

(** On arrays of identical shape without negative entries no finiteness
    test fails and the expression is [jsd_row] at every outer index. *)
Lemma jsd_same_shape n p q :
  same_shape n p q -> nonneg n p -> nonneg n q ->
  jsd n p q = Ok (tzip_with jsd_row n p q).
Proof.
  intros Hs Hp Hq. pose proof (tForall2_sides _ _ _ _ _ _ Hs Hp Hq) as H.
  unfold jsd.
  rewrite (bcastN_total _ (zip_with Rplus)).
  2:{ revert Hs. apply tForall2_impl. intros x y Hlen.
      apply bcast_total. apply Forall2_true; auto. }
  cbn. rewrite tmap_tzip_with. fold mean_row.
  change (fun x y => mean_row x y) with mean_row.
  rewrite (kl_div_all_defined n p).
  2:{ revert H. apply tForall2_tzip_l. intros x y (Hlen & Hx & Hy).
      apply mean_row_defined_l; assumption. }
  cbn. rewrite (kl_div_all_defined n q).
  2:{ revert H. apply tForall2_tzip_r. intros x y (Hlen & Hx & Hy).
      apply mean_row_defined_r; assumption. }
  cbn. rewrite tzip_with_fuse_l, tzip_with_fuse_r, !tmap_tzip_with.
  rewrite (bcastN_total _ Rplus).
  2:{ revert Hs. apply tForall2_tzip_both. reflexivity. }
  rewrite tzip_with_fuse_both. reflexivity.
Qed.

(** C9.  The Jensen-Shannon measure of two arrays of distributions of
    identical shape is symmetric and, at every outer index, not negative.
    Only the absence of negative entries is used. *)
Theorem jsd_symmetric_nonneg (n : nat) (p q : tens (list R) n) :
  same_shape n p q -> nonneg n p -> nonneg n q ->
  jsd n p q = jsd n q p /\
  exists r, jsd n p q = Ok r /\ tForall (fun x => 0 <= x) n r.
Proof.
  intros Hs Hp Hq. split.
  - rewrite (jsd_same_shape n p q) by assumption.
    rewrite (jsd_same_shape n q p); try assumption.
    + f_equal. rewrite <- (tzip_with_flip jsd_row n q p).
      apply tzip_with_ext. revert Hs. apply tForall2_impl.
      intros x y _. apply jsd_row_sym.
    + apply tForall2_flip in Hs. revert Hs. apply tForall2_impl.
      intros x y Hlen. symmetry. exact Hlen.
  - exists (tzip_with jsd_row n p q). split; [apply jsd_same_shape; assumption|].
    pose proof (tForall2_sides _ _ _ _ _ _ Hs Hp Hq) as H.
    revert H. apply tForall_tzip. intros x y (_ & Hx & Hy).
    apply jsd_row_nonneg; assumption.
Qed.

Lemma jsd_symmetric_nonneg_witness :
  jsd 1 [[1; 0]; [0.5; 0.5]] [[0; 1]; [0.25; 0.75]]
  = jsd 1 [[0; 1]; [0.25; 0.75]] [[1; 0]; [0.5; 0.5]] /\
  exists r, jsd 1 [[1; 0]; [0.5; 0.5]] [[0; 1]; [0.25; 0.75]] = Ok r
            /\ tForall (fun x => 0 <= x) 1 r.
Proof.
  apply (jsd_symmetric_nonneg 1 [[1; 0]; [0.5; 0.5]] [[0; 1]; [0.25; 0.75]]).
  - repeat constructor.
  - repeat constructor; lra.
  - repeat constructor; lra.
Defined.

(** ** The curriculum schedule *)

Ltac schedule_cases :=
  unfold weight_after, current_influence_curriculum_weight; cbn;
  repeat match goal with
         | |- context [Rlt_dec ?a ?b] => destruct (Rlt_dec a b); try lra
         | |- context [Rgt_dec ?a ?b] => destruct (Rgt_dec a b); try lra
         | |- context [Req_dec_T ?a ?b] => destruct (Req_dec_T a b); try lra
         end; cbn.

Lemma schedule_example_ramp_up :
  weight_after (schedule_example 50) = Ok 0.5 /\
  weight_after (schedule_example 0) = Ok 0.
Proof. split; schedule_cases; f_equal; lra. Qed.

Lemma schedule_example_ramp_down :
  weight_after (schedule_example 200) = Ok 0.75 /\
  weight_after (schedule_example 300) = Ok 0.5 /\
  weight_after (schedule_example 400) = Ok 0.5.
Proof.
  repeat split; schedule_cases; f_equal; unfold Rmax;
    destruct (Rle_dec _ _); lra.
Qed.

(** The method changes [curr_influence_weight] and nothing else. *)
Lemma current_influence_curriculum_weight_frame self self' :
  current_influence_curriculum_weight self = Ok self' ->
  self' = set_curr_influence_weight (curr_influence_weight self') self.
Proof.
  unfold current_influence_curriculum_weight. intros H.
  repeat match type of H with
         | context [Rlt_dec ?a ?b] => destruct (Rlt_dec a b)
         | context [Rgt_dec ?a ?b] => destruct (Rgt_dec a b)
         | context [Req_dec_T ?a ?b] => destruct (Req_dec_T a b)
         end; try discriminate; injection H as <-; reflexivity.
Qed.

(** When the scale-down has no length, the decay case divides by zero
    and the method raises instead of storing a weight. *)
Lemma current_influence_curriculum_weight_zero_division self :
  ~ IZR (steps_processed self) < influence_curriculum_steps self ->
  IZR (steps_processed self) > inf_scale_start self ->
  inf_scale_end self = inf_scale_start self ->
  current_influence_curriculum_weight self = Err ZeroDivisionError.
Proof.
  intros Hramp Hdecay Heq. unfold current_influence_curriculum_weight.
  destruct (Rlt_dec _ _); [contradiction|].
  destruct (Rgt_dec _ _); [|contradiction].
  destruct (Req_dec_T _ _); [reflexivity | lra].
Qed.

(** C8.  [current_influence_curriculum_weight] computes the piecewise
    schedule, the three cases being tried in this order: below
    [influence_curriculum_steps] the weight is
    [influence_reward_weight * (steps_processed / influence_curriculum_steps)];
    else, above [inf_scale_start], it is the linear decay clamped from
    below at [inf_scale_final_val]; else it is [influence_reward_weight].
    The step counter is never negative, and the decay needs
    [inf_scale_end] different from [inf_scale_start].  With weight 1.0 and
    100 curriculum steps the weight is 0.5 at step 50 and 0 at step 0; with
    the scale-down running from 100 to 300 down to 0.5 it is 0.75 at step
    200 and 0.5 at steps 300 and 400. *)
Theorem current_influence_curriculum_weight_schedule (self : Policy) :
  let steps := IZR (steps_processed self) in
  let w := influence_reward_weight self in
  (0 <= steps_processed self)%Z ->
  (steps < influence_curriculum_steps self ->
     weight_after self
     = Ok (w * (steps / influence_curriculum_steps self))) /\
  (~ steps < influence_curriculum_steps self ->
   steps > inf_scale_start self ->
   inf_scale_end self <> inf_scale_start self ->
     weight_after self
     = Ok (Rmax (inf_scale_final_val self)
             (w - (w - inf_scale_final_val self)
                  * ((steps - inf_scale_start self)
                     / (inf_scale_end self - inf_scale_start self))))) /\
  (~ steps < influence_curriculum_steps self ->
   ~ steps > inf_scale_start self ->
     weight_after self = Ok w) /\
  weight_after (schedule_example 50) = Ok 0.5 /\
  weight_after (schedule_example 0) = Ok 0 /\
  weight_after (schedule_example 200) = Ok 0.75 /\
  weight_after (schedule_example 300) = Ok 0.5 /\
  weight_after (schedule_example 400) = Ok 0.5.
Proof.
  intros steps w Hpos. apply IZR_le in Hpos. fold steps in Hpos.
  split; [|split; [|split]].
  - intros. subst steps w. schedule_cases. f_equal. lra.
  - intros. subst steps w. schedule_cases. reflexivity.
  - intros. subst steps w. schedule_cases. reflexivity.
  - pose proof schedule_example_ramp_up. pose proof schedule_example_ramp_down.
    tauto.
Qed.

Lemma current_influence_curriculum_weight_schedule_witness :
  weight_after (set_steps_processed 5000000 (setup_mixins CONFIG))
  = Ok (1 * (5000000 / 10000000)) /\
  weight_after (set_steps_processed 200000000 (setup_mixins CONFIG))
  = Ok (Rmax 0.5
          (1 - (1 - 0.5) * ((200000000 - 100000000)
                            / (300000000 - 100000000)))) /\
  weight_after (set_steps_processed 50000000 (setup_mixins CONFIG)) = Ok 1.
Proof.
  split; [|split].
  - apply (current_influence_curriculum_weight_schedule
             (set_steps_processed 5000000 (setup_mixins CONFIG)));
      cbn; [lia | lra].
  - apply (current_influence_curriculum_weight_schedule
             (set_steps_processed 200000000 (setup_mixins CONFIG)));
      cbn; [lia | lra | lra | lra].
  - apply (current_influence_curriculum_weight_schedule
             (set_steps_processed 50000000 (setup_mixins CONFIG)));
      cbn; [lia | lra | lra].
Defined.

(** ** [compute_influence_reward]: shape of a successful call *)

Lemma bind_Ok {A B : Type} (m : result A) (f : A -> result B) (b : B) :
  m ≫= f = Ok b -> exists a, m = Ok a /\ f a = Ok b.
Proof. destruct m as [a|e]; cbn; [eauto | discriminate]. Qed.

Lemma getitem_Ok trajectory key v :
  getitem trajectory key = Ok v <-> trajectory !! key = Some v.
Proof.
  unfold getitem. destruct (trajectory !! key); split; intros H;
    try discriminate; congruence.
Qed.

Lemma compute_influence_reward_inv policy trajectory policy' trajectory' :
  compute_influence_reward policy trajectory = Ok (policy', trajectory') ->
  exists per_agent_step obs rewards new_rewards,
    influence_per_agent_step policy trajectory = Ok per_agent_step /\
    trajectory !! "obs" = Some obs /\
    trajectory !! "rewards" = Some (VFloat1 rewards) /\
    bcast (fun x y => Ok (x + y)) rewards
      (map (fun x => x * curr_influence_weight policy)
           (summarize_and_clip policy per_agent_step)) = Ok new_rewards /\
    policy' = set_steps_processed
                (steps_processed policy + Z.of_nat (len obs)) policy /\
    trajectory' =
      <["rewards" := VFloat1 new_rewards]>
        (<["reward_without_influence" := VFloat1 rewards]>
           (<["total_influence" :=
                VFloat1 (summarize_and_clip policy per_agent_step)]>
              trajectory)).
Proof.
  unfold compute_influence_reward. intros H.
  apply bind_Ok in H as (per_agent_step & Hstep & H).
  apply bind_Ok in H as (obs & Hobs & H).
  apply bind_Ok in H as (rewards & Hr1 & H).
  apply bind_Ok in H as (rewards' & Hr2 & H).
  apply bind_Ok in H as (new_rewards & Hnew & H).
  apply getitem_Ok in Hobs, Hr1, Hr2.
  rewrite lookup_insert_ne in Hr1 by discriminate.
  rewrite !lookup_insert_ne in Hr2 by discriminate.
  assert (rewards' = rewards) as -> by congruence.
  destruct rewards as [r| | | | | |]; try discriminate.
  injection H as <- <-.
  exists per_agent_step, obs, r, new_rewards. cbn in Hnew. auto 10.
Qed.

(** C10.  A call that returns has assigned the fields [total_influence],
    [reward_without_influence] and [rewards] of the trajectory and no other
    one, and has added the batch length [len(trajectory['obs'])] to the
    counter [steps_processed] of the policy and changed no other
    attribute. *)
Theorem compute_influence_reward_frame policy trajectory policy' trajectory' :
  compute_influence_reward policy trajectory = Ok (policy', trajectory') ->
  (forall key, key ∉ written_fields ->
     trajectory' !! key = trajectory !! key) /\
  (exists obs,
     trajectory !! "obs" = Some obs /\
     steps_processed policy'
     = (steps_processed policy + Z.of_nat (len obs))%Z /\
     policy' = set_steps_processed (steps_processed policy') policy).
Proof.
  intros H.
  apply compute_influence_reward_inv in H
    as (step & obs & rewards & new_rewards & _ & Hobs & _ & _ & -> & ->).
  split.
  - intros key Hkey. unfold written_fields in Hkey.
    rewrite !lookup_insert_ne; [reflexivity | | |];
      intros <-; apply Hkey; set_solver.
  - exists obs. repeat split; assumption.
Qed.

(** The counter starts at 0 in [setup_mixins] and never goes below. *)
Lemma compute_influence_reward_steps_nonneg policy trajectory policy'
    trajectory' :
  (0 <= steps_processed policy)%Z ->
  compute_influence_reward policy trajectory = Ok (policy', trajectory') ->
  (0 <= steps_processed policy')%Z.
Proof.
  intros Hpos H.
  apply compute_influence_reward_inv in H
    as (step & obs & rewards & new_rewards & _ & _ & _ & _ & -> & _).
  cbn. lia.
Qed.

(** ** Lengths along the batch axis *)

Lemma bind_Ok_l {A B : Type} (a : A) (f : A -> result B) : Ok a ≫= f = f a.
Proof. reflexivity. Qed.

Lemma mapM_Ok_length {A B : Type} (f : A -> result B) l k :
  mapM f l = Ok k -> length k = length l.
Proof.
  revert k. induction l as [|a l IH]; intros k H.
  - injection H as <-. reflexivity.
  - rewrite mapM_Ok_cons in H.
    apply bind_Ok in H as (y & _ & H). apply bind_Ok in H as (k' & Hk & H).
    injection H as <-. cbn. rewrite (IH _ Hk). reflexivity.
Qed.

Lemma mapM_Ok_lookup {A B : Type} (f : A -> result B) l k i z :
  mapM f l = Ok k -> k !! i = Some z ->
  exists x, l !! i = Some x /\ f x = Ok z.
Proof.
  revert k i. induction l as [|a l IH]; intros k i H Hz.
  - injection H as <-. discriminate.
  - rewrite mapM_Ok_cons in H.
    apply bind_Ok in H as (y & Hy & H). apply bind_Ok in H as (k' & Hk & H).
    injection H as <-. destruct i as [|i]; cbn in *.
    + injection Hz as <-. eauto.
    + eauto.
Qed.

Lemma zip_with_r_Ok_length {X Y Z : Type} (f : X -> Y -> result Z) xs ys zs :
  zip_with_r f xs ys = Ok zs ->
  length zs = length xs /\ length ys = length xs.
Proof.
  revert ys zs. induction xs as [|x xs IH]; intros [|y ys] zs H;
    try discriminate.
  - injection H as <-. split; reflexivity.
  - cbn in H. apply bind_Ok in H as (z & _ & H).
    apply bind_Ok in H as (zs' & Hzs & H). injection H as <-.
    destruct (IH _ _ Hzs). cbn. split; congruence.
Qed.

Lemma zip_with_r_Ok_lookup {X Y Z : Type} (f : X -> Y -> result Z)
    xs ys zs i z :
  zip_with_r f xs ys = Ok zs -> zs !! i = Some z ->
  exists x y, xs !! i = Some x /\ ys !! i = Some y /\ f x y = Ok z.
Proof.
  revert ys zs i. induction xs as [|x xs IH]; intros [|y ys] zs i H Hz;
    try discriminate.
  - injection H as <-. discriminate.
  - cbn in H. apply bind_Ok in H as (z' & Hz' & H).
    apply bind_Ok in H as (zs' & Hzs & H). injection H as <-.
    destruct i as [|i]; cbn in *.
    + injection Hz as <-. eauto.
    + eauto.
Qed.

Lemma bcast_Ok_length {X Y Z : Type} (f : X -> Y -> result Z) xs ys zs :
  bcast f xs ys = Ok zs -> length xs = length ys -> length zs = length xs.
Proof.
  intros H Hlen. rewrite bcast_same_length in H by assumption.
  apply zip_with_r_Ok_length in H. tauto.
Qed.

Lemma bcast_singleton_Ok_length {X Y Z : Type} (f : X -> Y -> result Z)
    xs y zs :
  bcast f xs [y] = Ok zs -> length zs = length xs.
Proof.
  destruct xs as [|x [|x' xs]]; cbn; intros H.
  - injection H as <-. reflexivity.
  - apply bind_Ok in H as (z & _ & H). injection H as <-. reflexivity.
  - apply (mapM_Ok_length (fun x => f x y) (x :: x' :: xs)). exact H.
Qed.

Lemma bcast_into_Ok_length {X Y : Type} (f : X -> Y -> result X) xs ys zs :
  bcast_into f xs ys = Ok zs -> length zs = length xs.
Proof.
  unfold bcast_into. destruct ys as [|y [|y' ys]]; intros H.
  - apply zip_with_r_Ok_length in H. tauto.
  - eapply mapM_Ok_length; eassumption.
  - apply zip_with_r_Ok_length in H. tauto.
Qed.

Lemma bcast_into_Ok_lookup {X Y : Type} (f : X -> Y -> result X)
    xs ys zs i z :
  bcast_into f xs ys = Ok zs -> zs !! i = Some z ->
  exists x y, xs !! i = Some x /\ stretched ys i = Some y /\ f x y = Ok z.
Proof.
  unfold bcast_into. destruct ys as [|y [|y' ys]]; intros H Hz.
  - destruct (zip_with_r_Ok_lookup _ _ _ _ _ _ H Hz) as (x & y & ? & ? & ?).
    eauto.
  - destruct (mapM_Ok_lookup _ _ _ _ _ H Hz) as (x & ? & ?).
    exists x, y. auto.
  - destruct (zip_with_r_Ok_lookup _ _ _ _ _ _ H Hz) as (x & y0 & ? & ? & ?).
    exists x, y0. auto.
Qed.

Lemma tmap_length {X Y : Type} (f : X -> Y) n (l : tens X (S n)) :
  length (tmap f (S n) l) = length l.
Proof. apply length_map. Qed.

Lemma kl_div_Ok_length n (p q : tens (list R) (S n)) r :
  kl_div (S n) p q = Ok r -> length p = length q -> length r = length p.
Proof.
  unfold kl_div, kl_raw. intros H Hlen.
  apply bind_Ok in H as (kl & Hkl & H). cbn in Hkl.
  apply bcast_Ok_length in Hkl; [|assumption].
  injection H as <-.
  destruct (forallb (tall isfinite n) kl); rewrite length_map; assumption.
Qed.

Lemma jsd_Ok_length n (p q : tens (list R) (S n)) r :
  jsd (S n) p q = Ok r -> length p = length q -> length r = length p.
Proof.
  unfold jsd. intros H Hlen.
  apply bind_Ok in H as (s & Hs & H). cbn in Hs.
  apply bcast_Ok_length in Hs; [|assumption].
  apply bind_Ok in H as (a & Ha & H).
  apply kl_div_Ok_length in Ha;
    [|rewrite tmap_length; symmetry; exact Hs].
  apply bind_Ok in H as (b & Hb & H).
  apply kl_div_Ok_length in Hb;
    [|rewrite tmap_length; transitivity (length p);
      [symmetry; exact Hlen | symmetry; exact Hs]].
  apply (bcast_Ok_length _ (tmap _ (S n) a) (tmap _ (S n) b)) in H.
  - rewrite tmap_length in H. transitivity (length a); assumption.
  - rewrite !tmap_length. transitivity (length p); [exact Ha|].
    transitivity (length q); [exact Hlen | symmetry; exact Hb].
Qed.

Lemma index_pairs_Ok_length bs acts ps :
  index_pairs bs acts = Ok ps -> length acts = length bs ->
  length ps = length bs.
Proof.
  unfold index_pairs. intros H Hlen.
  destruct bs as [|b [|b' bs]].
  - destruct acts; [|discriminate]. injection H as <-. reflexivity.
  - injection H as <-. rewrite length_map. assumption.
  - destruct acts as [|a [|a' acts]]; try discriminate.
    destruct (decide _) as [Heq|]; [|discriminate].
    injection H as <-. cbn. rewrite length_zip_with. cbn in Hlen. lia.
Qed.

Lemma true_probs_of_Ok_length policy trajectory B true_probs :
  first_axis trajectory B ->
  true_probs_of policy trajectory = Ok true_probs ->
  length true_probs = B.
Proof.
  unfold true_probs_of. intros Haxis H.
  apply bind_Ok in H as (cf & Hcf & H).
  apply bind_Ok in H as (obs & Hobs & H).
  apply bind_Ok in H as (actions & Hact & H).
  apply bind_Ok in H as (t0 & Ht0 & H).
  apply bind_Ok in H as (t1 & Ht1 & H).
  injection H as <-.
  apply getitem_Ok in Hcf, Hobs, Hact.
  pose proof (Haxis _ _ Hobs) as HB. pose proof (Haxis _ _ Hact) as HA.
  rewrite !length_map.
  assert (length t1 = length t0) as ->.
  { destruct t0; [discriminate|]. eapply mapM_Ok_length; eassumption. }
  destruct cf as [| | |a| | |]; try discriminate;
    destruct actions as [| | | |acts| |]; try discriminate.
  unfold take_own_action in Ht0.
  apply bind_Ok in Ht0 as (ps & Hps & Ht0).
  rewrite (mapM_Ok_length _ _ _ Ht0).
  apply index_pairs_Ok_length in Hps; rewrite length_seq in *;
    cbn in HA; congruence.
Qed.

Lemma flat_rows_Ok_length v rows :
  flat_rows v = Ok rows -> length rows = len v.
Proof.
  destruct v; cbn; intros H; try discriminate; injection H as <-;
    rewrite ?length_map; reflexivity.
Qed.

Lemma marginalize_Ok_length policy trajectory B marginal_probs :
  first_axis trajectory B ->
  marginalize_predictions_over_own_actions policy trajectory
  = Ok marginal_probs ->
  length marginal_probs = B.
Proof.
  unfold marginalize_predictions_over_own_actions. intros Haxis H.
  apply bind_Ok in H as (lv & Hlv & H).
  apply bind_Ok in H as (logits & Hlogits & H).
  apply bind_Ok in H as (cf & Hcf & H).
  apply bind_Ok in H as (rows & Hrows & H).
  apply bind_Ok in H as (cp & Hcp & H).
  apply bind_Ok in H as (m & Hm & H).
  injection H as <-.
  apply getitem_Ok in Hcf. pose proof (Haxis _ _ Hcf) as HB.
  apply flat_rows_Ok_length in Hrows.
  assert (length cp = length rows) as Hlen.
  { destruct rows; [discriminate|]. eapply mapM_Ok_length; eassumption. }
  unfold tile_1_n_1 in Hm. cbn [bcastN] in Hm.
  apply bcast_singleton_Ok_length in Hm.
  rewrite !length_map in *. congruence.
Qed.

Lemma divergence_Ok_length policy true_probs marginal_probs d :
  divergence policy true_probs marginal_probs = Ok d ->
  length true_probs = length marginal_probs ->
  length d = length true_probs.
Proof.
  unfold divergence. intros H Hlen.
  destruct (decide _); [eapply (kl_div_Ok_length 1); eassumption|].
  destruct (decide _); [eapply (jsd_Ok_length 1); eassumption|].
  discriminate.
Qed.

Lemma mask_invisible_Ok_length policy trajectory d step :
  mask_invisible policy trajectory d = Ok step -> length step = length d.
Proof.
  unfold mask_invisible. intros H.
  destruct (influence_only_when_visible policy); [|congruence].
  apply bind_Ok in H as (v & _ & H).
  destruct v; try discriminate.
  eapply bcast_into_Ok_length; eassumption.
Qed.

Lemma influence_per_agent_step_Ok_length policy trajectory B step :
  first_axis trajectory B ->
  influence_per_agent_step policy trajectory = Ok step ->
  length step = B.
Proof.
  unfold influence_per_agent_step, divergence_per_agent_step.
  intros Haxis H.
  apply bind_Ok in H as (d & Hd & H).
  apply bind_Ok in Hd as (tp & Htp & Hd).
  apply bind_Ok in Hd as (mp & Hmp & Hd).
  apply (true_probs_of_Ok_length _ _ _ _ Haxis) in Htp.
  apply (marginalize_Ok_length _ _ _ _ Haxis) in Hmp.
  apply divergence_Ok_length in Hd; [|congruence].
  apply mask_invisible_Ok_length in H. congruence.
Qed.

Lemma summarize_and_clip_length policy step :
  length (summarize_and_clip policy step) = length step.
Proof. unfold summarize_and_clip. rewrite !length_map. reflexivity. Qed.

Lemma summarize_and_clip_lookup policy step b :
  summarize_and_clip policy step !! b
  = (fun row => clip (- influence_reward_clip policy)
                  (influence_reward_clip policy) (rsum row)) <$> step !! b.
Proof.
  unfold summarize_and_clip. rewrite !list_lookup_fmap.
  destruct (step !! b); reflexivity.
Qed.

Lemma clip_bound c x : 0 <= c -> Rabs (clip (- c) c x) <= c.
Proof.
  intros Hc. unfold clip, Rmin, Rmax.
  destruct (Rle_dec x (- c)); destruct (Rle_dec _ _);
    apply Rabs_le; lra.
Qed.

Lemma clip_zero c : 0 <= c -> clip (- c) c 0 = 0.
Proof.
  intros Hc. unfold clip, Rmin, Rmax.
  destruct (Rle_dec 0 (- c)); destruct (Rle_dec _ _); lra.
Qed.

Lemma zip_with_r_total_eq {X Y Z : Type} (g : X -> Y -> Z) xs ys zs :
  zip_with_r (fun x y => Ok (g x y)) xs ys = Ok zs -> zs = zip_with g xs ys.
Proof.
  revert ys zs. induction xs as [|x xs IH]; intros [|y ys] zs H;
    try discriminate.
  - injection H as <-. reflexivity.
  - cbn in H. apply bind_Ok in H as (zs' & Hzs & H). injection H as <-.
    cbn. rewrite (IH _ _ Hzs). reflexivity.
Qed.

(** ** [compute_influence_reward]: the reward that is written *)

Lemma compute_influence_reward_fields (policy : Policy)
    (trajectory trajectory' : gmap string value) step rewards new_rewards :
  trajectory' =
    <["rewards" := VFloat1 new_rewards]>
      (<["reward_without_influence" := VFloat1 rewards]>
         (<["total_influence" := VFloat1 (summarize_and_clip policy step)]>
            trajectory)) ->
  trajectory' !! "total_influence"
  = Some (VFloat1 (summarize_and_clip policy step)) /\
  trajectory' !! "reward_without_influence" = Some (VFloat1 rewards) /\
  trajectory' !! "rewards" = Some (VFloat1 new_rewards).
Proof.
  intros ->. repeat split.
  - rewrite !lookup_insert_ne by discriminate. apply lookup_insert_eq.
  - rewrite lookup_insert_ne by discriminate. apply lookup_insert_eq.
  - apply lookup_insert_eq.
Qed.

(** X25.  In the trajectory that [compute_influence_reward] returns,
    [total_influence[b]] is the sum of row [b] of the array
    [influence_per_agent_step] of line 226, however long that row is,
    clipped to [[-influence_reward_clip, influence_reward_clip]];
    [reward_without_influence] is the reward array that came in, and at
    every step [b] the new reward is the old one plus
    [curr_influence_weight] times [total_influence[b]], whose absolute
    value is at most the clip.  The trajectory has one batch length [B] on
    the first axis of all its fields, and the clip is not negative. *)
Theorem compute_influence_reward_rewards policy trajectory policy' trajectory'
    (B : nat) :
  first_axis trajectory B ->
  0 <= influence_reward_clip policy ->
  compute_influence_reward policy trajectory = Ok (policy', trajectory') ->
  exists step rewards total new_rewards,
    influence_per_agent_step policy trajectory = Ok step /\
    trajectory !! "rewards" = Some (VFloat1 rewards) /\
    total = map (clip (- influence_reward_clip policy)
                   (influence_reward_clip policy)) (map rsum step) /\
    trajectory' !! "total_influence" = Some (VFloat1 total) /\
    trajectory' !! "reward_without_influence" = Some (VFloat1 rewards) /\
    trajectory' !! "rewards" = Some (VFloat1 new_rewards) /\
    forall b, (b < B)%nat ->
      exists r t,
        rewards !! b = Some r /\ total !! b = Some t /\
        Rabs t <= influence_reward_clip policy /\
        new_rewards !! b = Some (r + curr_influence_weight policy * t).
Proof.
  intros Haxis Hclip H.
  apply compute_influence_reward_inv in H
    as (step & obs & rewards & new_rewards
        & Hstep & Hobs & Hrew & Hnew & Hpol & Htraj).
  destruct (compute_influence_reward_fields _ _ _ _ _ _ Htraj)
    as (Ht & Hr & Hn).
  exists step, rewards, (summarize_and_clip policy step), new_rewards.
  repeat (split; [first [assumption | reflexivity]|]).
  pose proof (influence_per_agent_step_Ok_length _ _ _ _ Haxis Hstep) as Hlen.
  pose proof (Haxis _ _ Hrew) as HlenR. cbn in HlenR.
  rewrite bcast_same_length in Hnew
    by (rewrite length_map, summarize_and_clip_length; congruence).
  apply zip_with_r_total_eq in Hnew. subst new_rewards.
  intros b Hb.
  destruct (lookup_lt_is_Some_2 rewards b) as [r Hr']; [lia|].
  destruct (lookup_lt_is_Some_2 step b) as [row Hrow]; [lia|].
  exists r, (clip (- influence_reward_clip policy)
               (influence_reward_clip policy) (rsum row)).
  assert (Ht' : summarize_and_clip policy step !! b
                = Some (clip (- influence_reward_clip policy)
                          (influence_reward_clip policy) (rsum row)))
    by (rewrite summarize_and_clip_lookup, Hrow; reflexivity).
  repeat split; [assumption | assumption | apply clip_bound; assumption |].
  rewrite lookup_zip_with, Hr'. cbn.
  rewrite list_lookup_fmap, Ht'. cbn. f_equal. lra.
Qed.

(** ** [compute_influence_reward]: invisible agents *)

Lemma rsum_zero row :
  (forall n x, row !! n = Some x -> x = 0) -> rsum row = 0.
Proof.
  induction row as [|x row IH]; intros H; [reflexivity|].
  cbn. rewrite (H 0%nat x eq_refl).
  unfold rsum in IH. rewrite IH; [lra|].
  intros n y Hy. apply (H (S n) y). exact Hy.
Qed.

Lemma mask_invisible_entry policy trajectory vis d step b row n x :
  influence_only_when_visible policy = true ->
  trajectory !! VISIBILITY = Some (VFloat2 vis) ->
  mask_invisible policy trajectory d = Ok step ->
  step !! b = Some row -> row !! n = Some x ->
  exists drow dv v,
    d !! b = Some drow /\ drow !! n = Some dv /\
    visibility_entry vis b n = Some v /\ x = dv * v.
Proof.
  unfold mask_invisible. intros -> Hvis H Hrow Hx.
  rewrite (proj2 (getitem_Ok _ _ _) Hvis), bind_Ok_l in H.
  destruct (bcast_into_Ok_lookup _ _ _ _ _ _ H Hrow)
    as (drow & vrow & Hd & Hv & Hr).
  destruct (bcast_into_Ok_lookup _ _ _ _ _ _ Hr Hx)
    as (dv & v & Hdv & Hvv & Hxv).
  injection Hxv as <-.
  exists drow, dv, v. unfold visibility_entry. rewrite Hv. cbn. auto.
Qed.

(** C7.  With [influence_only_when_visible], entry [(b, n)] of the
    per-agent influence is the divergence at [(b, n)] times the visibility
    entry that meets it; it is exactly 0 where that visibility is 0,
    whatever the divergence is.  A step all of whose visibility entries
    are 0 has summed influence 0, and its [total_influence] is 0 for a
    clip that is not negative. *)
Theorem compute_influence_reward_invisible policy trajectory policy'
    trajectory' (vis : list (list R)) :
  influence_only_when_visible policy = true ->
  trajectory !! VISIBILITY = Some (VFloat2 vis) ->
  compute_influence_reward policy trajectory = Ok (policy', trajectory') ->
  exists d step total,
    divergence_per_agent_step policy trajectory = Ok d /\
    influence_per_agent_step policy trajectory = Ok step /\
    trajectory' !! "total_influence" = Some (VFloat1 total) /\
    (forall b n row x,
       step !! b = Some row -> row !! n = Some x ->
       exists drow dv v,
         d !! b = Some drow /\ drow !! n = Some dv /\
         visibility_entry vis b n = Some v /\ x = dv * v) /\
    (forall b n row x,
       step !! b = Some row -> row !! n = Some x ->
       visibility_entry vis b n = Some 0 -> x = 0) /\
    (forall b row,
       step !! b = Some row ->
       (forall n, (n < length row)%nat ->
                  visibility_entry vis b n = Some 0) ->
       rsum row = 0 /\
       (0 <= influence_reward_clip policy -> total !! b = Some 0)).
Proof.
  intros Hflag Hvis H.
  apply compute_influence_reward_inv in H
    as (step & obs & rewards & new_rewards
        & Hstep & Hobs & Hrew & Hnew & Hpol & Htraj).
  destruct (compute_influence_reward_fields _ _ _ _ _ _ Htraj)
    as (Ht & _ & _).
  pose proof Hstep as Hstep'. unfold influence_per_agent_step in Hstep'.
  apply bind_Ok in Hstep' as (d & Hd & Hmask).
  exists d, step, (summarize_and_clip policy step).
  assert (Hentry : forall b n row x,
             step !! b = Some row -> row !! n = Some x ->
             exists drow dv v,
               d !! b = Some drow /\ drow !! n = Some dv /\
               visibility_entry vis b n = Some v /\ x = dv * v).
  { intros b n row x. eapply mask_invisible_entry; eassumption. }
  assert (Hzero : forall b n row x,
             step !! b = Some row -> row !! n = Some x ->
             visibility_entry vis b n = Some 0 -> x = 0).
  { intros b n row x Hrow Hx Hv0.
    destruct (Hentry b n row x Hrow Hx) as (drow & dv & v & _ & _ & Hv & ->).
    rewrite Hv in Hv0. injection Hv0 as ->. lra. }
  repeat (split; [assumption|]).
  intros b row Hrow Hall.
  assert (Hsum : rsum row = 0).
  { apply rsum_zero. intros n x Hx. apply (Hzero b n row x Hrow Hx).
    apply Hall. eapply lookup_lt_Some. exact Hx. }
  split; [assumption|]. intros Hclip.
  rewrite summarize_and_clip_lookup, Hrow. cbn.
  rewrite Hsum, clip_zero by assumption. reflexivity.
Qed.

(** ** The example step, evaluated *)

Ltac list_eq :=
  repeat match goal with
         | |- Ok _ = Ok _ => f_equal
         | |- _ :: _ = _ :: _ => apply (f_equal2 cons)
         | |- @eq (list _) [] [] => reflexivity
         | |- @eq R _ _ => first [lra | field]
         end.

Ltac rows :=
  repeat match goal with
         | |- Forall2 _ _ _ => constructor
         | |- Forall _ _ => constructor
         end.

Lemma softmax_pair x y :
  softmax [x; y] = [exp x / (exp x + exp y); exp y / (exp x + exp y)].
Proof. unfold softmax. cbn. rewrite !Rplus_0_r. reflexivity. Qed.

Lemma normalize_pair x y : normalize [x; y] = [x / (x + y); y / (x + y)].
Proof. unfold normalize. cbn. rewrite !Rplus_0_r. reflexivity. Qed.

Lemma softmax_ln3_0 : softmax [ln 3; 0] = [3 / 4; 1 / 4].
Proof.
  rewrite softmax_pair, exp_0, exp_ln by lra. list_eq.
Qed.

Lemma softmax_0_0 : softmax [0; 0] = [1 / 2; 1 / 2].
Proof. rewrite softmax_pair, exp_0. list_eq. Qed.

Lemma softmax_single x : softmax [x] = [1].
Proof.
  unfold softmax. cbn. rewrite Rplus_0_r. f_equal.
  pose proof (exp_pos x). field. lra.
Qed.

Lemma normalize_single x : x <> 0 -> normalize [x] = [1].
Proof.
  intros Hx. unfold normalize. cbn. rewrite Rplus_0_r. f_equal.
  field. assumption.
Qed.

Lemma reshape_blocks_1_2 {X : Type} (a b c d : X) :
  reshape_blocks 1 2 [a; b; c; d] = Ok [[[a; b]; [c; d]]].
Proof. reflexivity. Qed.

Lemma reshape_blocks_1_1 {X : Type} (a : X) :
  reshape_blocks 1 1 [a] = Ok [[[a]]].
Proof. reflexivity. Qed.

Lemma reshape_blocks_2_1 {X : Type} (a b : X) :
  reshape_blocks 2 1 [a; b] = Ok [[[a]]; [[b]]].
Proof. reflexivity. Qed.

Lemma reshape_rows_1_2 {X : Type} (a b : X) :
  reshape_rows 1 [a; b] = Ok [[a; b]].
Proof. reflexivity. Qed.

Lemma py_index_2_0 : py_index 2 0 = Ok 0%nat.
Proof. reflexivity. Qed.

Ltac crunch :=
  repeat (progress (cbn -[softmax normalize];
                    rewrite ?softmax_ln3_0, ?softmax_0_0, ?softmax_single,
                      ?normalize_pair, ?reshape_blocks_1_2,
                      ?reshape_blocks_1_1, ?reshape_blocks_2_1,
                      ?reshape_rows_1_2, ?py_index_2_0)).

Section example_step.
Variable policy : Policy.
Variable trajectory : gmap string value.
Hypothesis agents : num_other_agents policy = 1%nat.
Hypothesis obs : getitem trajectory "obs" = Ok (VFloat2 [[0]]).
Hypothesis actions : getitem trajectory "actions" = Ok (VInt1 [0%Z]).
Hypothesis logits :
  getitem trajectory ACTION_LOGITS = Ok (VFloat2 [[ln 3; 0]]).
Hypothesis counterfactuals :
  getitem trajectory COUNTERFACTUAL_ACTIONS
  = Ok (VFloat4 [[[[0; 0]; [ln 3; 0]]]]).

Lemma example_marginal :
  marginalize_predictions_over_own_actions policy trajectory
  = Ok [[[5 / 6; 1 / 6]]].
Proof.
  unfold marginalize_predictions_over_own_actions.
  rewrite logits, counterfactuals, agents. crunch. list_eq.
Qed.

Lemma example_weighting :
  marginal_by_weighting policy trajectory = Ok [[[9 / 16; 7 / 16]]].
Proof.
  unfold marginal_by_weighting.
  rewrite logits, counterfactuals, agents. crunch.
  unfold weighted_marginal. crunch. list_eq.
Qed.

Lemma example_true_probs :
  true_probs_of policy trajectory = Ok [[[1 / 2; 1 / 2]]].
Proof.
  unfold true_probs_of.
  rewrite obs, actions, counterfactuals, agents. crunch. list_eq.
Qed.

Lemma example_divergence_kl :
  influence_divergence_measure policy = "kl" ->
  divergence_per_agent_step policy trajectory
  = Ok [[example_divergence]].
Proof.
  intros Hkl. unfold divergence_per_agent_step.
  rewrite example_true_probs, example_marginal, !bind_Ok_l.
  unfold divergence. rewrite Hkl.
  destruct (decide _) as [_|Hne]; [|contradiction].
  rewrite kl_div_all_defined; [reflexivity|].
  unfold all_defined. cbn [tForall2]. rows; right; split; lra.
Qed.

Lemma example_exit :
  influence_divergence_measure policy <> "kl" ->
  influence_divergence_measure policy <> "jsd" ->
  compute_influence_reward policy trajectory
  = Err (SystemExit EXIT_MESSAGE).
Proof.
  intros Hkl Hjsd.
  unfold compute_influence_reward, influence_per_agent_step,
    divergence_per_agent_step.
  rewrite example_true_probs, example_marginal, !bind_Ok_l.
  unfold divergence.
  destruct (decide _); [contradiction|].
  destruct (decide _); [contradiction|]. reflexivity.
Qed.

Lemma example_step_kl v :
  influence_divergence_measure policy = "kl" ->
  influence_only_when_visible policy = true ->
  getitem trajectory VISIBILITY = Ok (VFloat2 [[v]]) ->
  influence_per_agent_step policy trajectory
  = Ok [[example_divergence * v]].
Proof.
  intros Hkl Hflag Hvis. unfold influence_per_agent_step.
  rewrite (example_divergence_kl Hkl), bind_Ok_l.
  unfold mask_invisible. rewrite Hflag, Hvis. reflexivity.
Qed.
End example_step.

Lemma example_divergence_pos : 0 < example_divergence.
Proof.
  unfold example_divergence, kl_sum, kl_summand. cbn.
  destruct (Req_dec_T (1 / 2) 0); [lra|].
  replace (1 / 2 / (5 / 6)) with (3 / 5) by lra.
  replace (1 / 2 / (1 / 6)) with 3 by lra.
  enough (0 < ln (3 / 5) + ln 3) by lra.
  rewrite <- ln_mult by lra. rewrite <- ln_1. apply ln_increasing; lra.
Qed.

Lemma compute_influence_reward_Ok policy trajectory step obs rewards
    new_rewards :
  influence_per_agent_step policy trajectory = Ok step ->
  trajectory !! "obs" = Some obs ->
  trajectory !! "rewards" = Some (VFloat1 rewards) ->
  bcast (fun x y => Ok (x + y)) rewards
    (map (fun x => x * curr_influence_weight policy)
         (summarize_and_clip policy step)) = Ok new_rewards ->
  compute_influence_reward policy trajectory
  = Ok (set_steps_processed
          (steps_processed policy + Z.of_nat (len obs)) policy,
        <["rewards" := VFloat1 new_rewards]>
          (<["reward_without_influence" := VFloat1 rewards]>
             (<["total_influence" :=
                  VFloat1 (summarize_and_clip policy step)]>
                trajectory))).
Proof.
  intros Hstep Hobs Hrew Hnew. unfold compute_influence_reward.
  rewrite Hstep, bind_Ok_l.
  rewrite (proj2 (getitem_Ok _ _ _) Hobs), bind_Ok_l.
  assert (H1 : getitem
                 (<["total_influence" :=
                      VFloat1 (summarize_and_clip policy step)]> trajectory)
                 "rewards" = Ok (VFloat1 rewards)).
  { apply getitem_Ok. rewrite lookup_insert_ne by discriminate. assumption. }
  rewrite H1, bind_Ok_l.
  assert (H2 : getitem
                 (<["reward_without_influence" := VFloat1 rewards]>
                    (<["total_influence" :=
                         VFloat1 (summarize_and_clip policy step)]>
                       trajectory))
                 "rewards" = Ok (VFloat1 rewards)).
  { apply getitem_Ok. rewrite !lookup_insert_ne by discriminate.
    assumption. }
  rewrite H2, bind_Ok_l.
  change (curr_influence_weight
            (set_steps_processed
               (steps_processed policy + Z.of_nat (len obs)) policy))
    with (curr_influence_weight policy).
  rewrite Hnew, bind_Ok_l. reflexivity.
Qed.

(** The example step under the default configuration, and the same step
    with the other agent out of sight. *)
Lemma example_run (trajectory : gmap string value) v :
  getitem trajectory "obs" = Ok (VFloat2 [[0]]) ->
  getitem trajectory "actions" = Ok (VInt1 [0%Z]) ->
  getitem trajectory "rewards" = Ok (VFloat1 [1]) ->
  getitem trajectory ACTION_LOGITS = Ok (VFloat2 [[ln 3; 0]]) ->
  getitem trajectory COUNTERFACTUAL_ACTIONS
  = Ok (VFloat4 [[[[0; 0]; [ln 3; 0]]]]) ->
  getitem trajectory VISIBILITY = Ok (VFloat2 [[v]]) ->
  let total :=
    summarize_and_clip (setup_mixins CONFIG) [[example_divergence * v]] in
  compute_influence_reward (setup_mixins CONFIG) trajectory
  = Ok (set_steps_processed 1 (setup_mixins CONFIG),
        <["rewards" := VFloat1 (zip_with Rplus [1]
                                  (map (fun x => x * 1) total))]>
          (<["reward_without_influence" := VFloat1 [1]]>
             (<["total_influence" := VFloat1 total]> trajectory))).
Proof.
  intros Hobs Hact Hrew Hlog Hcf Hvis total.
  apply (compute_influence_reward_Ok (setup_mixins CONFIG) trajectory
           [[example_divergence * v]] (VFloat2 [[0]]) [1]).
  - apply example_step_kl; auto.
  - apply getitem_Ok, Hobs.
  - apply getitem_Ok, Hrew.
  - reflexivity.
Qed.

Lemma example_trajectory_fields :
  getitem example_trajectory "obs" = Ok (VFloat2 [[0]]) /\
  getitem example_trajectory "actions" = Ok (VInt1 [0%Z]) /\
  getitem example_trajectory "rewards" = Ok (VFloat1 [1]) /\
  getitem example_trajectory ACTION_LOGITS = Ok (VFloat2 [[ln 3; 0]]) /\
  getitem example_trajectory COUNTERFACTUAL_ACTIONS
  = Ok (VFloat4 [[[[0; 0]; [ln 3; 0]]]]) /\
  getitem example_trajectory VISIBILITY = Ok (VFloat2 [[1]]).
Proof. repeat split; reflexivity. Qed.

Lemma example_unseen_fields :
  getitem example_unseen "obs" = Ok (VFloat2 [[0]]) /\
  getitem example_unseen "actions" = Ok (VInt1 [0%Z]) /\
  getitem example_unseen "rewards" = Ok (VFloat1 [1]) /\
  getitem example_unseen ACTION_LOGITS = Ok (VFloat2 [[ln 3; 0]]) /\
  getitem example_unseen COUNTERFACTUAL_ACTIONS
  = Ok (VFloat4 [[[[0; 0]; [ln 3; 0]]]]) /\
  getitem example_unseen VISIBILITY = Ok (VFloat2 [[0]]).
Proof. repeat split; reflexivity. Qed.

Lemma example_trajectory_axis : first_axis example_trajectory 1.
Proof.
  intros key v H. unfold example_trajectory in H.
  repeat (apply lookup_insert_Some in H as [[_ <-] | [_ H]];
          [reflexivity|]).
  rewrite lookup_empty in H. discriminate.
Qed.

(** ** Witnesses on the example step *)

Lemma compute_influence_reward_frame_witness :
  exists policy' trajectory',
    compute_influence_reward (setup_mixins CONFIG) example_trajectory
    = Ok (policy', trajectory') /\
    (forall key, key ∉ written_fields ->
       trajectory' !! key = example_trajectory !! key) /\
    (exists obs,
       example_trajectory !! "obs" = Some obs /\
       steps_processed policy'
       = (steps_processed (setup_mixins CONFIG) + Z.of_nat (len obs))%Z /\
       policy'
       = set_steps_processed (steps_processed policy') (setup_mixins CONFIG)).
Proof.
  destruct example_trajectory_fields as (Ho & Ha & Hr & Hl & Hc & Hv).
  pose proof (example_run example_trajectory 1 Ho Ha Hr Hl Hc Hv) as Hrun.
  eexists _, _. split; [exact Hrun|].
  exact (compute_influence_reward_frame _ _ _ _ Hrun).
Defined.

Lemma compute_influence_reward_rewards_witness :
  exists policy' trajectory' step rewards total new_rewards,
    compute_influence_reward (setup_mixins CONFIG) example_trajectory
    = Ok (policy', trajectory') /\
    influence_per_agent_step (setup_mixins CONFIG) example_trajectory
    = Ok step /\
    example_trajectory !! "rewards" = Some (VFloat1 rewards) /\
    total = map (clip (- 10) 10) (map rsum step) /\
    trajectory' !! "total_influence" = Some (VFloat1 total) /\
    trajectory' !! "reward_without_influence" = Some (VFloat1 rewards) /\
    trajectory' !! "rewards" = Some (VFloat1 new_rewards) /\
    forall b, (b < 1)%nat ->
      exists r t,
        rewards !! b = Some r /\ total !! b = Some t /\
        Rabs t <= 10 /\ new_rewards !! b = Some (r + 1 * t).
Proof.
  destruct example_trajectory_fields as (Ho & Ha & Hr & Hl & Hc & Hv).
  pose proof (example_run example_trajectory 1 Ho Ha Hr Hl Hc Hv) as Hrun.
  assert (Hclip : 0 <= influence_reward_clip (setup_mixins CONFIG))
    by (cbn; lra).
  destruct (compute_influence_reward_rewards _ _ _ _ 1
              example_trajectory_axis Hclip Hrun)
    as (step & rewards & total & new_rewards & H).
  eexists _, _, step, rewards, total, new_rewards.
  split; [exact Hrun | exact H].
Defined.

Lemma compute_influence_reward_invisible_witness :
  exists policy' trajectory' total,
    compute_influence_reward (setup_mixins CONFIG) example_unseen
    = Ok (policy', trajectory') /\
    influence_per_agent_step (setup_mixins CONFIG) example_unseen
    = Ok [[example_divergence * 0]] /\
    trajectory' !! "total_influence" = Some (VFloat1 total) /\
    total !! 0%nat = Some 0.
Proof.
  destruct example_unseen_fields as (Ho & Ha & Hr & Hl & Hc & Hv).
  pose proof (example_run example_unseen 0 Ho Ha Hr Hl Hc Hv) as Hrun.
  cbv zeta in Hrun.
  destruct (compute_influence_reward_invisible (setup_mixins CONFIG)
              example_unseen _ _ [[0]]
              eq_refl (proj1 (getitem_Ok _ _ _) Hv) Hrun)
    as (d & step & total & Hd & Hstep & Htotal & _ & _ & Hrow).
  rewrite (example_step_kl (setup_mixins CONFIG) example_unseen
             eq_refl Ho Ha Hl Hc 0 eq_refl eq_refl Hv) in Hstep.
  injection Hstep as <-.
  eexists _, _, total. split; [exact Hrun|].
  split; [apply (example_step_kl (setup_mixins CONFIG) example_unseen
                   eq_refl Ho Ha Hl Hc 0); auto|].
  split; [exact Htotal|].
  destruct (Hrow 0%nat [example_divergence * 0] eq_refl) as [_ Hzero].
  - intros n Hn. cbn in Hn. destruct n as [|n]; [reflexivity | lia].
  - apply Hzero. cbn. lra.
Defined.

(** ** The weight that is applied *)

Lemma clip_pos c x : 0 < c -> 0 < x -> 0 < clip (- c) c x.
Proof.
  intros Hc Hx. unfold clip, Rmin, Rmax.
  destruct (Rle_dec x (- c)); destruct (Rle_dec _ _); lra.
Qed.

(** C2 fails on the default set-up.  The first call on a fresh policy
    multiplies the influence by the stored [curr_influence_weight], which
    is still [influence_reward_weight = 1.0]: the schedule is not
    evaluated by [compute_influence_reward].  Evaluated at the counter
    before the call the schedule gives 0, after the call 1/10000000. *)
Theorem compute_influence_reward_reads_stored_weight :
  exists policy' trajectory' t,
    compute_influence_reward (setup_mixins CONFIG) example_trajectory
    = Ok (policy', trajectory') /\
    trajectory' !! "total_influence" = Some (VFloat1 [t]) /\
    0 < t /\
    trajectory' !! "rewards" = Some (VFloat1 [1 + t * 1]) /\
    weight_after (setup_mixins CONFIG) = Ok 0 /\
    weight_after policy' = Ok (1 / 10000000 * 1) /\
    curr_influence_weight policy' = 1.
Proof.
  destruct example_trajectory_fields as (Ho & Ha & Hr & Hl & Hc & Hv).
  pose proof (example_run example_trajectory 1 Ho Ha Hr Hl Hc Hv) as Hrun.
  cbv zeta in Hrun.
  eexists _, _, _. split; [exact Hrun|].
  split; [rewrite !lookup_insert_ne by discriminate;
          apply lookup_insert_eq|].
  split.
  { pose proof example_divergence_pos as Hpos.
    cbn -[example_divergence clip]. apply clip_pos; lra. }
  split; [apply lookup_insert_eq|].
  split; [schedule_cases; f_equal; lra|].
  split; [schedule_cases; reflexivity | reflexivity].
Qed.

(** ** An unknown divergence measure *)

Lemma bind_Err_l {A B : Type} (e : error) (f : A -> result B) :
  Err e ≫= f = Err e.
Proof. reflexivity. Qed.

(** C3, as stated, fails.  Set-up keeps the name ["cosine"] without a
    check.  On the example step both distributions are then computed from
    the trajectory before the process exits, and on a trajectory without
    fields the call stops with the KeyError of the first field it reads:
    the trajectory is read before the measure is looked at. *)
Lemma unknown_measure_passes_setup :
  let policy := setup_mixins (with_measure "cosine" CONFIG) in
  influence_divergence_measure policy = "cosine" /\
  true_probs_of policy example_trajectory = Ok [[[1 / 2; 1 / 2]]] /\
  marginalize_predictions_over_own_actions policy example_trajectory
  = Ok [[[5 / 6; 1 / 6]]] /\
  compute_influence_reward policy example_trajectory
  = Err (SystemExit EXIT_MESSAGE) /\
  compute_influence_reward policy ∅ = Err (KeyError COUNTERFACTUAL_ACTIONS).
Proof.
  destruct example_trajectory_fields as (Ho & Ha & Hr & Hl & Hc & Hv).
  intros policy. split; [reflexivity|].
  split; [apply example_true_probs; auto|].
  split; [apply example_marginal; auto|].
  split; [apply example_exit; auto; discriminate|].
  reflexivity.
Qed.

(** The caller of [compute_influence_reward] gets what the objects and
    the exception of [compute_influence_reward_in_place] say. *)
Lemma compute_influence_reward_in_place_returned policy trajectory :
  returned (compute_influence_reward_in_place policy trajectory)
  = compute_influence_reward policy trajectory.
Proof.
  unfold compute_influence_reward_in_place, compute_influence_reward,
    returned.
  destruct (influence_per_agent_step policy trajectory) as [step|e];
    [|reflexivity].
  rewrite bind_Ok_l.
  destruct (getitem trajectory "obs") as [obs|e]; [|reflexivity].
  rewrite bind_Ok_l. cbv zeta.
  destruct (getitem
              (<["total_influence" :=
                   VFloat1 (summarize_and_clip policy step)]> trajectory)
              "rewards") as [rewards|e]; [|reflexivity].
  rewrite bind_Ok_l.
  destruct (getitem
              (<["reward_without_influence" := rewards]>
                 (<["total_influence" :=
                      VFloat1 (summarize_and_clip policy step)]> trajectory))
              "rewards") as [rewards'|e]; [|reflexivity].
  rewrite !bind_Ok_l.
  destruct rewards' as [r| | | | | |]; try reflexivity.
  destruct (bcast _ r _) as [new_rewards|e]; reflexivity.
Qed.

(** C3, amended.  With a measure that is neither ["kl"] nor ["jsd"],
    set-up stores the name as it is and [compute_influence_reward] is
    where the process exits: once the true and the marginal
    distributions of the trajectory have been computed the call ends
    with the diagnostic; an error met while computing them is raised
    instead; in no case is a trajectory returned, and when the exception
    leaves the function the policy and the trajectory are the objects
    that came in: no field is written and the step counter is not
    advanced. *)
Theorem unknown_measure_exits_in_call policy trajectory :
  influence_divergence_measure policy <> "kl" ->
  influence_divergence_measure policy <> "jsd" ->
  (forall config,
     influence_divergence_measure (setup_mixins config)
     = cfg_influence_divergence_measure config) /\
  (forall true_probs marginal_probs,
     true_probs_of policy trajectory = Ok true_probs ->
     marginalize_predictions_over_own_actions policy trajectory
     = Ok marginal_probs ->
     compute_influence_reward policy trajectory
     = Err (SystemExit EXIT_MESSAGE)) /\
  (forall e,
     true_probs_of policy trajectory = Err e ->
     compute_influence_reward policy trajectory = Err e) /\
  (forall true_probs e,
     true_probs_of policy trajectory = Ok true_probs ->
     marginalize_predictions_over_own_actions policy trajectory = Err e ->
     compute_influence_reward policy trajectory = Err e) /\
  (forall r, compute_influence_reward policy trajectory <> Ok r) /\
  (exists e,
     compute_influence_reward policy trajectory = Err e /\
     compute_influence_reward_in_place policy trajectory
     = {| policy_after := policy; trajectory_after := trajectory;
          raised := Some e |}).
Proof.
  intros Hkl Hjsd.
  assert (Hdiv : forall tp mp,
             divergence policy tp mp = Err (SystemExit EXIT_MESSAGE)).
  { intros tp mp. unfold divergence.
    destruct (decide _); [contradiction|].
    destruct (decide _); [contradiction|]. reflexivity. }
  split; [reflexivity|].
  split; [|split; [|split; [|split]]].
  - unfold compute_influence_reward, influence_per_agent_step,
      divergence_per_agent_step.
    intros tp mp -> ->. rewrite !bind_Ok_l, Hdiv. reflexivity.
  - unfold compute_influence_reward, influence_per_agent_step,
      divergence_per_agent_step.
    intros e ->. reflexivity.
  - unfold compute_influence_reward, influence_per_agent_step,
      divergence_per_agent_step.
    intros tp e -> ->. reflexivity.
  - unfold compute_influence_reward, influence_per_agent_step,
      divergence_per_agent_step.
    intros r H.
    destruct (true_probs_of policy trajectory) as [tp|]; [|discriminate].
    destruct (marginalize_predictions_over_own_actions policy trajectory)
      as [mp|]; [|discriminate].
    rewrite !bind_Ok_l, Hdiv in H. discriminate.
  - assert (Hstep : exists e,
              influence_per_agent_step policy trajectory = Err e).
    { unfold influence_per_agent_step, divergence_per_agent_step.
      destruct (true_probs_of policy trajectory) as [tp|e]; [|eauto].
      destruct (marginalize_predictions_over_own_actions policy trajectory)
        as [mp|e]; [|eauto].
      rewrite !bind_Ok_l, Hdiv. eauto. }
    destruct Hstep as [e Hstep]. exists e.
    unfold compute_influence_reward, compute_influence_reward_in_place.
    rewrite Hstep. split; reflexivity.
Qed.

Lemma unknown_measure_exits_in_call_witness :
  compute_influence_reward (setup_mixins (with_measure "cosine" CONFIG))
    example_trajectory
  = Err (SystemExit EXIT_MESSAGE) /\
  compute_influence_reward_in_place
    (setup_mixins (with_measure "cosine" CONFIG)) example_trajectory
  = {| policy_after := setup_mixins (with_measure "cosine" CONFIG);
       trajectory_after := example_trajectory;
       raised := Some (SystemExit EXIT_MESSAGE) |}.
Proof.
  destruct example_trajectory_fields as (Ho & Ha & Hr & Hl & Hc & Hv).
  assert (Hkl : influence_divergence_measure
                  (setup_mixins (with_measure "cosine" CONFIG)) <> "kl")
    by discriminate.
  assert (Hjsd : influence_divergence_measure
                   (setup_mixins (with_measure "cosine" CONFIG)) <> "jsd")
    by discriminate.
  destruct (unknown_measure_exits_in_call
              (setup_mixins (with_measure "cosine" CONFIG))
              example_trajectory Hkl Hjsd)
    as (_ & Hexit & _ & _ & _ & e & He & Hplace).
  assert (Hrun : compute_influence_reward
                   (setup_mixins (with_measure "cosine" CONFIG))
                   example_trajectory = Err (SystemExit EXIT_MESSAGE)).
  { apply (Hexit [[[1 / 2; 1 / 2]]] [[[5 / 6; 1 / 6]]]).
    - apply example_true_probs; auto.
    - apply example_marginal; auto. }
  split; [exact Hrun|].
  rewrite Hrun in He. injection He as <-. exact Hplace.
Defined.

(** ** [marginalize_predictions_over_own_actions] against the design *)

Lemma two_steps_fields n :
  getitem (two_steps n) ACTION_LOGITS = Ok (VFloat2 [[0]; [0]]) /\
  getitem (two_steps n) COUNTERFACTUAL_ACTIONS
  = Ok (VFloat4 [replicate n [[0]]; replicate n [[0]]]).
Proof. split; reflexivity. Qed.

Lemma example_flat_fields :
  getitem example_flat ACTION_LOGITS = Ok (VFloat2 [[ln 3; 0]]) /\
  getitem example_flat COUNTERFACTUAL_ACTIONS
  = Ok (VFloat3 [[[0; 0]; [ln 3; 0]]]).
Proof. split; reflexivity. Qed.

(** C1 fails.  On the example step, in either layout of the
    counterfactual logits, the function returns [[5/6, 1/6]]
    where the weighted sum of the design is [[9/16, 7/16]]: the
    counterfactual distributions are summed over the agent's own actions
    without weights, and the own action probabilities then multiply the
    axis of the other agent's actions.  With two steps, [np.tile] lines
    the action probabilities of the two steps up along the agent axis:
    for two other agents the product is refused, and for one other agent
    the result has two rows per step, that is shape [2, 2, 1] instead of
    [2, 1, 1]. *)
Theorem marginalize_misses_weighted_sum :
  marginalize_predictions_over_own_actions (setup_mixins CONFIG)
    example_trajectory = Ok [[[5 / 6; 1 / 6]]] /\
  marginal_by_weighting (setup_mixins CONFIG) example_trajectory
  = Ok [[[9 / 16; 7 / 16]]] /\
  marginalize_predictions_over_own_actions (setup_mixins CONFIG)
    example_flat = Ok [[[5 / 6; 1 / 6]]] /\
  marginal_by_weighting (setup_mixins CONFIG) example_flat
  = Ok [[[9 / 16; 7 / 16]]] /\
  marginalize_predictions_over_own_actions
    (setup_mixins (with_agents 2 CONFIG)) (two_steps 2) = Err ValueError /\
  marginal_by_weighting (setup_mixins (with_agents 2 CONFIG)) (two_steps 2)
  = Ok [[[1]; [1]]; [[1]; [1]]] /\
  marginalize_predictions_over_own_actions (setup_mixins CONFIG) (two_steps 1)
  = Ok [[[1]; [1]]; [[1]; [1]]] /\
  marginal_by_weighting (setup_mixins CONFIG) (two_steps 1)
  = Ok [[[1]]; [[1]]].
Proof.
  destruct example_trajectory_fields as (Ho & Ha & Hr & Hl & Hc & Hv).
  destruct (two_steps_fields 1) as (Hl1 & Hc1).
  destruct (two_steps_fields 2) as (Hl2 & Hc2).
  destruct example_flat_fields as (Hlf & Hcf).
  assert (Hn : normalize [1] = [1]) by (apply normalize_single; lra).
  split; [apply example_marginal; auto|].
  split; [apply example_weighting; auto|].
  split; [|split; [|split; [|split; [|split]]]].
  - unfold marginalize_predictions_over_own_actions.
    rewrite Hlf, Hcf. crunch. list_eq.
  - unfold marginal_by_weighting.
    rewrite Hlf, Hcf. crunch. unfold weighted_marginal. crunch. list_eq.
  - unfold marginalize_predictions_over_own_actions.
    rewrite Hl2, Hc2. crunch. rewrite !Hn. crunch. reflexivity.
  - unfold marginal_by_weighting.
    rewrite Hl2, Hc2. crunch. rewrite !Hn. crunch.
    unfold weighted_marginal. crunch.
    rewrite !normalize_single by lra. reflexivity.
  - unfold marginalize_predictions_over_own_actions.
    rewrite Hl1, Hc1. crunch. rewrite !Hn. crunch.
    rewrite !normalize_single by lra. reflexivity.
  - unfold marginal_by_weighting.
    rewrite Hl1, Hc1. crunch. rewrite !Hn. crunch.
    unfold weighted_marginal. crunch.
    rewrite !normalize_single by lra. reflexivity.
Qed.

(** ** When [compute_influence_reward] returns *)

Lemma mapM_Ok_total {A B : Type} (f : A -> result B) (P : B -> Prop) l :
  Forall (fun x => exists y, f x = Ok y /\ P y) l ->
  exists k, mapM f l = Ok k /\ Forall P k /\ length k = length l.
Proof.
  induction 1 as [|x l (y & Hy & HP) _ (k & Hk & HPk & Hlen)].
  - exists []. repeat split. constructor.
  - exists (y :: k). rewrite mapM_Ok_cons, Hy, bind_Ok_l, Hk, bind_Ok_l.
    repeat split; [constructor; assumption | cbn; congruence].
Qed.

Lemma zip_with_r_Ok_total {X Y Z : Type} (f : X -> Y -> result Z)
    (P : Z -> Prop) xs ys :
  length xs = length ys ->
  (forall x y, x ∈ xs -> y ∈ ys -> exists z, f x y = Ok z /\ P z) ->
  exists zs, zip_with_r f xs ys = Ok zs /\ Forall P zs
             /\ length zs = length xs.
Proof.
  revert ys. induction xs as [|x xs IH]; intros [|y ys] Hlen Hf;
    try discriminate.
  - exists []. repeat split. constructor.
  - destruct (Hf x y) as (z & Hz & HP); [left | left |].
    destruct (IH ys) as (zs & Hzs & HPs & Hl).
    + cbn in Hlen. lia.
    + intros x' y' Hx Hy. apply Hf; right; assumption.
    + exists (z :: zs). cbn. rewrite Hz, bind_Ok_l, Hzs, bind_Ok_l.
      repeat split; [constructor; assumption | cbn; congruence].
Qed.

Lemma bcast_Ok_total {X Y Z : Type} (f : X -> Y -> result Z)
    (P : Z -> Prop) xs ys :
  (length xs = length ys \/ length xs = 1 \/ length ys = 1)%nat ->
  (forall x y, x ∈ xs -> y ∈ ys -> exists z, f x y = Ok z /\ P z) ->
  exists zs, bcast f xs ys = Ok zs /\ Forall P zs /\
             length zs = (if decide (length xs = 1)%nat
                          then length ys else length xs).
Proof.
  intros Hlen Hf.
  destruct (decide (length xs = 1)%nat) as [H1 | H1].
  - destruct xs as [|x [|x' xs]]; try discriminate.
    change (bcast f [x] ys) with (mapM (f x) ys).
    apply mapM_Ok_total. apply Forall_forall. intros y Hy.
    apply Hf; [left | assumption].
  - destruct (decide (length ys = 1)%nat) as [H2 | H2].
    + destruct ys as [|y [|y' ys]]; try discriminate.
      assert (bcast f xs [y] = mapM (fun x => f x y) xs) as ->
        by (destruct xs as [|x [|x' xs]]; [reflexivity | | reflexivity];
            cbn in H1; congruence).
      apply mapM_Ok_total. apply Forall_forall. intros x Hx.
      apply Hf; [assumption | left].
    + rewrite bcast_same_length by lia.
      apply zip_with_r_Ok_total; [lia | assumption].
Qed.

Lemma bcast_into_Ok_total {X Y : Type} (f : X -> Y -> result X)
    (P : X -> Prop) xs ys :
  (length xs = length ys \/ length ys = 1)%nat ->
  (forall x y, x ∈ xs -> y ∈ ys -> exists z, f x y = Ok z /\ P z) ->
  exists zs, bcast_into f xs ys = Ok zs /\ Forall P zs
             /\ length zs = length xs.
Proof.
  intros Hlen Hf. unfold bcast_into.
  destruct ys as [|y [|y' ys]].
  - apply zip_with_r_Ok_total; [|assumption].
    destruct Hlen as [H | H]; [assumption | discriminate].
  - apply mapM_Ok_total. apply Forall_forall. intros x Hx.
    apply Hf; [assumption | left].
  - apply zip_with_r_Ok_total; [|assumption].
    destruct Hlen as [H | H]; [assumption | discriminate].
Qed.

Lemma index_pairs_same_length bs acts :
  length bs = length acts -> index_pairs bs acts = Ok (zip bs acts).
Proof.
  unfold index_pairs. intros Hlen.
  destruct bs as [|b [|b' bs]], acts as [|a [|a' acts]]; try discriminate;
    try reflexivity.
  destruct (decide _); [reflexivity | contradiction].
Qed.

Lemma py_index_total (size : nat) (i : Z) :
  (- Z.of_nat size <= i < Z.of_nat size)%Z ->
  exists k, py_index size i = Ok k /\ (k < size)%nat.
Proof.
  intros Hi. unfold py_index.
  destruct (decide (0 <= i < Z.of_nat size)%Z).
  - exists (Z.to_nat i). split; [reflexivity | lia].
  - destruct (decide (- Z.of_nat size <= i < 0)%Z); [|lia].
    exists (Z.to_nat (i + Z.of_nat size)). split; [reflexivity | lia].
Qed.

Lemma item_total {X : Type} (l : list X) (i : nat) :
  (i < length l)%nat -> exists x, item l i = Ok x /\ x ∈ l.
Proof.
  intros Hi. unfold item.
  destruct (lookup_lt_is_Some_2 l i Hi) as [x Hx]. rewrite Hx.
  exists x. split; [reflexivity|]. eapply list_elem_of_lookup_2; eassumption.
Qed.

Lemma take_own_action_total (B N A : nat) a acts :
  rect4 B N A A a -> length acts = B ->
  Forall (fun i => (- Z.of_nat A <= i < Z.of_nat A)%Z) acts ->
  exists t, take_own_action a (seq 0 B) acts = Ok t /\ rect3 B N A t.
Proof.
  intros [Hlen Hrows] Hacts Hrange. unfold take_own_action.
  rewrite index_pairs_same_length by (rewrite length_seq; congruence).
  rewrite bind_Ok_l.
  destruct (mapM_Ok_total
              (fun '(b, act) =>
                 row ← item a b;
                 mapM (fun per_agent =>
                         i ← py_index (length per_agent) act;
                         item per_agent i) row)
              (rect2 N A) (zip (seq 0 B) acts)) as (t & Ht & HP & Hl).
  - apply Forall_forall. intros [b act] Hin.
    pose proof (elem_of_zip_l _ _ _ _ Hin) as Hb.
    pose proof (elem_of_zip_r _ _ _ _ Hin) as Hact.
    apply elem_of_seq in Hb.
    rewrite Forall_forall in Hrange. specialize (Hrange _ Hact).
    destruct (item_total a b) as (row & Hrow & Hrin); [lia|].
    rewrite Forall_forall in Hrows. destruct (Hrows _ Hrin) as [HN HAA].
    rewrite Hrow, bind_Ok_l.
    destruct (mapM_Ok_total
                (fun per_agent =>
                   i ← py_index (length per_agent) act; item per_agent i)
                (fun r => length r = A) row) as (k & Hk & HPk & Hlk).
    + apply Forall_forall. intros per_agent Hper.
      rewrite Forall_forall in HAA. destruct (HAA _ Hper) as [HA1 HA2].
      rewrite HA1.
      destruct (py_index_total A act Hrange) as (i & Hi & Hlt).
      rewrite Hi, bind_Ok_l.
      destruct (item_total per_agent i) as (r & Hr & Hrin'); [lia|].
      exists r. split; [assumption|].
      rewrite Forall_forall in HA2. auto.
    + exists k. split; [assumption|]. split; [congruence | assumption].
  - exists t. split; [assumption|]. split; [|assumption].
    rewrite Hl, length_zip_with, length_seq. lia.
Qed.

Lemma length_pieces {X : Type} count size (l : list X) :
  length (pieces count size l) = count.
Proof. unfold pieces. rewrite length_map, length_seq. reflexivity. Qed.

Lemma pieces_rect {X : Type} count size (l : list X) :
  (count * size <= length l)%nat -> rect2 count size (pieces count size l).
Proof.
  intros Hlen. split; [apply length_pieces|].
  unfold pieces. apply Forall_forall. intros r Hr.
  apply list_elem_of_fmap in Hr as (i & -> & Hi).
  apply elem_of_seq in Hi.
  rewrite length_take, length_drop. nia.
Qed.

Lemma length_mjoin_rect {X : Type} d0 d1 (a : list (list X)) :
  rect2 d0 d1 a -> length (mjoin a) = (d0 * d1)%nat.
Proof.
  intros [<- Hrows]. induction Hrows as [|r a Hr _ IH]; [reflexivity|].
  change (mjoin (r :: a)) with (r ++ mjoin a).
  rewrite length_app, IH, Hr. reflexivity.
Qed.

Lemma reshape_rows_total {X : Type} (N A : nat) (flat : list X) :
  (1 <= N)%nat -> length flat = (N * A)%nat ->
  exists r, reshape_rows N flat = Ok r /\ rect2 N A r.
Proof.
  intros HN Hlen. unfold reshape_rows.
  destruct (decide (N = 0)%nat); [lia|].
  assert (length flat mod N = 0)%nat as Hmod
    by (rewrite Hlen, Nat.mul_comm; apply Nat.Div0.mod_mul).
  assert (length flat / N = A)%nat as Hdiv
    by (rewrite Hlen, Nat.mul_comm; apply Nat.div_mul; lia).
  destruct (decide _); [|contradiction].
  eexists. split; [reflexivity|]. rewrite Hdiv.
  apply pieces_rect. lia.
Qed.

Lemma reshape_blocks_total {X : Type} (N A : nat) (flat : list X) :
  (1 <= N)%nat -> (1 <= A)%nat -> length flat = (N * (A * A))%nat ->
  exists blocks, reshape_blocks N A flat = Ok blocks /\ rect3 N A A blocks.
Proof.
  intros HN HA Hlen. unfold reshape_blocks.
  destruct (decide (N * A = 0)%nat); [nia|].
  assert (length flat = A * (N * A))%nat as Hlen' by lia.
  assert (length flat mod (N * A) = 0)%nat as Hmod
    by (rewrite Hlen'; apply Nat.Div0.mod_mul).
  assert (length flat / (N * A) = A)%nat as Hdiv
    by (rewrite Hlen'; apply Nat.div_mul; lia).
  destruct (decide _); [|contradiction].
  eexists. split; [reflexivity|]. rewrite Hdiv.
  destruct (pieces_rect N (A * A) flat) as [Hl Hrows]; [lia|].
  split; [rewrite length_map; assumption|].
  apply Forall_fmap. eapply Forall_impl; [exact Hrows|]. intros r Hr.
  cbn. apply pieces_rect. rewrite Hr. apply Nat.le_refl.
Qed.

Lemma softmax_length x : length (softmax x) = length x.
Proof. unfold softmax. rewrite !length_map. reflexivity. Qed.

Lemma normalize_length x : length (normalize x) = length x.
Proof. unfold normalize. rewrite length_map. reflexivity. Qed.

Lemma sum_rows_length width block :
  Forall (fun r => length r = width) block ->
  length (sum_rows width block) = width.
Proof.
  unfold sum_rows. induction 1 as [|r block Hr _ IH].
  - apply length_replicate.
  - cbn. rewrite length_zip_with, IH, Hr. lia.
Qed.

Lemma rect2_map {X Y : Type} (f : X -> Y) d0 d1 (a : list (list X)) :
  rect2 d0 d1 a -> rect2 d0 d1 (map (map f) a).
Proof.
  intros [Hl Hrows]. split; [rewrite length_map; assumption|].
  apply Forall_fmap. eapply Forall_impl; [exact Hrows|].
  intros r Hr. cbn. rewrite length_map. assumption.
Qed.

Lemma rect2_map_rows {X : Type} (f : list X -> list X) d0 d1
    (a : list (list X)) :
  (forall r, length (f r) = length r) ->
  rect2 d0 d1 a -> rect2 d0 d1 (map f a).
Proof.
  intros Hf [Hl Hrows]. split; [rewrite length_map; assumption|].
  apply Forall_fmap. eapply Forall_impl; [exact Hrows|].
  intros r Hr. cbn. rewrite Hf. assumption.
Qed.

Lemma rect3_map_rows {X : Type} (f : list X -> list X) d0 d1 d2
    (a : list (list (list X))) :
  (forall r, length (f r) = length r) ->
  rect3 d0 d1 d2 a -> rect3 d0 d1 d2 (map (map f) a).
Proof.
  intros Hf [Hl Hrows]. split; [rewrite length_map; assumption|].
  apply Forall_fmap. eapply Forall_impl; [exact Hrows|].
  intros r Hr. cbn. apply rect2_map_rows; assumption.
Qed.

Lemma rect3_mjoin {X : Type} d0 d1 d2 (a : list (list (list X))) :
  rect3 d0 d1 d2 a -> rect2 (d0 * d1) d2 (mjoin a).
Proof.
  intros [<- Hrows]. induction Hrows as [|r a [Hr1 Hr2] _ [IH1 IH2]].
  - split; [reflexivity | constructor].
  - change (mjoin (r :: a)) with (r ++ mjoin a). split.
    + rewrite length_app, IH1, Hr1. reflexivity.
    + apply Forall_app. split; assumption.
Qed.

Lemma rect2_tile {X : Type} reps d0 d1 (a : list (list X)) :
  rect2 d0 d1 a -> rect2 (reps * d0) d1 (mjoin (replicate reps a)).
Proof.
  intros [Hl Hrows]. induction reps as [|reps [IH1 IH2]].
  - split; [reflexivity | constructor].
  - change (mjoin (replicate (S reps) a))
      with (a ++ mjoin (replicate reps a)). split.
    + rewrite length_app, IH1, Hl. reflexivity.
    + apply Forall_app. split; assumption.
Qed.

Lemma last_dim_rect {X : Type} d0 d1 (a : list (list X)) :
  (1 <= d0)%nat -> rect2 d0 d1 a -> last_dim a = d1.
Proof.
  intros Hd [Hl Hrows]. destruct Hrows as [|r a Hr _]; [cbn in Hl; lia|].
  exact Hr.
Qed.

Lemma true_probs_of_total policy trajectory B A :
  data_model policy trajectory B A ->
  exists true_probs,
    true_probs_of policy trajectory = Ok true_probs /\
    rect3 B (num_other_agents policy) A true_probs.
Proof.
  intros [HB HA HN (obs & Hobs & Hlen) (acts & Hacts & Hal & Hrange) _ _
            (c & Hc & Hrect) _].
  unfold true_probs_of.
  rewrite (proj2 (getitem_Ok _ _ _) Hc), bind_Ok_l.
  rewrite (proj2 (getitem_Ok _ _ _) Hobs), bind_Ok_l.
  rewrite (proj2 (getitem_Ok _ _ _) Hacts), bind_Ok_l, Hlen.
  destruct (take_own_action_total B _ A c acts Hrect Hal Hrange)
    as (t0 & Ht0 & [Hl0 Hrows0]).
  rewrite Ht0, bind_Ok_l.
  destruct (mapM_Ok_total
              (fun r => reshape_rows (num_other_agents policy) (mjoin r))
              (rect2 (num_other_agents policy) A) t0)
    as (t1 & Ht1 & HP1 & Hl1).
  { eapply Forall_impl; [exact Hrows0|]. intros r Hr.
    apply reshape_rows_total; [assumption|].
    apply (length_mjoin_rect _ _ _ Hr). }
  destruct t0 as [|r0 t0]; [cbn in Hl0; lia|].
  rewrite Ht1, bind_Ok_l. eexists. split; [reflexivity|].
  apply rect3_map_rows; [apply normalize_length|].
  apply rect3_map_rows; [apply softmax_length|].
  split; [congruence | assumption].
Qed.

Lemma marginalize_total policy trajectory B A :
  data_model policy trajectory B A ->
  (B = 1 \/ num_other_agents policy = 1)%nat ->
  exists marginal_probs,
    marginalize_predictions_over_own_actions policy trajectory
    = Ok marginal_probs /\
    rect3 B (num_other_agents policy * B) A marginal_probs.
Proof.
  intros [HB HA HN _ _ _ (l & Hl & Hlrect) (c & Hc & [Hcl Hcrows]) _] Hshape.
  set (N := num_other_agents policy) in *.
  unfold marginalize_predictions_over_own_actions.
  rewrite (proj2 (getitem_Ok _ _ _) Hl), !bind_Ok_l.
  rewrite (proj2 (getitem_Ok _ _ _) Hc), bind_Ok_l.
  cbn [flat_rows]. rewrite bind_Ok_l.
  assert (Hprobs : rect2 B A (map normalize (map softmax l))).
  { apply rect2_map_rows; [apply normalize_length|].
    apply rect2_map_rows; [apply softmax_length | assumption]. }
  rewrite (last_dim_rect B A _ HB Hprobs). fold N.
  destruct (mapM_Ok_total (reshape_blocks N A) (rect3 N A A)
              (map (fun r => mjoin (mjoin r)) c))
    as (cp & Hcp & HPcp & Hlcp).
  { apply Forall_fmap. eapply Forall_impl; [exact Hcrows|]. intros r Hr.
    cbn. apply reshape_blocks_total; [assumption | assumption|].
    apply rect3_mjoin in Hr. apply length_mjoin_rect in Hr.
    rewrite Hr. lia. }
  rewrite length_map in Hlcp.
  destruct c as [|c0 c]; [cbn in Hcl; lia|].
  cbn [map]. cbn [map] in Hcp. rewrite Hcp, bind_Ok_l.
  assert (Hm1 : rect3 B N A
                  (map (map (sum_rows A)) (map (map (map softmax)) cp))).
  { split; [rewrite !length_map, Hlcp; exact Hcl|].
    apply Forall_fmap, Forall_fmap.
    eapply Forall_impl; [exact HPcp|]. intros blocks [Hb1 Hb2]. cbn.
    split; [rewrite !length_map; assumption|].
    apply Forall_fmap, Forall_fmap.
    eapply Forall_impl; [exact Hb2|]. intros block Hblock. cbn.
    apply sum_rows_length. apply (rect2_map_rows softmax A A block).
    - apply softmax_length.
    - exact Hblock. }
  pose proof (rect2_tile N B A _ Hprobs) as Htile.
  destruct (bcast_Ok_total
              (bcast (bcast (fun x y : R => Ok (x * y))))
              (rect2 (N * B) A)
              (map (map (sum_rows A)) (map (map (map softmax)) cp))
              [mjoin (replicate N (map normalize (map softmax l)))])
    as (m & Hm & HPm & Hlm).
  { right. right. reflexivity. }
  { intros x y Hx Hy. apply list_elem_of_singleton in Hy. subst y.
    destruct Hm1 as [_ Hm1]. rewrite Forall_forall in Hm1.
    destruct (Hm1 _ Hx) as [Hx1 Hx2]. destruct Htile as [Ht1 Ht2].
    destruct (bcast_Ok_total (bcast (fun x y : R => Ok (x * y)))
                (fun r => length r = A) x
                (mjoin (replicate N (map normalize (map softmax l)))))
      as (z & Hz & HPz & Hlz).
    - rewrite Hx1, Ht1. destruct Hshape as [HB1 | HN1]; [rewrite HB1; lia|].
      right. left. exact HN1.
    - intros r s Hr Hs.
      rewrite Forall_forall in Hx2, Ht2.
      specialize (Hx2 _ Hr). specialize (Ht2 _ Hs).
      destruct (bcast_Ok_total (fun x y : R => Ok (x * y))
                  (fun _ => True) r s) as (w & Hw & _ & Hlw).
      + left. congruence.
      + intros; eauto.
      + exists w. split; [assumption|].
        rewrite Hlw. destruct (decide (length r = 1%nat)); congruence.
    - exists z. split; [assumption|]. split; [|assumption].
      rewrite Hlz, Hx1, Ht1.
      destruct (decide (N = 1%nat)) as [Heq | Hne]; [reflexivity|].
      destruct Hshape as [HB1 | HN1]; [rewrite HB1; lia | contradiction]. }
  assert (Hm' : bcastN (fun x y : R => Ok (x * y)) 3
                  (map (map (sum_rows A)) (map (map (map softmax)) cp))
                  (tile_1_n_1 (map normalize (map softmax l)) N) = Ok m)
    by exact Hm.
  rewrite Hm', bind_Ok_l. eexists. split; [reflexivity|].
  apply rect3_map_rows; [apply normalize_length|].
  destruct Hm1 as [Hm1l _]. split; [|assumption].
  rewrite Hlm, Hm1l.
  destruct (decide (B = 1%nat)) as [HB1|]; [rewrite HB1|]; reflexivity.
Qed.

Lemma bcast_rows_total {X Y Z : Type} (f : list X -> list Y -> result Z)
    (Q : Z -> Prop) B N1 N2 A
    (p : list (list (list X))) (q : list (list (list Y))) :
  rect3 B N1 A p -> rect3 B N2 A q ->
  (N1 = N2 \/ N1 = 1 \/ N2 = 1)%nat ->
  (forall r s, length r = A -> length s = A ->
               exists z, f r s = Ok z /\ Q z) ->
  exists zs, bcast (bcast f) p q = Ok zs /\ length zs = B /\
             Forall (fun row => length row = bdim N1 N2 /\ Forall Q row) zs.
Proof.
  intros [Hp1 Hp2] [Hq1 Hq2] Hfit Hf.
  destruct (bcast_Ok_total (bcast f)
              (fun row => length row = bdim N1 N2 /\ Forall Q row) p q)
    as (zs & Hzs & HP & Hl).
  - left. congruence.
  - intros x y Hx Hy. rewrite Forall_forall in Hp2.
    rewrite Forall_forall in Hq2.
    destruct (Hp2 _ Hx) as [Hx1 Hx2]. destruct (Hq2 _ Hy) as [Hy1 Hy2].
    destruct (bcast_Ok_total f Q x y) as (z & Hz & HPz & Hlz).
    + rewrite Hx1, Hy1. assumption.
    + intros r s Hr Hs. rewrite Forall_forall in Hx2.
      rewrite Forall_forall in Hy2. auto.
    + exists z. split; [assumption|]. split; [|assumption].
      rewrite Hlz, Hx1, Hy1. reflexivity.
  - exists zs. split; [assumption|]. split; [|assumption].
    rewrite Hl. destruct (decide (length p = 1%nat)); congruence.
Qed.

Lemma bdim_agents (B N : nat) :
  (B = 1 \/ N = 1)%nat -> bdim N (N * B) = (N * B)%nat.
Proof.
  intros H. unfold bdim. destruct (decide (N = 1%nat)); [reflexivity|].
  destruct H as [-> | ?]; [lia | contradiction].
Qed.

Lemma bdim_same (d : nat) : bdim d d = d.
Proof. unfold bdim. destruct (decide _); reflexivity. Qed.

Lemma kl_div_total B N1 N2 A (p q : list (list (list R))) :
  rect3 B N1 A p -> rect3 B N2 A q ->
  (N1 = N2 \/ N1 = 1 \/ N2 = 1)%nat ->
  exists d, kl_div 2 p q = Ok d /\ rect2 B (bdim N1 N2) d.
Proof.
  intros Hp Hq Hfit.
  destruct (bcast_rows_total kl_row (fun _ => True) B N1 N2 A p q Hp Hq Hfit)
    as (kl & Hkl & Hl & Hrows).
  { intros r s Hr Hs. rewrite kl_row_same_length by congruence. eauto. }
  unfold kl_div, kl_raw.
  assert (Hkl' : bcastN kl_row 2 p q = Ok kl) by exact Hkl.
  rewrite Hkl', bind_Ok_l.
  assert (Hrect : rect2 B (bdim N1 N2) kl).
  { split; [assumption|]. eapply Forall_impl; [exact Hrows|].
    intros row [Hrow _]. exact Hrow. }
  eexists. split; [reflexivity|].
  destruct (tall isfinite 2 kl); apply (rect2_map _ _ _ _ Hrect).
Qed.

Lemma jsd_total B N A (p q : list (list (list R))) :
  (B = 1 \/ N = 1)%nat ->
  rect3 B N A p -> rect3 B (N * B) A q ->
  exists d, jsd 2 p q = Ok d /\ rect2 B (N * B) d.
Proof.
  intros Hshape Hp Hq.
  assert (Hfit : (N = N * B \/ N = 1 \/ N * B = 1)%nat)
    by (destruct Hshape as [-> | ->]; [left; lia | right; left; reflexivity]).
  destruct (bcast_rows_total (bcast (fun x y : R => Ok (x + y)))
              (fun r => length r = A) B N (N * B) A p q Hp Hq Hfit)
    as (s & Hs & Hl & Hrows).
  { intros r t Hr Ht.
    destruct (bcast_Ok_total (fun x y : R => Ok (x + y)) (fun _ => True) r t)
      as (w & Hw & _ & Hlw).
    - left. congruence.
    - intros; eauto.
    - exists w. split; [assumption|].
      rewrite Hlw. destruct (decide (length r = 1%nat)); congruence. }
  rewrite (bdim_agents _ _ Hshape) in Hrows.
  assert (Hmean : rect3 B (N * B) A (tmap (map (Rmult 0.5)) 2 s)).
  { split; [cbn; rewrite length_map; assumption|].
    cbn. apply Forall_fmap. eapply Forall_impl; [exact Hrows|].
    intros row [Hrow1 Hrow2]. cbn. split; [rewrite length_map; assumption|].
    apply Forall_fmap. eapply Forall_impl; [exact Hrow2|].
    intros r Hr. cbn. rewrite length_map. assumption. }
  destruct (kl_div_total B N (N * B) A p _ Hp Hmean Hfit) as (a & Ha & Hra).
  destruct (kl_div_total B (N * B) (N * B) A q _ Hq Hmean) as (b & Hb & Hrb);
    [left; reflexivity|].
  rewrite (bdim_agents _ _ Hshape) in Hra. rewrite bdim_same in Hrb.
  unfold jsd.
  assert (Hs' : bcastN (bcast (fun x y : R => Ok (x + y))) 2 p q = Ok s)
    by exact Hs.
  rewrite Hs', bind_Ok_l. cbv zeta. rewrite Ha, bind_Ok_l, Hb, bind_Ok_l.
  pose proof (rect2_map (Rmult 0.5) _ _ _ Hra) as [Ha1 Ha2].
  pose proof (rect2_map (Rmult 0.5) _ _ _ Hrb) as [Hb1 Hb2].
  destruct (bcast_Ok_total (bcast (fun x y : R => Ok (x + y)))
              (fun row => length row = (N * B)%nat)
              (map (map (Rmult 0.5)) a) (map (map (Rmult 0.5)) b))
    as (d & Hd & HPd & Hld).
  - left. congruence.
  - intros x y Hx Hy. rewrite Forall_forall in Ha2, Hb2.
    specialize (Ha2 _ Hx). specialize (Hb2 _ Hy).
    destruct (bcast_Ok_total (fun x y : R => Ok (x + y)) (fun _ => True) x y)
      as (w & Hw & _ & Hlw).
    + left. congruence.
    + intros; eauto.
    + exists w. split; [assumption|].
      rewrite Hlw. destruct (decide (length x = 1%nat)); congruence.
  - exists d. split; [exact Hd|]. split; [|assumption].
    rewrite Hld. destruct (decide _); congruence.
Qed.

Lemma divergence_total policy B A true_probs marginal_probs :
  (B = 1 \/ num_other_agents policy = 1)%nat ->
  influence_divergence_measure policy = "kl"
  \/ influence_divergence_measure policy = "jsd" ->
  rect3 B (num_other_agents policy) A true_probs ->
  rect3 B (num_other_agents policy * B) A marginal_probs ->
  exists d, divergence policy true_probs marginal_probs = Ok d /\
            rect2 B (num_other_agents policy * B) d.
Proof.
  intros Hshape Hmeasure Hp Hq. unfold divergence.
  destruct (decide (influence_divergence_measure policy = "kl")).
  - destruct (kl_div_total B _ _ A _ _ Hp Hq) as (d & Hd & Hr).
    { destruct Hshape as [-> | ->]; [left; lia | right; left; reflexivity]. }
    rewrite (bdim_agents _ _ Hshape) in Hr. eauto.
  - destruct (decide (influence_divergence_measure policy = "jsd")).
    + apply (jsd_total B _ A); assumption.
    + destruct Hmeasure; contradiction.
Qed.

Lemma mask_invisible_total policy trajectory B A d :
  data_model policy trajectory B A ->
  (B = 1 \/ num_other_agents policy = 1)%nat ->
  rect2 B (num_other_agents policy * B) d ->
  exists step, mask_invisible policy trajectory d = Ok step
               /\ length step = B.
Proof.
  intros [_ _ _ _ _ _ _ _ (vis & Hvis & [Hv1 Hv2])] Hshape [Hd1 Hd2].
  unfold mask_invisible.
  destruct (influence_only_when_visible policy); [|eauto].
  rewrite (proj2 (getitem_Ok _ _ _) Hvis), bind_Ok_l.
  destruct (bcast_into_Ok_total
              (bcast_into (fun x v : R => Ok (x * v))) (fun _ => True) d vis)
    as (step & Hstep & _ & Hl).
  - left. congruence.
  - intros x y Hx Hy. rewrite Forall_forall in Hd2.
    rewrite Forall_forall in Hv2.
    specialize (Hd2 _ Hx). specialize (Hv2 _ Hy).
    destruct (bcast_into_Ok_total (fun x v : R => Ok (x * v))
                (fun _ => True) x y) as (z & Hz & _ & _).
    + rewrite Hd2, Hv2. destruct Hshape as [-> | ->]; [left; lia | right].
      reflexivity.
    + intros; eauto.
    + eauto.
  - exists step. split; [assumption | congruence].
Qed.

(** X17.  A trajectory laid out as in the data model is processed to the
    end when it has a single step or the policy a single other agent, the
    measure being one of the two known ones. *)
Theorem compute_influence_reward_returns policy trajectory B A :
  data_model policy trajectory B A ->
  (B = 1 \/ num_other_agents policy = 1)%nat ->
  influence_divergence_measure policy = "kl"
  \/ influence_divergence_measure policy = "jsd" ->
  exists policy' trajectory',
    compute_influence_reward policy trajectory = Ok (policy', trajectory').
Proof.
  intros Hdm Hshape Hmeasure.
  destruct (true_probs_of_total _ _ _ _ Hdm) as (tp & Htp & Hrtp).
  destruct (marginalize_total _ _ _ _ Hdm Hshape) as (mp & Hmp & Hrmp).
  destruct (divergence_total _ _ _ _ _ Hshape Hmeasure Hrtp Hrmp)
    as (d & Hd & Hrd).
  destruct (mask_invisible_total _ _ _ _ _ Hdm Hshape Hrd)
    as (step & Hstep & Hlstep).
  destruct Hdm as [_ _ _ (obs & Hobs & _) _ (r & Hr & Hlr) _ _ _].
  assert (Hips : influence_per_agent_step policy trajectory = Ok step).
  { unfold influence_per_agent_step, divergence_per_agent_step.
    rewrite Htp, bind_Ok_l, Hmp, bind_Ok_l, Hd, bind_Ok_l. exact Hstep. }
  destruct (bcast_Ok_total (fun x y : R => Ok (x + y)) (fun _ => True) r
              (map (fun x => x * curr_influence_weight policy)
                   (summarize_and_clip policy step)))
    as (new_rewards & Hnew & _ & _).
  - left. rewrite length_map, summarize_and_clip_length. congruence.
  - intros; eauto.
  - eexists _, _.
    apply (compute_influence_reward_Ok _ _ _ _ _ _ Hips Hobs Hr Hnew).
Qed.

Lemma bind_Err_intro {A B : Type} (m : result A) (f : A -> result B) e :
  m = Err e -> m ≫= f = Err e.
Proof. intros ->. reflexivity. Qed.

Lemma zip_with_r_mismatch {X Y Z : Type} (f : X -> Y -> result Z) xs ys :
  length xs <> length ys ->
  (forall x y, x ∈ xs -> y ∈ ys -> exists z, f x y = Ok z) ->
  zip_with_r f xs ys = Err ValueError.
Proof.
  revert ys. induction xs as [|x xs IH]; intros [|y ys] Hlen Hf;
    try reflexivity; [contradiction|].
  destruct (Hf x y) as (z & Hz); [left | left |].
  cbn. rewrite Hz, bind_Ok_l, IH; [reflexivity | cbn in Hlen; lia|].
  intros x' y' Hx Hy. apply Hf; right; assumption.
Qed.

(** X18.  With at least two steps and at least two other agents the
    product of line 278 is refused, whatever the numbers are: the call
    raises ValueError. *)
Theorem marginalize_refuses policy trajectory B A :
  data_model policy trajectory B A ->
  (2 <= B)%nat -> (2 <= num_other_agents policy)%nat ->
  marginalize_predictions_over_own_actions policy trajectory
  = Err ValueError /\
  compute_influence_reward policy trajectory = Err ValueError.
Proof.
  intros Hdm HB2 HN2.
  destruct (true_probs_of_total _ _ _ _ Hdm) as (tp & Htp & _).
  enough (marginalize_predictions_over_own_actions policy trajectory
          = Err ValueError) as Hm.
  { split; [exact Hm|].
    unfold compute_influence_reward, influence_per_agent_step,
      divergence_per_agent_step.
    rewrite Htp, bind_Ok_l, Hm. reflexivity. }
  destruct Hdm as [HB HA HN _ _ _ (l & Hl & Hlrect) (c & Hc & [Hcl Hcrows]) _].
  set (N := num_other_agents policy) in *.
  unfold marginalize_predictions_over_own_actions.
  rewrite (proj2 (getitem_Ok _ _ _) Hl), !bind_Ok_l.
  rewrite (proj2 (getitem_Ok _ _ _) Hc), bind_Ok_l.
  cbn [flat_rows]. rewrite bind_Ok_l.
  assert (Hprobs : rect2 B A (map normalize (map softmax l))).
  { apply rect2_map_rows; [apply normalize_length|].
    apply rect2_map_rows; [apply softmax_length | assumption]. }
  rewrite (last_dim_rect B A _ HB Hprobs). fold N.
  destruct (mapM_Ok_total (reshape_blocks N A) (rect3 N A A)
              (map (fun r => mjoin (mjoin r)) c))
    as (cp & Hcp & HPcp & Hlcp).
  { apply Forall_fmap. eapply Forall_impl; [exact Hcrows|]. intros r Hr.
    cbn. apply reshape_blocks_total; [assumption | assumption|].
    apply rect3_mjoin in Hr. apply length_mjoin_rect in Hr.
    rewrite Hr. lia. }
  rewrite length_map in Hlcp.
  destruct c as [|c0 c]; [cbn in Hcl; lia|].
  cbn [map]. cbn [map] in Hcp. rewrite Hcp, bind_Ok_l.
  destruct cp as [|b0 [|b1 cp]];
    [cbn in Hlcp, Hcl; lia | cbn in Hlcp, Hcl; lia |].
  pose proof (rect2_tile N B A _ Hprobs) as [Ht1 Ht2].
  inversion HPcp as [|? ? [Hb1 Hb2] _]; subst.
  enough (bcast (bcast (fun x y : R => Ok (x * y)))
            (map (sum_rows A) (map (map softmax) b0))
            (mjoin (replicate N (map normalize (map softmax l))))
          = Err ValueError) as Herr.
  { apply bind_Err_intro.
    change (mapM (fun x => bcast (bcast (fun x y : R => Ok (x * y))) x
                    (mjoin (replicate N (map normalize (map softmax l)))))
              (map (sum_rows A) (map (map softmax) b0)
               :: map (map (sum_rows A))
                    (map (map (map softmax)) (b1 :: cp)))
            = Err ValueError).
    rewrite mapM_Ok_cons. apply bind_Err_intro. exact Herr. }
  rewrite bcast_same_length_not.
  - apply zip_with_r_mismatch.
    + rewrite !length_map, Hb1, Ht1. nia.
    + intros r s Hr Hs.
      apply list_elem_of_fmap in Hr as (block & -> & Hblock).
      apply list_elem_of_fmap in Hblock as (block' & -> & Hblock').
      rewrite Forall_forall in Hb2. rewrite Forall_forall in Ht2.
      specialize (Hb2 _ Hblock'). specialize (Ht2 _ Hs).
      destruct (bcast_Ok_total (fun x y : R => Ok (x * y)) (fun _ => True)
                  (sum_rows A (map softmax block')) s) as (w & Hw & _).
      * left. rewrite Ht2. apply sum_rows_length.
        apply (rect2_map_rows softmax A A block' softmax_length Hb2).
      * intros; eauto.
      * eauto.
  - rewrite !length_map, Hb1. lia.
  - rewrite Ht1. nia.
Qed.

(** The example step is a trajectory of the data model. *)
Lemma example_data_model :
  data_model (setup_mixins CONFIG) example_trajectory 1 2.
Proof.
  split; try (cbn; lia).
  - exists (VFloat2 [[0]]). split; reflexivity.
  - exists [0%Z]. split; [reflexivity|]. split; [reflexivity|].
    constructor; [lia | constructor].
  - exists [1]. split; reflexivity.
  - exists [[ln 3; 0]]. split; [reflexivity|]. split; [reflexivity|].
    constructor; [reflexivity | constructor].
  - exists [[[[0; 0]; [ln 3; 0]]]]. split; [reflexivity|].
    split; [reflexivity|]. constructor; [|constructor].
    split; [reflexivity|]. constructor; [|constructor].
    split; [reflexivity|]. constructor; [reflexivity|].
    constructor; [reflexivity | constructor].
  - exists [[1]]. split; [reflexivity|]. split; [reflexivity|].
    constructor; [reflexivity | constructor].
Qed.

(** * Further properties *)

(** ** [kl_div] and the Jensen-Shannon expression as divergences *)

Lemma kl_summand_self x : kl_summand x x = 0.
Proof.
  unfold kl_summand. destruct (Req_dec_T x 0); [reflexivity|].
  replace (x / x) with 1 by (field; assumption). rewrite ln_1. lra.
Qed.

Lemma term_defined_self x : term_defined x x.
Proof.
  unfold term_defined. destruct (Req_dec_T x 0); [left; assumption|].
  right. split; [assumption|].
  replace (x / x) with 1 by (field; assumption). lra.
Qed.

Lemma kl_sum_self p : kl_sum p p = 0.
Proof.
  unfold kl_sum. induction p as [|x p IH]; [reflexivity|].
  cbn. rewrite kl_summand_self. unfold rsum in IH. rewrite IH. lra.
Qed.

Lemma tForall2_diag {X : Type} (P : X -> X -> Prop) n (p : tens X n) :
  (forall x, P x x) -> tForall2 P n p p.
Proof.
  intros HP. induction n as [|n IH]; cbn; [apply HP|].
  induction p; constructor; auto.
Qed.

Lemma tzip_with_diag {X Y : Type} (g : X -> X -> Y) n (p : tens X n) :
  tzip_with g n p p = tmap (fun x => g x x) n p.
Proof.
  induction n as [|n IH]; cbn; [reflexivity|].
  induction p as [|x p IHp]; [reflexivity|].
  cbn. rewrite IH, IHp. reflexivity.
Qed.

Lemma tmap_ext {X Y : Type} (f g : X -> Y) n (p : tens X n) :
  (forall x, f x = g x) -> tmap f n p = tmap g n p.
Proof.
  intros Hfg. induction n as [|n IH]; cbn; [apply Hfg|].
  induction p as [|x p IHp]; [reflexivity|].
  cbn. rewrite IH, IHp. reflexivity.
Qed.

(** X1.  The divergence of an array from itself is the all-zero array,
    whatever the entries are: where [p[a]] is 0 the term is skipped and
    elsewhere it is [p[a] * log(1)]. *)
Theorem kl_div_self (n : nat) (p : tens (list R) n) :
  kl_div n p p = Ok (tmap (fun _ => 0) n p).
Proof.
  rewrite kl_div_all_defined.
  - rewrite tzip_with_diag. f_equal. apply tmap_ext, kl_sum_self.
  - apply tForall2_diag. intros r. induction r; constructor; auto.
    apply term_defined_self.
Qed.

Lemma kl_sum_lower p q :
  Forall (fun x => 0 <= x) p -> Forall (fun x => 0 <= x) q ->
  Forall2 term_defined p q -> rsum p - rsum q <= kl_sum p q.
Proof.
  intros Hp Hq H. unfold kl_sum.
  induction H as [|x y p q Hxy _ IH]; [cbn; lra|].
  inversion Hp; inversion Hq; subst. cbn.
  assert (x - y <= kl_summand x y).
  { apply kl_summand_lower; try assumption.
    apply term_defined_nonneg; assumption. }
  specialize (IH ltac:(assumption) ltac:(assumption)).
  unfold rsum in *. lra.
Qed.

Lemma tForall_tmap_const {X : Type} (P : R -> Prop) c n (p : tens X n) :
  P c -> tForall P n (tmap (fun _ => c) n p).
Proof.
  intros Hc. induction n as [|n IH]; cbn; [assumption|].
  induction p; cbn; constructor; auto.
Qed.

Lemma tForall2_and {X Y : Type} (P Q : X -> Y -> Prop) n
    (p : tens X n) (q : tens Y n) :
  tForall2 P n p q -> tForall2 Q n p q ->
  tForall2 (fun x y => P x y /\ Q x y) n p q.
Proof.
  revert p q. induction n as [|n IH]; cbn; intros p q H1 H2; [auto|].
  induction H1 as [|x y p q Hxy _ IHl]; [constructor|].
  inversion H2; subst. constructor; auto.
Qed.

(** X2.  Gibbs' inequality.  For arrays [p], [q] of identical shape
    without negative entries in which no row of [q] sums to more than the
    row of [p] at the same index (two arrays of distributions, say), the
    call returns and no entry of the result is negative. *)
Theorem kl_div_gibbs (n : nat) (p q : tens (list R) n) :
  same_shape n p q -> nonneg n p -> nonneg n q ->
  tForall2 (fun r s => rsum s <= rsum r) n p q ->
  exists d, kl_div n p q = Ok d /\ tForall (fun x => 0 <= x) n d.
Proof.
  intros Hs Hp Hq Hsum. unfold kl_div.
  rewrite (kl_raw_same_shape _ _ _ Hs). cbn.
  destruct (tall isfinite n (tzip_with kl_row_val n p q)) eqn:Hall.
  - eexists. split; [reflexivity|].
    rewrite tmap_tzip_with.
    pose proof (tForall2_sides _ _ _ _ _ _ Hs Hp Hq) as H.
    apply (tall_tzip_with_inv _ _ _ _ _ _ H) in Hall.
    pose proof (tForall2_and _ _ _ _ _ Hall Hsum) as H'.
    revert H'. apply tForall_tzip.
    intros x y (((Hlen & Hx & Hy) & Hfin) & Hle).
    pose proof (kl_row_val_finite_inv _ _ Hlen Hfin) as Hd.
    rewrite (kl_row_val_finite _ _ Hd). cbn.
    pose proof (kl_sum_lower _ _ Hx Hy Hd). lra.
  - eexists. split; [reflexivity|].
    apply tForall_tmap_const. lra.
Qed.

Lemma kl_div_gibbs_witness :
  exists d, kl_div 1 [[0.5; 0.5]; [1; 0]] [[0.25; 0.75]; [0; 1]] = Ok d
            /\ tForall (fun x => 0 <= x) 1 d.
Proof.
  apply kl_div_gibbs.
  - repeat constructor.
  - repeat constructor; lra.
  - repeat constructor; lra.
  - repeat constructor; cbn; lra.
Defined.

Lemma tmap_tmap {X Y Z : Type} (f : X -> Y) (g : Y -> Z) n (p : tens X n) :
  tmap g n (tmap f n p) = tmap (fun x => g (f x)) n p.
Proof.
  induction n as [|n IH]; cbn; [reflexivity|].
  induction p as [|x p IHp]; [reflexivity|].
  cbn. rewrite IH, IHp. reflexivity.
Qed.

Lemma tmap_id {X : Type} (f : X -> X) n (p : tens X n) :
  (forall x, f x = x) -> tmap f n p = p.
Proof.
  intros Hf. induction n as [|n IH]; cbn; [apply Hf|].
  induction p as [|x p IHp]; [reflexivity|].
  cbn. rewrite IH, IHp. reflexivity.
Qed.

Lemma mean_row_self p : mean_row p p = p.
Proof.
  unfold mean_row. induction p as [|x p IH]; [reflexivity|].
  cbn. rewrite IH. f_equal. lra.
Qed.

(** X3.  The Jensen-Shannon expression of an array with itself is the
    all-zero array, whatever the entries are. *)
Theorem jsd_self (n : nat) (p : tens (list R) n) :
  jsd n p p = Ok (tmap (fun _ => 0) n p).
Proof.
  unfold jsd.
  rewrite (bcastN_total _ (zip_with Rplus)).
  2:{ apply tForall2_diag. intros x. apply bcast_total.
      apply Forall2_true; auto. }
  cbn. rewrite tzip_with_diag, tmap_tmap.
  rewrite (tmap_id (fun x => map (Rmult 0.5) (zip_with Rplus x x)))
    by apply mean_row_self.
  rewrite kl_div_self. cbn.
  rewrite tmap_tmap.
  rewrite (bcastN_total _ Rplus) by (apply tForall2_diag; reflexivity).
  rewrite tzip_with_diag, tmap_tmap. f_equal. apply tmap_ext. intros _. lra.
Qed.

Lemma kl_summand_mean_upper x y :
  0 <= x -> 0 <= y -> kl_summand x (0.5 * (x + y)) <= x * ln 2.
Proof.
  intros Hx Hy. unfold kl_summand.
  destruct (Req_dec_T x 0) as [-> | Hx0]; [lra|].
  assert (Hx' : 0 < x) by lra.
  apply Rmult_le_compat_l; [lra|].
  assert (Hm : 0 < 0.5 * (x + y)) by lra.
  assert (Hq : 0 < x / (0.5 * (x + y))) by (apply Rdiv_lt_0_compat; lra).
  destruct (Req_dec_T (x / (0.5 * (x + y))) 2) as [-> | Hne]; [lra|].
  left. apply ln_increasing; [assumption|].
  assert (x / (0.5 * (x + y)) <= 2).
  { apply (Rmult_le_reg_r (0.5 * (x + y))); [assumption|].
    replace (x / (0.5 * (x + y)) * (0.5 * (x + y))) with x by (field; lra).
    lra. }
  lra.
Qed.

Lemma jsd_row_upper p q :
  Forall (fun x => 0 <= x) p -> Forall (fun x => 0 <= x) q ->
  length p = length q ->
  jsd_row p q <= ln 2 * (0.5 * (rsum p + rsum q)).
Proof.
  intros Hp Hq Hlen. unfold jsd_row, kl_sum, mean_row.
  enough (rsum (zip_with kl_summand p
                  (map (Rmult 0.5) (zip_with Rplus p q)))
          + rsum (zip_with kl_summand q
                    (map (Rmult 0.5) (zip_with Rplus p q)))
          <= ln 2 * (rsum p + rsum q)) by lra.
  revert q Hq Hlen. induction Hp as [|x p Hx _ IH]; intros q Hq Hlen.
  { destruct q; [cbn; lra | discriminate]. }
  destruct Hq as [|y q Hy Hq]; [discriminate|]. cbn.
  specialize (IH q Hq ltac:(cbn in Hlen; lia)).
  pose proof (kl_summand_mean_upper x y Hx Hy) as H1.
  pose proof (kl_summand_mean_upper y x Hy Hx) as H2.
  replace (0.5 * (y + x)) with (0.5 * (x + y)) in H2 by lra.
  unfold rsum in *. lra.
Qed.

Lemma ln_2_pos : 0 < ln 2.
Proof. rewrite <- ln_1. apply ln_increasing; lra. Qed.

(** X4.  For arrays of identical shape without negative entries whose rows
    sum to at most 1, no entry of the Jensen-Shannon expression exceeds
    [log 2]. *)
Theorem jsd_upper_bound (n : nat) (p q : tens (list R) n) :
  same_shape n p q -> nonneg n p -> nonneg n q ->
  tForall (fun r => rsum r <= 1) n p -> tForall (fun r => rsum r <= 1) n q ->
  exists d, jsd n p q = Ok d /\ tForall (fun x => x <= ln 2) n d.
Proof.
  intros Hs Hp Hq Hp1 Hq1.
  exists (tzip_with jsd_row n p q). split; [apply jsd_same_shape; assumption|].
  pose proof (tForall2_sides _ _ _ _ _ _ Hs Hp Hq) as H.
  pose proof (tForall2_sides _ _ _ _ _ _ H Hp1 Hq1) as H'.
  revert H'. apply tForall_tzip.
  intros x y ((Hlen & Hx & Hy) & Hx1 & Hy1).
  pose proof (jsd_row_upper x y Hx Hy Hlen) as Hu.
  pose proof ln_2_pos.
  assert (ln 2 * (0.5 * (rsum x + rsum y)) <= ln 2 * 1)
    by (apply Rmult_le_compat_l; lra).
  lra.
Qed.

Lemma jsd_upper_bound_witness :
  exists d, jsd 1 [[1; 0]; [0.5; 0.5]] [[0; 1]; [0.25; 0.75]] = Ok d
            /\ tForall (fun x => x <= ln 2) 1 d.
Proof.
  apply jsd_upper_bound.
  - repeat constructor.
  - repeat constructor; lra.
  - repeat constructor; lra.
  - repeat constructor; cbn; lra.
  - repeat constructor; cbn; lra.
Defined.

(** ** The curriculum schedule: range, clamping and errors *)

Lemma Rdiv_nonneg a b : 0 <= a -> 0 < b -> 0 <= a / b.
Proof.
  intros Ha Hb. unfold Rdiv. apply Rmult_le_pos; [assumption|].
  left. apply Rinv_0_lt_compat. assumption.
Qed.

(** X5.  With a step counter that is not negative, a scale-down that ends
    after it starts and a final value between 0 and the configured weight,
    the method raises nothing and the weight it stores lies between 0 and
    [influence_reward_weight]; once the ramp is over the weight is at
    least [inf_scale_final_val]. *)
Theorem current_influence_curriculum_weight_range (self : Policy) :
  (0 <= steps_processed self)%Z ->
  inf_scale_start self < inf_scale_end self ->
  0 <= inf_scale_final_val self <= influence_reward_weight self ->
  exists v, weight_after self = Ok v /\
            0 <= v <= influence_reward_weight self /\
            (influence_curriculum_steps self <= IZR (steps_processed self) ->
             inf_scale_final_val self <= v).
Proof.
  intros Hpos Hlen [Hf Hw]. apply IZR_le in Hpos.
  unfold weight_after, current_influence_curriculum_weight.
  destruct (Rlt_dec _ _) as [Hramp | Hramp].
  - destruct (Req_dec_T _ _) as [Hz | Hz]; [lra|]. cbn.
    eexists. split; [reflexivity|].
    set (s := IZR (steps_processed self)) in *.
    set (c := influence_curriculum_steps self) in *.
    set (w := influence_reward_weight self) in *.
    assert (Hc : 0 < c) by lra.
    assert (H0 : 0 <= s / c) by (apply Rdiv_nonneg; lra).
    assert (H1 : s / c <= 1).
    { apply (Rmult_le_reg_r c); [assumption|].
      replace (s / c * c) with s by (field; lra). lra. }
    split; [|lra]. split; [apply Rmult_le_pos; lra|].
    replace w with (1 * w) at 2 by lra.
    apply Rmult_le_compat_r; lra.
  - destruct (Rgt_dec _ _) as [Hdecay | Hdecay].
    + destruct (Req_dec_T _ _) as [Hz | Hz]; [lra|]. cbn.
      eexists. split; [reflexivity|].
      set (s := IZR (steps_processed self)) in *.
      set (a := inf_scale_start self) in *.
      set (b := inf_scale_end self) in *.
      set (f := inf_scale_final_val self) in *.
      set (w := influence_reward_weight self) in *.
      assert (H0 : 0 <= (s - a) / (b - a))
        by (apply Rdiv_nonneg; lra).
      assert (0 <= (w - f) * ((s - a) / (b - a)))
        by (apply Rmult_le_pos; lra).
      pose proof (Rmax_l f (w - (w - f) * ((s - a) / (b - a)))).
      split; [|intros _; assumption].
      split; [lra|]. apply Rmax_lub; lra.
    + cbn. eexists. split; [reflexivity|]. lra.
Qed.

Lemma current_influence_curriculum_weight_range_witness :
  exists v, weight_after (schedule_example 200) = Ok v /\
            0 <= v <= 1 /\ (100 <= 200 -> 0.5 <= v).
Proof.
  apply (current_influence_curriculum_weight_range (schedule_example 200));
    cbn; [lia | lra | lra].
Defined.

(** X6.  From [inf_scale_end] on (the ramp being over, the scale-down
    ending after it starts and the final value not above the configured
    weight) the stored weight is exactly [inf_scale_final_val]. *)
Theorem current_influence_curriculum_weight_final (self : Policy) :
  influence_curriculum_steps self <= IZR (steps_processed self) ->
  inf_scale_start self < inf_scale_end self ->
  inf_scale_end self <= IZR (steps_processed self) ->
  inf_scale_final_val self <= influence_reward_weight self ->
  weight_after self = Ok (inf_scale_final_val self).
Proof.
  intros Hramp Hlen Hend Hf.
  unfold weight_after, current_influence_curriculum_weight.
  destruct (Rlt_dec _ _); [lra|].
  destruct (Rgt_dec _ _); [|lra].
  destruct (Req_dec_T _ _); [lra|]. cbn. f_equal.
  set (s := IZR (steps_processed self)) in *.
  set (a := inf_scale_start self) in *.
  set (b := inf_scale_end self) in *.
  set (f := inf_scale_final_val self) in *.
  set (w := influence_reward_weight self) in *.
  assert (H1 : 1 <= (s - a) / (b - a)).
  { apply (Rmult_le_reg_r (b - a)); [lra|].
    replace ((s - a) / (b - a) * (b - a)) with (s - a) by (field; lra).
    lra. }
  assert ((w - f) * 1 <= (w - f) * ((s - a) / (b - a)))
    by (apply Rmult_le_compat_l; lra).
  apply Rmax_left. lra.
Qed.

Lemma current_influence_curriculum_weight_final_witness :
  weight_after (set_steps_processed 400000000 (setup_mixins CONFIG))
  = Ok 0.5.
Proof.
  apply (current_influence_curriculum_weight_final
           (set_steps_processed 400000000 (setup_mixins CONFIG)));
    cbn; lra.
Defined.

(** X7.  The weight is computed from the step counter and the
    configuration alone, never from the weight stored before: calling the
    method again without a change of the step counter gives the same
    policy, and the same exception where the first call raised. *)
Theorem current_influence_curriculum_weight_idempotent (self : Policy) :
  current_influence_curriculum_weight self
    ≫= current_influence_curriculum_weight
  = current_influence_curriculum_weight self.
Proof.
  destruct (current_influence_curriculum_weight self) as [self' | e] eqn:H;
    [|reflexivity].
  rewrite bind_Ok_l.
  rewrite (current_influence_curriculum_weight_frame _ _ H) at 1.
  exact H.
Qed.

(** X8.  With a step counter that is not negative the only exception of
    the method is the ZeroDivisionError of the decay case, raised exactly
    when the ramp is over, the counter is beyond [inf_scale_start] and
    [inf_scale_end] equals [inf_scale_start]. *)
Theorem current_influence_curriculum_weight_raises (self : Policy) (e : error) :
  (0 <= steps_processed self)%Z ->
  current_influence_curriculum_weight self = Err e <->
  e = ZeroDivisionError /\
  influence_curriculum_steps self <= IZR (steps_processed self) /\
  inf_scale_start self < IZR (steps_processed self) /\
  inf_scale_end self = inf_scale_start self.
Proof.
  intros Hpos. apply IZR_le in Hpos.
  unfold current_influence_curriculum_weight. split.
  - destruct (Rlt_dec _ _) as [Hramp | Hramp].
    { destruct (Req_dec_T _ _); [lra | discriminate]. }
    destruct (Rgt_dec _ _) as [Hdecay | Hdecay]; [|discriminate].
    destruct (Req_dec_T _ _) as [Hz | Hz]; [|discriminate].
    intros [= <-]. repeat split; lra.
  - intros (-> & Hramp & Hdecay & Heq).
    destruct (Rlt_dec _ _); [lra|].
    destruct (Rgt_dec _ _); [|lra].
    destruct (Req_dec_T _ _); [reflexivity | lra].
Qed.

Lemma current_influence_curriculum_weight_raises_witness :
  current_influence_curriculum_weight
    (set_steps_processed 200
       (setup_mixins (with_scaledown 100 100 CONFIG_SMALL)))
  = Err ZeroDivisionError.
Proof.
  apply (current_influence_curriculum_weight_raises
           (set_steps_processed 200
              (setup_mixins (with_scaledown 100 100 CONFIG_SMALL)))
           ZeroDivisionError).
  - cbn. lia.
  - cbn. repeat split; lra.
Defined.

(** ** [agent_name_to_idx] and [get_agent_visibility_multiplier] *)

(** X9.  For an agent [self_id] among the agents [0..N], the function maps
    the numbers of the [N] other agents one-to-one onto the columns
    [0..N-1].  The agent's own number is not refused: it is mapped to
    [self_id], the column of agent [self_id + 1]. *)
Theorem agent_name_to_idx_bijection (N self_id : Z) :
  (0 <= self_id <= N)%Z ->
  (forall a, (0 <= a <= N)%Z -> a <> self_id ->
             (0 <= agent_name_to_idx a self_id < N)%Z) /\
  (forall a b, a <> self_id -> b <> self_id ->
               agent_name_to_idx a self_id = agent_name_to_idx b self_id ->
               a = b) /\
  (forall j, (0 <= j < N)%Z ->
             exists a, (0 <= a <= N)%Z /\ a <> self_id /\
                       agent_name_to_idx a self_id = j) /\
  agent_name_to_idx self_id self_id = self_id /\
  agent_name_to_idx (self_id + 1) self_id = self_id.
Proof.
  intros Hself. unfold agent_name_to_idx. repeat split.
  - destruct (decide (a > self_id)%Z); lia.
  - destruct (decide (a > self_id)%Z); lia.
  - intros a b Ha Hb.
    destruct (decide (a > self_id)%Z), (decide (b > self_id)%Z); lia.
  - intros j Hj. destruct (decide (j < self_id)%Z).
    + exists j. destruct (decide (j > self_id)%Z); lia.
    + exists (j + 1)%Z. destruct (decide (j + 1 > self_id)%Z); lia.
  - destruct (decide (self_id > self_id)%Z); lia.
  - destruct (decide (self_id + 1 > self_id)%Z); lia.
Qed.

Lemma agent_name_to_idx_bijection_witness :
  (forall a, (0 <= a <= 3)%Z -> a <> 1%Z ->
             (0 <= agent_name_to_idx a 1 < 3)%Z) /\
  (forall a b, a <> 1%Z -> b <> 1%Z ->
               agent_name_to_idx a 1 = agent_name_to_idx b 1 -> a = b) /\
  (forall j, (0 <= j < 3)%Z ->
             exists a, (0 <= a <= 3)%Z /\ a <> 1%Z /\
                       agent_name_to_idx a 1 = j) /\
  agent_name_to_idx 1 1 = 1%Z /\
  agent_name_to_idx (1 + 1) 1 = 1%Z.
Proof. apply (agent_name_to_idx_bijection 3 1). lia. Defined.

Lemma mapM_Ok_Forall2 {A B : Type} (f : A -> result B) l k :
  mapM f l = Ok k <-> Forall2 (fun x y => f x = Ok y) l k.
Proof.
  revert k. induction l as [|a l IH]; intros k.
  - split.
    + intros [= <-]. constructor.
    + intros H. inversion H. reflexivity.
  - rewrite mapM_Ok_cons. split.
    + intros H. apply bind_Ok in H as (y & Hy & H).
      apply bind_Ok in H as (k' & Hk & H). injection H as <-.
      constructor; [assumption | apply IH; assumption].
    + intros H. inversion H as [|? y ? k' Hy Hk]; subst.
      rewrite Hy, bind_Ok_l. apply IH in Hk. rewrite Hk. reflexivity.
Qed.

Lemma mapM_Err_inv {A B : Type} (f : A -> result B) l e :
  mapM f l = Err e -> exists x, x ∈ l /\ f x = Err e.
Proof.
  induction l as [|a l IH]; [discriminate|].
  rewrite mapM_Ok_cons. destruct (f a) as [y|e'] eqn:Hy.
  - rewrite bind_Ok_l. destruct (mapM f l) as [k|e''] eqn:Hk; [discriminate|].
    intros [= <-]. destruct (IH eq_refl) as (x & Hx & Hfx).
    exists x. split; [right; assumption | assumption].
  - intros [= <-]. exists a. split; [left | assumption].
Qed.

Lemma py_index_Ok (size : nat) (i : Z) (k : nat) :
  py_index size i = Ok k ->
  (- Z.of_nat size <= i < Z.of_nat size)%Z /\ (k < size)%nat.
Proof.
  unfold py_index.
  destruct (decide (0 <= i < Z.of_nat size)%Z).
  - intros [= <-]. lia.
  - destruct (decide (- Z.of_nat size <= i < 0)%Z); [|discriminate].
    intros [= <-]. lia.
Qed.

Lemma py_index_Err (size : nat) (i : Z) e :
  py_index size i = Err e ->
  e = IndexError /\ ~ (- Z.of_nat size <= i < Z.of_nat size)%Z.
Proof.
  unfold py_index.
  destruct (decide (0 <= i < Z.of_nat size)%Z); [discriminate|].
  destruct (decide (- Z.of_nat size <= i < 0)%Z); [discriminate|].
  intros [= <-]. split; [reflexivity | lia].
Qed.

Lemma item_Ok {X : Type} (l : list X) (i : nat) x :
  item l i = Ok x <-> l !! i = Some x.
Proof.
  unfold item. destruct (l !! i); split; intros H; try discriminate;
    congruence.
Qed.

Lemma item_Err {X : Type} (l : list X) (i : nat) e :
  item l i = Err e <-> e = IndexError /\ l !! i = None.
Proof.
  unfold item. destruct (l !! i); split.
  - discriminate.
  - intros [_ H]. discriminate.
  - intros [= <-]. auto.
  - intros [-> _]. reflexivity.
Qed.

(** What [visibility[i, cols] = 1] leaves in one row. *)
Lemma mark_lookup (row : list R) (cols : list nat) (j : nat) :
  foldr (fun j r => <[j := 1]> r) row cols !! j
  = (if bool_decide (j ∈ cols) then (fun _ => 1) <$> row !! j
     else row !! j).
Proof.
  induction cols as [|c cols IH]; cbn; [reflexivity|].
  rewrite list_lookup_insert.
  destruct (decide (c = j /\ _)) as [[-> Hlt] | Hne].
  - rewrite bool_decide_eq_true_2 by left.
    assert (Hj : (j < length row)%nat).
    { clear -Hlt. induction cols as [|c cols IH]; cbn in *; [assumption|].
      rewrite length_insert in Hlt. auto. }
    destruct (lookup_lt_is_Some_2 row j Hj) as [x ->]. reflexivity.
  - rewrite IH. destruct (decide (c = j)) as [-> | Hcj].
    + assert (Hlen : ~ (j < length row)%nat).
      { intros Hj. apply Hne. split; [reflexivity|].
        clear -Hj. induction cols as [|c cols IH]; cbn; [assumption|].
        rewrite length_insert. assumption. }
      rewrite (lookup_ge_None_2 row j) by lia.
      destruct (bool_decide _), (bool_decide _); reflexivity.
    + destruct (bool_decide (j ∈ cols)) eqn:Hin.
      * apply bool_decide_eq_true_1 in Hin.
        rewrite bool_decide_eq_true_2 by (right; assumption). reflexivity.
      * apply bool_decide_eq_false_1 in Hin.
        rewrite bool_decide_eq_false_2; [reflexivity|].
        intros H. apply elem_of_cons in H as [-> | H]; contradiction.
Qed.

Lemma mark_length (row : list R) (cols : list nat) :
  length (foldr (fun j r => <[j := 1]> r) row cols) = length row.
Proof.
  induction cols as [|c cols IH]; cbn; [reflexivity|].
  rewrite length_insert. assumption.
Qed.

Lemma vis_agents_Ok (agent_ids : list Z) (i : nat) (v l : list Z) :
  mapM (fun a => self_id ← item agent_ids i;
                 Ok (agent_name_to_idx a self_id)) v = Ok l ->
  match agent_ids !! i with
  | Some self_id => l = map (fun a => agent_name_to_idx a self_id) v
  | None => v = [] /\ l = []
  end.
Proof.
  destruct (agent_ids !! i) as [self_id|] eqn:Hid.
  - intros H. apply mapM_Ok_Forall2 in H.
    induction H as [|a y v l Hy _ IH]; [reflexivity|].
    unfold item in Hy. rewrite Hid in Hy. injection Hy as <-.
    cbn. rewrite IH. reflexivity.
  - destruct v as [|a v].
    + intros [= <-]. auto.
    + rewrite mapM_Ok_cons. unfold item. rewrite Hid. discriminate.
Qed.

Lemma set_visible_Ok N vis i zs vis1 :
  set_visible N vis i zs = Ok vis1 ->
  exists row cols,
    vis !! i = Some row /\
    Forall2 (fun z j => py_index N z = Ok j) zs cols /\
    vis1 = <[i := foldr (fun j r => <[j := 1]> r) row cols]> vis.
Proof.
  unfold set_visible. intros H.
  apply bind_Ok in H as (row & Hrow & H).
  apply bind_Ok in H as (cols & Hcols & H). injection H as <-.
  exists row, cols. split; [apply item_Ok; assumption|].
  split; [apply mapM_Ok_Forall2; assumption | reflexivity].
Qed.

Lemma names_column_cols N self_id j (v : list Z) (cols : list nat) :
  Forall2 (fun z j' => py_index N z = Ok j')
    (map (fun a => agent_name_to_idx a self_id) v) cols ->
  bool_decide (j ∈ cols) = existsb (names_column N self_id j) v.
Proof.
  revert cols. induction v as [|a v IH]; intros cols H.
  - inversion H; subst. reflexivity.
  - cbn in H. inversion H as [|? c ? cols' Hc Hrest]; subst.
    cbn. rewrite <- (IH _ Hrest). unfold names_column. rewrite Hc.
    destruct (decide (c = j)) as [-> | Hcj].
    + rewrite (bool_decide_eq_true_2 (j = j)) by reflexivity. cbn.
      apply bool_decide_eq_true_2. left.
    + rewrite (bool_decide_eq_false_2 (c = j)) by assumption. cbn.
      destruct (bool_decide (j ∈ cols')) eqn:Hin.
      * apply bool_decide_eq_true_1 in Hin.
        apply bool_decide_eq_true_2. right. assumption.
      * apply bool_decide_eq_false_1 in Hin.
        apply bool_decide_eq_false_2.
        intros Hj. apply elem_of_cons in Hj as [-> | Hj]; contradiction.
Qed.

Lemma entry_insert_ne {X : Type} (a : list (list X)) i r j row :
  i <> r -> entry (<[i := row]> a) r j = entry a r j.
Proof.
  intros Hir. unfold entry. rewrite list_lookup_insert_ne by assumption.
  reflexivity.
Qed.

Lemma entry_insert_eq {X : Type} (a : list (list X)) i j row :
  (i < length a)%nat -> entry (<[i := row]> a) i j = row !! j.
Proof.
  intros Hi. unfold entry. rewrite list_lookup_insert_eq by assumption.
  reflexivity.
Qed.

Lemma elem_of_map_intro {A B : Type} (f : A -> B) (l : list A) x :
  x ∈ l -> f x ∈ map f l.
Proof. induction 1; cbn; [left | right; assumption]. Qed.

Lemma Forall2_elem_l {A B : Type} (P : A -> B -> Prop) l k x :
  Forall2 P l k -> x ∈ l -> exists y, P x y.
Proof.
  induction 1 as [|a b l k Hab _ IH]; intros Hx; [inversion Hx|].
  apply elem_of_cons in Hx as [-> | Hx]; eauto.
Qed.

(** The loop started at step [i] on the array [vis]: what a normal return
    says about the rows that were left and about the result. *)
Lemma visibility_loop_Ok N agent_ids rows :
  forall i vis vis',
  visibility_loop N agent_ids i rows vis = Ok vis' ->
  (rows <> [] -> (i + length rows <= length vis)%nat) /\
  (forall k row a, rows !! k = Some row -> a ∈ row ->
     exists self_id, agent_ids !! (i + k)%nat = Some self_id /\
       (- Z.of_nat N <= agent_name_to_idx a self_id < Z.of_nat N)%Z) /\
  length vis' = length vis /\
  (forall r, length <$> vis' !! r = length <$> vis !! r) /\
  forall r j,
    entry vis' r j
    = match (if decide (i <= r)%nat then rows !! (r - i)%nat else None),
            agent_ids !! r with
      | Some row, Some self_id =>
          if existsb (names_column N self_id j) row
          then (fun _ => 1) <$> entry vis r j
          else entry vis r j
      | _, _ => entry vis r j
      end.
Proof.
  induction rows as [|v rows IH]; intros i vis vis' H.
  - injection H as <-. repeat split; try congruence.
    + intros k row a Hk. discriminate.
    + intros r j. destruct (decide (i <= r)%nat); [|reflexivity].
      rewrite lookup_nil. reflexivity.
  - cbn in H. apply bind_Ok in H as (l & Hl & H).
    apply bind_Ok in H as (vis1 & Hset & H).
    apply vis_agents_Ok in Hl.
    apply set_visible_Ok in Hset as (row & cols & Hrow & Hcols & ->).
    apply IH in H as (HA & HB & HC & HR & HD).
    rewrite length_insert in HA, HC.
    pose proof (lookup_lt_Some _ _ _ Hrow) as Hi.
    split; [|split; [|split; [|split]]].
    + intros _. destruct rows as [|v' rows]; [cbn; lia|].
      specialize (HA ltac:(discriminate)). cbn in *. lia.
    + intros [|k] row0 a Hk Ha.
      * injection Hk as <-. rewrite Nat.add_0_r.
        destruct (agent_ids !! i) as [self_id|].
        -- exists self_id. split; [reflexivity|]. subst l.
           apply (elem_of_map_intro (fun a => agent_name_to_idx a self_id))
             in Ha.
           destruct (Forall2_elem_l _ _ _ _ Hcols Ha) as (c & Hc).
           apply py_index_Ok in Hc. tauto.
        -- destruct Hl as [-> _]. inversion Ha.
      * cbn in Hk. replace (i + S k)%nat with (S i + k)%nat by lia.
        eapply HB; eassumption.
    + assumption.
    + intros r. rewrite HR. destruct (decide (i = r)) as [<- | Hir].
      * rewrite list_lookup_insert_eq by assumption. rewrite Hrow. cbn.
        rewrite mark_length. reflexivity.
      * rewrite list_lookup_insert_ne by assumption. reflexivity.
    + intros r j. rewrite HD.
      destruct (decide (S i <= r)%nat) as [Hlt | Hge].
      * destruct (decide (i <= r)%nat); [|lia].
        replace (r - i)%nat with (S (r - S i)) by lia. cbn.
        rewrite entry_insert_ne by lia. reflexivity.
      * destruct (decide (i <= r)%nat) as [Hle | Hnle].
        -- assert (r = i) by lia. subst r.
           rewrite Nat.sub_diag. cbn.
           rewrite entry_insert_eq by assumption.
           rewrite mark_lookup. unfold entry at 1 2 3. rewrite Hrow. cbn.
           destruct (agent_ids !! i) as [self_id|].
           ++ subst l. rewrite (names_column_cols _ _ _ _ _ Hcols).
              reflexivity.
           ++ destruct Hl as [-> ->]. inversion Hcols; subst. reflexivity.
        -- rewrite entry_insert_ne by lia. reflexivity.
Qed.

Lemma elem_of_map_inv {A B : Type} (f : A -> B) (l : list A) y :
  y ∈ map f l -> exists x, y = f x /\ x ∈ l.
Proof.
  induction l as [|a l IH]; cbn; intros H; [inversion H|].
  apply elem_of_cons in H as [-> | H].
  - exists a. split; [reflexivity | left].
  - destruct (IH H) as (x & -> & Hx). exists x. split; [reflexivity|].
    right. assumption.
Qed.

Lemma Forall2_map_r_intro {A B : Type} (P : A -> B -> Prop) (g : A -> B) l :
  (forall x, x ∈ l -> P x (g x)) -> Forall2 P l (map g l).
Proof.
  induction l as [|a l IH]; intros H; cbn; constructor.
  - apply H. left.
  - apply IH. intros x Hx. apply H. right. assumption.
Qed.

Lemma visibility_loop_total N agent_ids rows :
  forall i vis,
  (rows <> [] -> (i + length rows <= length vis)%nat) ->
  (forall k row a, rows !! k = Some row -> a ∈ row ->
     exists self_id, agent_ids !! (i + k)%nat = Some self_id /\
       (- Z.of_nat N <= agent_name_to_idx a self_id < Z.of_nat N)%Z) ->
  exists vis', visibility_loop N agent_ids i rows vis = Ok vis'.
Proof.
  induction rows as [|v rows IH]; intros i vis Hlen Hrows; [cbn; eauto|].
  specialize (Hlen ltac:(discriminate)). cbn in Hlen.
  assert (Hl : exists l,
    mapM (fun a => self_id ← item agent_ids i;
                   Ok (agent_name_to_idx a self_id)) v = Ok l /\
    Forall (fun z => (- Z.of_nat N <= z < Z.of_nat N)%Z) l).
  { destruct v as [|a v]; [exists []; split; [reflexivity | constructor]|].
    destruct (Hrows 0%nat (a :: v) a eq_refl ltac:(left))
      as (self_id & Hid & _).
    rewrite Nat.add_0_r in Hid.
    exists (map (fun a => agent_name_to_idx a self_id) (a :: v)). split.
    - apply mapM_Ok_Forall2, Forall2_map_r_intro.
      intros x _. unfold item. rewrite Hid. reflexivity.
    - apply Forall_forall. intros z Hz.
      apply elem_of_map_inv in Hz as (x & -> & Hx).
      destruct (Hrows 0%nat (a :: v) x eq_refl Hx) as (self' & Hid' & Hr).
      rewrite Nat.add_0_r in Hid'. congruence. }
  destruct Hl as (l & Hl & Hrange).
  cbn. rewrite Hl, bind_Ok_l. unfold set_visible.
  destruct (lookup_lt_is_Some_2 vis i ltac:(lia)) as [row Hrow].
  apply item_Ok in Hrow. rewrite Hrow, bind_Ok_l.
  destruct (mapM_Ok_total (py_index N) (fun _ => True) l) as (cols & Hc & _).
  { eapply Forall_impl; [exact Hrange|]. intros z Hz.
    destruct (py_index_total N z Hz) as (k & Hk & _). eauto. }
  rewrite Hc, !bind_Ok_l. apply IH.
  - intros _. rewrite length_insert. lia.
  - intros k row0 a Hk Ha.
    replace (S i + k)%nat with (i + S k)%nat by lia.
    apply (Hrows (S k) row0 a); assumption.
Qed.

Lemma visibility_loop_Err N agent_ids rows :
  forall i vis e,
  visibility_loop N agent_ids i rows vis = Err e -> e = IndexError.
Proof.
  induction rows as [|v rows IH]; intros i vis e H; [discriminate|].
  cbn in H.
  destruct (mapM _ v) as [l|e1] eqn:Hl.
  2:{ injection H as <-. apply mapM_Err_inv in Hl as (a & _ & Ha).
      destruct (item agent_ids i) as [s|e2] eqn:Hs; [discriminate|].
      injection Ha as <-. apply item_Err in Hs. tauto. }
  rewrite bind_Ok_l in H.
  destruct (set_visible N vis i l) as [vis1|e1] eqn:Hset.
  2:{ injection H as <-. unfold set_visible in Hset.
      destruct (item vis i) as [row|e2] eqn:Hrow.
      - rewrite bind_Ok_l in Hset.
        destruct (mapM (py_index N) l) as [cols|e3] eqn:Hc; [discriminate|].
        injection Hset as <-. apply mapM_Err_inv in Hc as (z & _ & Hz).
        apply py_index_Err in Hz. tauto.
      - injection Hset as <-. apply item_Err in Hrow. tauto. }
  rewrite bind_Ok_l in H. eapply IH; eassumption.
Qed.

Lemma entry_zeros (B N i j : nat) :
  (i < B)%nat -> (j < N)%nat ->
  entry (replicate B (replicate N 0)) i j = Some 0.
Proof.
  intros Hi Hj. unfold entry.
  rewrite lookup_replicate_2 by assumption. cbn.
  apply lookup_replicate_2. assumption.
Qed.

(** X10.  When the function returns, the result has one row per step of
    [obs] and one column per other agent, and entry [(i, j)] is 1 if row
    [i] of the field names an agent that [agent_name_to_idx] sends to
    column [j] (a negative index counting from the last column), and 0
    otherwise; rows of steps that the field does not cover stay 0. *)
Theorem get_agent_visibility_multiplier_entries
    (trajectory : gmap string value) (num_other_agents : nat)
    (agent_ids : list Z) (visibility : list (list R)) :
  get_agent_visibility_multiplier trajectory num_other_agents agent_ids
  = Ok visibility ->
  exists obs rows,
    trajectory !! "obs" = Some obs /\
    trajectory !! VISIBILITY = Some (VInt2 rows) /\
    rect2 (len obs) num_other_agents visibility /\
    forall i j, (i < len obs)%nat -> (j < num_other_agents)%nat ->
      entry visibility i j
      = Some (if listed num_other_agents agent_ids rows i j
              then 1 else 0).
Proof.
  unfold get_agent_visibility_multiplier. intros H.
  apply bind_Ok in H as (obs & Hobs & H).
  apply bind_Ok in H as (v & Hv & H).
  apply bind_Ok in H as (rows & Hrows & H).
  destruct v; try discriminate. injection Hrows as ->.
  apply getitem_Ok in Hobs, Hv.
  apply visibility_loop_Ok in H as (_ & _ & Hlen & Hrow & Hentry).
  rewrite length_replicate in Hlen.
  exists obs, rows. repeat split; try assumption.
  - apply Forall_lookup. intros r row Hr.
    specialize (Hrow r). rewrite Hr in Hrow. cbn in Hrow.
    assert (Hlt : (r < len obs)%nat)
      by (rewrite <- Hlen; eapply lookup_lt_Some; eassumption).
    rewrite lookup_replicate_2 in Hrow by assumption. cbn in Hrow.
    rewrite length_replicate in Hrow. congruence.
  - intros i j Hi Hj. rewrite Hentry.
    destruct (decide (0 <= i)%nat); [|lia].
    rewrite Nat.sub_0_r, (entry_zeros _ _ _ _ Hi Hj). unfold listed.
    destruct (rows !! i) as [row|]; [|reflexivity].
    destruct (agent_ids !! i) as [self_id|]; [|reflexivity].
    destruct (existsb _ row); reflexivity.
Qed.

Lemma get_agent_visibility_multiplier_entries_witness :
  exists obs rows,
    visibility_example !! "obs" = Some obs /\
    visibility_example !! VISIBILITY = Some (VInt2 rows) /\
    rect2 (len obs) 2 [[1; 1]; [1; 0]] /\
    forall i j, (i < len obs)%nat -> (j < 2)%nat ->
      entry [[1; 1]; [1; 0]] i j
      = Some (if listed 2 [0; 1]%Z rows i j then 1 else 0).
Proof.
  apply (get_agent_visibility_multiplier_entries visibility_example 2
           [0; 1]%Z).
  reflexivity.
Defined.

(** X11.  On a trajectory with [obs] and with the agents in sight given
    as rows of integers, the function returns exactly when the field has
    no more rows than [obs] and every agent named in row [i] has
    [agent_ids[i]] defined and a column between [-N] and [N - 1]; an
    empty row does not look at [agent_ids].  Any other input of this kind
    raises IndexError, and nothing else. *)
Theorem get_agent_visibility_multiplier_returns
    (trajectory : gmap string value) (num_other_agents : nat)
    (agent_ids : list Z) (obs : value) (rows : list (list Z)) :
  trajectory !! "obs" = Some obs ->
  trajectory !! VISIBILITY = Some (VInt2 rows) ->
  ((exists visibility,
      get_agent_visibility_multiplier trajectory num_other_agents agent_ids
      = Ok visibility)
   <-> visibility_fits (len obs) num_other_agents agent_ids rows) /\
  (forall e,
      get_agent_visibility_multiplier trajectory num_other_agents agent_ids
      = Err e -> e = IndexError).
Proof.
  intros Hobs Hv. apply getitem_Ok in Hobs, Hv.
  unfold get_agent_visibility_multiplier.
  rewrite Hobs, bind_Ok_l, Hv, !bind_Ok_l. split; [split|].
  - intros [vis H].
    apply visibility_loop_Ok in H as (Hlen & Hrows & _).
    rewrite length_replicate in Hlen. split.
    + destruct rows as [|v rows]; [cbn; lia|].
      specialize (Hlen ltac:(discriminate)). cbn in *. lia.
    + intros i row a Hi Ha. apply (Hrows i row a Hi Ha).
  - intros [Hlen Hrows]. apply visibility_loop_total.
    + intros _. rewrite length_replicate. cbn. lia.
    + intros k row a Hk Ha. apply (Hrows k row a Hk Ha).
  - intros e. apply visibility_loop_Err.
Qed.

Lemma get_agent_visibility_multiplier_returns_witness :
  ((exists visibility,
      get_agent_visibility_multiplier visibility_example 2 [0; 1]%Z
      = Ok visibility)
   <-> visibility_fits 2 2 [0; 1]%Z [[1; 2]; [0]]%Z) /\
  (forall e,
      get_agent_visibility_multiplier visibility_example 2 [0; 1]%Z
      = Err e -> e = IndexError).
Proof.
  apply (get_agent_visibility_multiplier_returns visibility_example 2
           [0; 1]%Z (VFloat2 [[0]; [0]]) [[1; 2]; [0]]%Z);
    reflexivity.
Defined.

(** ** The two arrays of distributions in [compute_influence_reward] *)

Lemma rsum_map_div (l : list R) (s : R) :
  rsum (map (fun v => v / s) l) = rsum l / s.
Proof.
  unfold rsum. induction l as [|x l IH]; cbn; [lra|].
  rewrite IH. lra.
Qed.

Lemma rsum_pos (l : list R) :
  Forall (fun x => 0 < x) l -> l <> [] -> 0 < rsum l.
Proof.
  unfold rsum. induction 1 as [|x l Hx Hl IH]; [congruence|]. intros _.
  cbn. destruct l as [|y l]; [cbn; lra|].
  specialize (IH ltac:(discriminate)). lra.
Qed.

Lemma rsum_nonneg (l : list R) :
  Forall (fun x => 0 <= x) l -> 0 <= rsum l.
Proof.
  unfold rsum. induction 1 as [|x l Hx Hl IH]; cbn; lra.
Qed.

Lemma normalize_distribution (x : list R) :
  Forall (fun v => 0 < v) x -> x <> [] -> distribution (normalize x).
Proof.
  intros Hpos Hne. pose proof (rsum_pos x Hpos Hne) as Hs.
  unfold distribution, normalize. split.
  - apply Forall_fmap. eapply Forall_impl; [exact Hpos|].
    intros v Hv. cbn. apply Rdiv_lt_0_compat; assumption.
  - rewrite rsum_map_div. field. lra.
Qed.

Lemma softmax_pos (x : list R) : Forall (fun v => 0 < v) (softmax x).
Proof.
  unfold softmax. destruct x as [|a x]; [constructor|].
  assert (Hs : 0 < rsum (map exp (a :: x))).
  { apply rsum_pos; [|discriminate].
    apply Forall_fmap, Forall_forall. intros v _. apply exp_pos. }
  apply Forall_fmap, Forall_fmap, Forall_forall. intros v _. cbn.
  apply Rdiv_lt_0_compat; [apply exp_pos | exact Hs].
Qed.

Lemma softmax_distribution (x : list R) :
  x <> [] -> distribution (softmax x).
Proof.
  intros Hne. split; [apply softmax_pos|].
  unfold softmax. rewrite rsum_map_div.
  assert (0 < rsum (map exp x)).
  { apply rsum_pos; [|destruct x; [congruence | discriminate]].
    apply Forall_fmap, Forall_forall. intros v _. apply exp_pos. }
  field. lra.
Qed.

Lemma normalize_softmax_distribution (x : list R) :
  x <> [] -> distribution (normalize (softmax x)).
Proof.
  intros Hne. apply normalize_distribution; [apply softmax_pos|].
  destruct x; [congruence | discriminate].
Qed.

Lemma nonempty_length {X : Type} (l : list X) n :
  length l = n -> (1 <= n)%nat -> l <> [].
Proof. intros <- Hn ->. cbn in Hn. lia. Qed.

Lemma Forall_map_inv {X Y : Type} (P : Y -> Prop) (f : X -> Y) l :
  Forall P (map f l) -> Forall (fun x => P (f x)) l.
Proof.
  induction l as [|x l IH]; cbn; intros H; [constructor|].
  inversion H; subst. constructor; auto.
Qed.

(** X12.  On a trajectory laid out as in the data model, the predictions
    under the actions that were taken (lines 200 to 205) come out as an
    array of shape [B, N, A] every row of which is a probability
    distribution: positive entries that sum to 1. *)
Theorem true_probs_distributions (policy : Policy)
    (trajectory : gmap string value) (B A : nat) :
  data_model policy trajectory B A ->
  exists true_probs,
    true_probs_of policy trajectory = Ok true_probs /\
    rect3 B (num_other_agents policy) A true_probs /\
    Forall (Forall distribution) true_probs.
Proof.
  intros Hdm. pose proof (dm_own_actions _ _ _ _ Hdm) as HA.
  destruct (true_probs_of_total _ _ _ _ Hdm) as (tp & Htp & Hrect).
  exists tp. split; [assumption|]. split; [assumption|].
  unfold true_probs_of in Htp.
  apply bind_Ok in Htp as (c & _ & Htp).
  apply bind_Ok in Htp as (obs & _ & Htp).
  apply bind_Ok in Htp as (acts & _ & Htp).
  apply bind_Ok in Htp as (t0 & _ & Htp).
  apply bind_Ok in Htp as (t1 & _ & Htp). injection Htp as <-.
  destruct Hrect as [_ Hrows].
  apply Forall_map_inv, Forall_map_inv in Hrows.
  apply Forall_fmap, Forall_fmap.
  eapply Forall_impl; [exact Hrows|]. intros blk [_ Hblk]. cbn in *.
  apply Forall_map_inv, Forall_map_inv in Hblk.
  apply Forall_fmap, Forall_fmap.
  eapply Forall_impl; [exact Hblk|]. intros r Hr. cbn in *.
  apply normalize_softmax_distribution.
  rewrite normalize_length, softmax_length in Hr.
  apply (nonempty_length _ A); assumption.
Qed.

Lemma true_probs_distributions_witness :
  exists true_probs,
    true_probs_of (setup_mixins CONFIG) example_trajectory = Ok true_probs /\
    rect3 1 (num_other_agents (setup_mixins CONFIG)) 2 true_probs /\
    Forall (Forall distribution) true_probs.
Proof.
  apply (true_probs_distributions (setup_mixins CONFIG) example_trajectory
           1 2 example_data_model).
Defined.

Lemma zip_with_Rplus_pos (r s : list R) :
  Forall (fun x => 0 < x) r -> Forall (fun x => 0 <= x) s ->
  Forall (fun x => 0 < x) (zip_with Rplus r s).
Proof.
  intros Hr. revert s. induction Hr as [|x r Hx _ IH]; intros s Hs;
    [constructor|].
  destruct Hs as [|y s Hy Hs]; cbn; constructor; [lra | auto].
Qed.

Lemma sum_rows_nonneg width (block : list (list R)) :
  Forall (Forall (fun x => 0 < x)) block ->
  Forall (fun x => 0 <= x) (sum_rows width block).
Proof.
  unfold sum_rows. induction 1 as [|r block Hr _ IH]; cbn.
  - apply Forall_forall. intros x Hx.
    apply elem_of_replicate in Hx as [-> _]. lra.
  - eapply Forall_impl; [apply zip_with_Rplus_pos; eassumption|].
    intros x Hx. cbn in Hx. lra.
Qed.

Lemma sum_rows_pos width (block : list (list R)) :
  Forall (Forall (fun x => 0 < x)) block -> block <> [] ->
  Forall (fun x => 0 < x) (sum_rows width block).
Proof.
  intros H Hne. destruct H as [|r block Hr Hblock]; [congruence|].
  unfold sum_rows. cbn. apply zip_with_Rplus_pos; [assumption|].
  apply sum_rows_nonneg. assumption.
Qed.

(** Rows of [width] positive entries. *)
Lemma marginalize_distributions_rows policy trajectory B A :
  data_model policy trajectory B A ->
  (B = 1 \/ num_other_agents policy = 1)%nat ->
  exists m,
    marginalize_predictions_over_own_actions policy trajectory
    = Ok (map (map normalize) m) /\
    length m = B /\
    Forall (fun blk =>
              length blk = (num_other_agents policy * B)%nat /\
              Forall (fun r => length r = A /\ Forall (fun x => 0 < x) r)
                     blk) m.
Proof.
  intros [HB HA HN _ _ _ (l & Hl & Hlrect) (c & Hc & [Hcl Hcrows]) _] Hshape.
  set (N := num_other_agents policy) in *.
  unfold marginalize_predictions_over_own_actions.
  rewrite (proj2 (getitem_Ok _ _ _) Hl), !bind_Ok_l.
  rewrite (proj2 (getitem_Ok _ _ _) Hc), bind_Ok_l.
  cbn [flat_rows]. rewrite bind_Ok_l.
  assert (Hprobs : rect2 B A (map normalize (map softmax l))).
  { apply rect2_map_rows; [apply normalize_length|].
    apply rect2_map_rows; [apply softmax_length | assumption]. }
  assert (Hppos : Forall (Forall (fun x => 0 < x))
                    (map normalize (map softmax l))).
  { destruct Hlrect as [_ Hlrows].
    apply Forall_fmap, Forall_fmap. eapply Forall_impl; [exact Hlrows|].
    intros r Hr. cbn.
    apply normalize_softmax_distribution.
    apply (nonempty_length _ A); assumption. }
  rewrite (last_dim_rect B A _ HB Hprobs). fold N.
  destruct (mapM_Ok_total (reshape_blocks N A) (rect3 N A A)
              (map (fun r => mjoin (mjoin r)) c))
    as (cp & Hcp & HPcp & Hlcp).
  { apply Forall_fmap. eapply Forall_impl; [exact Hcrows|]. intros r Hr.
    cbn. apply reshape_blocks_total; [assumption | assumption|].
    apply rect3_mjoin in Hr. apply length_mjoin_rect in Hr.
    rewrite Hr. lia. }
  rewrite length_map in Hlcp.
  destruct c as [|c0 c]; [cbn in Hcl; lia|].
  cbn [map]. cbn [map] in Hcp. rewrite Hcp, bind_Ok_l.
  assert (Hm1 : length (map (map (sum_rows A))
                          (map (map (map softmax)) cp)) = B /\
                Forall (fun blk =>
                          length blk = N /\
                          Forall (fun r => length r = A
                                           /\ Forall (fun x => 0 < x) r) blk)
                  (map (map (sum_rows A)) (map (map (map softmax)) cp))).
  { split; [rewrite !length_map, Hlcp; exact Hcl|].
    apply Forall_fmap, Forall_fmap.
    eapply Forall_impl; [exact HPcp|]. intros blocks [Hb1 Hb2]. cbn.
    split; [rewrite !length_map; assumption|].
    apply Forall_fmap, Forall_fmap.
    eapply Forall_impl; [exact Hb2|]. intros block Hblock. cbn. split.
    - apply sum_rows_length. apply (rect2_map_rows softmax A A block).
      + apply softmax_length.
      + exact Hblock.
    - apply sum_rows_pos.
      + apply Forall_fmap, Forall_forall. intros r _. apply softmax_pos.
      + destruct Hblock as [Hlb _]. destruct block; [cbn in Hlb; lia|].
        discriminate. }
  pose proof (rect2_tile N B A _ Hprobs) as Htile.
  assert (Htpos : Forall (Forall (fun x => 0 < x))
                    (mjoin (replicate N (map normalize (map softmax l))))).
  { clear -Hppos. induction N as [|n IH]; [constructor|].
    change (mjoin (replicate (S n) (map normalize (map softmax l))))
      with (map normalize (map softmax l)
            ++ mjoin (replicate n (map normalize (map softmax l)))).
    apply Forall_app. split; assumption. }
  destruct (bcast_Ok_total
              (bcast (bcast (fun x y : R => Ok (x * y))))
              (fun blk =>
                 length blk = (N * B)%nat /\
                 Forall (fun r => length r = A
                                  /\ Forall (fun x => 0 < x) r) blk)
              (map (map (sum_rows A)) (map (map (map softmax)) cp))
              [mjoin (replicate N (map normalize (map softmax l)))])
    as (m & Hm & HPm & Hlm).
  { right. right. reflexivity. }
  { intros x y Hx Hy. apply list_elem_of_singleton in Hy. subst y.
    destruct Hm1 as [_ Hm1]. rewrite Forall_forall in Hm1.
    destruct (Hm1 _ Hx) as [Hx1 Hx2]. destruct Htile as [Ht1 Ht2].
    destruct (bcast_Ok_total (bcast (fun x y : R => Ok (x * y)))
                (fun r => length r = A /\ Forall (fun x => 0 < x) r) x
                (mjoin (replicate N (map normalize (map softmax l)))))
      as (z & Hz & HPz & Hlz).
    - rewrite Hx1, Ht1. destruct Hshape as [HB1 | HN1]; [rewrite HB1; lia|].
      right. left. exact HN1.
    - intros r s Hr Hs.
      rewrite Forall_forall in Hx2. rewrite Forall_forall in Ht2.
      rewrite Forall_forall in Htpos.
      destruct (Hx2 _ Hr) as [Hrl Hrp]. specialize (Ht2 _ Hs).
      specialize (Htpos _ Hs).
      destruct (bcast_Ok_total (fun x y : R => Ok (x * y))
                  (fun z => 0 < z) r s) as (w & Hw & HPw & Hlw).
      + left. congruence.
      + intros a b Ha Hb. exists (a * b). split; [reflexivity|].
        rewrite Forall_forall in Hrp. rewrite Forall_forall in Htpos.
        apply Rmult_lt_0_compat; auto.
      + exists w. split; [assumption|]. split; [|assumption].
        rewrite Hlw. destruct (decide (length r = 1%nat)); congruence.
    - exists z. split; [assumption|]. split; [|assumption].
      rewrite Hlz, Hx1, Ht1.
      destruct (decide (N = 1%nat)) as [Heq | Hne]; [reflexivity|].
      destruct Hshape as [HB1 | HN1]; [rewrite HB1; lia | contradiction]. }
  assert (Hm' : bcastN (fun x y : R => Ok (x * y)) 3
                  (map (map (sum_rows A)) (map (map (map softmax)) cp))
                  (tile_1_n_1 (map normalize (map softmax l)) N) = Ok m)
    by exact Hm.
  rewrite Hm', bind_Ok_l. exists m. split; [reflexivity|].
  split; [|assumption].
  destruct Hm1 as [Hm1l _]. rewrite Hlm, Hm1l.
  destruct (decide (B = 1%nat)) as [HB1|]; [rewrite HB1|]; reflexivity.
Qed.

(** X13.  On a trajectory laid out as in the data model, with a single
    step or a single other agent, the marginal predictions come out with
    rows of [A] entries every one of which is a probability distribution;
    the second axis has length [N * B], not [N]. *)
Theorem marginalize_distributions (policy : Policy)
    (trajectory : gmap string value) (B A : nat) :
  data_model policy trajectory B A ->
  (B = 1 \/ num_other_agents policy = 1)%nat ->
  exists marginal_probs,
    marginalize_predictions_over_own_actions policy trajectory
    = Ok marginal_probs /\
    rect3 B (num_other_agents policy * B) A marginal_probs /\
    Forall (Forall distribution) marginal_probs.
Proof.
  intros Hdm Hshape. pose proof (dm_own_actions _ _ _ _ Hdm) as HA.
  destruct (marginalize_distributions_rows _ _ _ _ Hdm Hshape)
    as (m & Hm & Hlen & Hrows).
  exists (map (map normalize) m). split; [assumption|]. split.
  - split; [rewrite length_map; assumption|].
    apply Forall_fmap. eapply Forall_impl; [exact Hrows|].
    intros blk [Hl Hblk]. cbn. split; [rewrite length_map; assumption|].
    apply Forall_fmap. eapply Forall_impl; [exact Hblk|].
    intros r [Hr _]. cbn. rewrite normalize_length. assumption.
  - apply Forall_fmap. eapply Forall_impl; [exact Hrows|].
    intros blk [_ Hblk]. cbn.
    apply Forall_fmap. eapply Forall_impl; [exact Hblk|].
    intros r [Hr Hpos]. cbn. apply normalize_distribution; [assumption|].
    apply (nonempty_length _ A); assumption.
Qed.

Lemma marginalize_distributions_witness :
  exists marginal_probs,
    marginalize_predictions_over_own_actions (setup_mixins CONFIG)
      example_trajectory = Ok marginal_probs /\
    rect3 1 (num_other_agents (setup_mixins CONFIG) * 1) 2 marginal_probs /\
    Forall (Forall distribution) marginal_probs.
Proof.
  apply (marginalize_distributions (setup_mixins CONFIG) example_trajectory
           1 2 example_data_model).
  left. reflexivity.
Defined.

(** ** The influence reward is not negative *)

Lemma distributions_intro d0 d1 A (a : list (list (list R))) :
  rect3 d0 d1 A a -> Forall (Forall distribution) a ->
  distributions d0 d1 A a.
Proof.
  intros [Hl Hrows] Hd. split; [assumption|].
  apply Forall_forall. intros blk Hin.
  rewrite Forall_forall in Hrows. destruct (Hrows _ Hin) as [Hb1 Hb2].
  rewrite Forall_forall in Hd. specialize (Hd _ Hin).
  split; [assumption|]. apply Forall_forall. intros r Hr.
  rewrite Forall_forall in Hb2. rewrite Forall_forall in Hd. auto.
Qed.

Lemma bcast_rows_pred_total {X Y Z : Type}
    (f : list X -> list Y -> result Z)
    (P1 : list X -> Prop) (P2 : list Y -> Prop) (Q : Z -> Prop) B N1 N2
    (p : list (list (list X))) (q : list (list (list Y))) :
  length p = B ->
  Forall (fun blk => length blk = N1 /\ Forall P1 blk) p ->
  length q = B ->
  Forall (fun blk => length blk = N2 /\ Forall P2 blk) q ->
  (N1 = N2 \/ N1 = 1 \/ N2 = 1)%nat ->
  (forall r s, P1 r -> P2 s -> exists z, f r s = Ok z /\ Q z) ->
  exists zs, bcast (bcast f) p q = Ok zs /\ length zs = B /\
             Forall (fun row => length row = bdim N1 N2 /\ Forall Q row) zs.
Proof.
  intros Hp1 Hp2 Hq1 Hq2 Hfit Hf.
  destruct (bcast_Ok_total (bcast f)
              (fun row => length row = bdim N1 N2 /\ Forall Q row) p q)
    as (zs & Hzs & HP & Hl).
  - left. congruence.
  - intros x y Hx Hy. rewrite Forall_forall in Hp2.
    rewrite Forall_forall in Hq2.
    destruct (Hp2 _ Hx) as [Hx1 Hx2]. destruct (Hq2 _ Hy) as [Hy1 Hy2].
    destruct (bcast_Ok_total f Q x y) as (z & Hz & HPz & Hlz).
    + rewrite Hx1, Hy1. assumption.
    + intros r s Hr Hs. rewrite Forall_forall in Hx2.
      rewrite Forall_forall in Hy2. auto.
    + exists z. split; [assumption|]. split; [|assumption].
      rewrite Hlz, Hx1, Hy1. reflexivity.
  - exists zs. split; [assumption|]. split; [|assumption].
    rewrite Hl. destruct (decide (length p = 1%nat)); congruence.
Qed.

Lemma term_defined_pos (r s : list R) :
  length r = length s ->
  Forall (fun x => 0 < x) r -> Forall (fun x => 0 < x) s ->
  Forall2 term_defined r s.
Proof.
  intros Hlen Hr. revert s Hlen.
  induction Hr as [|x r Hx _ IH]; intros [|y s] Hlen Hs; try discriminate;
    constructor.
  - inversion Hs; subst. right. split; [lra|].
    apply Rdiv_lt_0_compat; assumption.
  - inversion Hs; subst. apply IH; [cbn in Hlen; lia | assumption].
Qed.

Lemma Forall_pos_nonneg (r : list R) :
  Forall (fun x => 0 < x) r -> Forall (fun x => 0 <= x) r.
Proof.
  intros H. eapply Forall_impl; [exact H|]. intros x Hx. cbn in Hx. lra.
Qed.

(** Gibbs' inequality on one pair of rows. *)
Lemma kl_row_distributions A (r s : list R) :
  length r = A /\ distribution r -> length s = A /\ distribution s ->
  exists z, kl_row r s = Ok z /\ exists v, z = Finite v /\ 0 <= v.
Proof.
  intros [Hr [Hrp Hrs]] [Hs [Hsp Hss]].
  rewrite kl_row_same_length by congruence.
  pose proof (term_defined_pos r s ltac:(congruence) Hrp Hsp) as Hd.
  rewrite (kl_row_val_finite _ _ Hd).
  eexists. split; [reflexivity|]. eexists. split; [reflexivity|].
  pose proof (kl_sum_lower r s (Forall_pos_nonneg _ Hrp)
                (Forall_pos_nonneg _ Hsp) Hd). lra.
Qed.

Lemma kl_div_distributions B N1 N2 A (p q : list (list (list R))) :
  distributions B N1 A p -> distributions B N2 A q ->
  (N1 = N2 \/ N1 = 1 \/ N2 = 1)%nat ->
  exists d, kl_div 2 p q = Ok d /\ rect2 B (bdim N1 N2) d /\
            Forall (Forall (fun x => 0 <= x)) d.
Proof.
  intros [Hp1 Hp2] [Hq1 Hq2] Hfit.
  destruct (bcast_rows_pred_total kl_row _ _
              (fun z => exists v, z = Finite v /\ 0 <= v)
              B N1 N2 p q Hp1 Hp2 Hq1 Hq2 Hfit (kl_row_distributions A))
    as (kl & Hkl & Hl & Hrows).
  unfold kl_div, kl_raw.
  assert (Hkl' : bcastN kl_row 2 p q = Ok kl) by exact Hkl.
  rewrite Hkl', bind_Ok_l.
  assert (Hrect : rect2 B (bdim N1 N2) kl).
  { split; [assumption|]. eapply Forall_impl; [exact Hrows|].
    intros row [Hrow _]. exact Hrow. }
  eexists. split; [reflexivity|].
  destruct (tall isfinite 2 kl).
  - split; [apply (rect2_map _ _ _ _ Hrect)|].
    cbn. apply Forall_fmap. eapply Forall_impl; [exact Hrows|].
    intros row [_ Hrow]. cbn. apply Forall_fmap.
    eapply Forall_impl; [exact Hrow|]. intros z (v & -> & Hv). exact Hv.
  - split; [apply (rect2_map _ _ _ _ Hrect)|].
    cbn. apply Forall_fmap, Forall_forall. intros row _. cbn.
    apply Forall_fmap, Forall_forall. intros z _. cbn. lra.
Qed.

Lemma rsum_zip_plus (r s : list R) :
  length r = length s -> rsum (zip_with Rplus r s) = rsum r + rsum s.
Proof.
  unfold rsum. revert s. induction r as [|x r IH]; intros [|y s] Hlen;
    try discriminate; cbn; [lra|].
  rewrite IH by (cbn in Hlen; lia). lra.
Qed.

Lemma rsum_map_mult (c : R) (r : list R) :
  rsum (map (Rmult c) r) = c * rsum r.
Proof.
  unfold rsum. induction r as [|x r IH]; cbn; [lra|]. rewrite IH. lra.
Qed.

Lemma jsd_distributions B N A (p q : list (list (list R))) :
  (B = 1 \/ N = 1)%nat ->
  distributions B N A p -> distributions B (N * B) A q ->
  exists d, jsd 2 p q = Ok d /\ rect2 B (N * B) d /\
            Forall (Forall (fun x => 0 <= x)) d.
Proof.
  intros Hshape Hp Hq.
  assert (Hfit : (N = N * B \/ N = 1 \/ N * B = 1)%nat)
    by (destruct Hshape as [-> | ->]; [left; lia | right; left; reflexivity]).
  destruct Hp as [Hp1 Hp2], Hq as [Hq1 Hq2].
  destruct (bcast_rows_pred_total (bcast (fun x y : R => Ok (x + y))) _ _
              (fun r => length r = A /\ Forall (fun x => 0 < x) r
                        /\ rsum r = 2)
              B N (N * B) p q Hp1 Hp2 Hq1 Hq2 Hfit)
    as (s & Hs & Hl & Hrows).
  { intros r t [Hr [Hrp Hrs]] [Ht [Htp Hts]].
    exists (zip_with Rplus r t). split.
    - apply bcast_total. apply Forall2_true; [auto | congruence].
    - split; [rewrite length_zip_with; lia|]. split.
      + apply zip_with_Rplus_pos; [assumption|].
        apply Forall_pos_nonneg. assumption.
      + rewrite rsum_zip_plus by congruence. lra. }
  rewrite (bdim_agents _ _ Hshape) in Hrows.
  assert (Hmean : distributions B (N * B) A (tmap (map (Rmult 0.5)) 2 s)).
  { split; [cbn; rewrite length_map; assumption|].
    cbn. apply Forall_fmap. eapply Forall_impl; [exact Hrows|].
    intros row [Hrow1 Hrow2]. cbn. split; [rewrite length_map; assumption|].
    apply Forall_fmap. eapply Forall_impl; [exact Hrow2|].
    intros r (Hr & Hrp & Hrs). cbn. split; [rewrite length_map; assumption|].
    split.
    - apply Forall_fmap. eapply Forall_impl; [exact Hrp|].
      intros x Hx. cbn. lra.
    - rewrite rsum_map_mult. lra. }
  destruct (kl_div_distributions B N (N * B) A p _ (conj Hp1 Hp2) Hmean Hfit)
    as (a & Ha & Hra & Hpa).
  destruct (kl_div_distributions B (N * B) (N * B) A q _ (conj Hq1 Hq2) Hmean)
    as (b & Hb & Hrb & Hpb); [left; reflexivity|].
  rewrite (bdim_agents _ _ Hshape) in Hra. rewrite bdim_same in Hrb.
  unfold jsd.
  assert (Hs' : bcastN (bcast (fun x y : R => Ok (x + y))) 2 p q = Ok s)
    by exact Hs.
  rewrite Hs', bind_Ok_l. cbv zeta. rewrite Ha, bind_Ok_l, Hb, bind_Ok_l.
  pose proof (rect2_map (Rmult 0.5) _ _ _ Hra) as [Ha1 Ha2].
  pose proof (rect2_map (Rmult 0.5) _ _ _ Hrb) as [Hb1 Hb2].
  assert (Hha : Forall (Forall (fun x => 0 <= x)) (map (map (Rmult 0.5)) a)).
  { apply Forall_fmap. eapply Forall_impl; [exact Hpa|]. intros row Hrow.
    cbn. apply Forall_fmap. eapply Forall_impl; [exact Hrow|].
    intros x Hx. cbn. lra. }
  assert (Hhb : Forall (Forall (fun x => 0 <= x)) (map (map (Rmult 0.5)) b)).
  { apply Forall_fmap. eapply Forall_impl; [exact Hpb|]. intros row Hrow.
    cbn. apply Forall_fmap. eapply Forall_impl; [exact Hrow|].
    intros x Hx. cbn. lra. }
  destruct (bcast_Ok_total (bcast (fun x y : R => Ok (x + y)))
              (fun row => length row = (N * B)%nat
                          /\ Forall (fun x => 0 <= x) row)
              (map (map (Rmult 0.5)) a) (map (map (Rmult 0.5)) b))
    as (d & Hd & HPd & Hld).
  - left. congruence.
  - intros x y Hx Hy. rewrite Forall_forall in Ha2.
    rewrite Forall_forall in Hb2. rewrite Forall_forall in Hha.
    rewrite Forall_forall in Hhb.
    specialize (Ha2 _ Hx). specialize (Hb2 _ Hy).
    specialize (Hha _ Hx). specialize (Hhb _ Hy).
    destruct (bcast_Ok_total (fun x y : R => Ok (x + y))
                (fun z => 0 <= z) x y) as (w & Hw & HPw & Hlw).
    + left. congruence.
    + intros u v Hu Hv. exists (u + v). split; [reflexivity|].
      rewrite Forall_forall in Hha. rewrite Forall_forall in Hhb.
      specialize (Hha _ Hu). specialize (Hhb _ Hv). cbn in *. lra.
    + exists w. split; [assumption|]. split; [|assumption].
      rewrite Hlw. destruct (decide (length x = 1%nat)); congruence.
  - exists d. split; [exact Hd|]. split.
    + split.
      * rewrite Hld. destruct (decide _); congruence.
      * eapply Forall_impl; [exact HPd|]. intros row [Hrow _]. exact Hrow.
    + eapply Forall_impl; [exact HPd|]. intros row [_ Hrow]. exact Hrow.
Qed.

Lemma divergence_distributions policy B A true_probs marginal_probs :
  (B = 1 \/ num_other_agents policy = 1)%nat ->
  influence_divergence_measure policy = "kl"
  \/ influence_divergence_measure policy = "jsd" ->
  distributions B (num_other_agents policy) A true_probs ->
  distributions B (num_other_agents policy * B) A marginal_probs ->
  exists d, divergence policy true_probs marginal_probs = Ok d /\
            rect2 B (num_other_agents policy * B) d /\
            Forall (Forall (fun x => 0 <= x)) d.
Proof.
  intros Hshape Hmeasure Hp Hq. unfold divergence.
  destruct (decide (influence_divergence_measure policy = "kl")).
  - destruct (kl_div_distributions B _ _ A _ _ Hp Hq) as (d & Hd & Hr & Hpos).
    { destruct Hshape as [-> | ->]; [left; lia | right; left; reflexivity]. }
    rewrite (bdim_agents _ _ Hshape) in Hr. eauto.
  - destruct (decide (influence_divergence_measure policy = "jsd")).
    + apply (jsd_distributions B _ A); assumption.
    + destruct Hmeasure; contradiction.
Qed.

Lemma mask_invisible_nonneg policy trajectory B A d :
  data_model policy trajectory B A ->
  (B = 1 \/ num_other_agents policy = 1)%nat ->
  (forall vis, trajectory !! VISIBILITY = Some (VFloat2 vis) ->
               Forall (Forall (fun v => 0 <= v)) vis) ->
  rect2 B (num_other_agents policy * B) d ->
  Forall (Forall (fun x => 0 <= x)) d ->
  exists step, mask_invisible policy trajectory d = Ok step /\
               length step = B /\ Forall (Forall (fun x => 0 <= x)) step.
Proof.
  intros [_ _ _ _ _ _ _ _ (vis & Hvis & [Hv1 Hv2])] Hshape Hvpos [Hd1 Hd2]
    Hdpos.
  specialize (Hvpos _ Hvis). unfold mask_invisible.
  destruct (influence_only_when_visible policy); [|eauto].
  rewrite (proj2 (getitem_Ok _ _ _) Hvis), bind_Ok_l.
  destruct (bcast_into_Ok_total
              (bcast_into (fun x v : R => Ok (x * v)))
              (Forall (fun x => 0 <= x)) d vis)
    as (step & Hstep & HP & Hl).
  - left. congruence.
  - intros x y Hx Hy. rewrite Forall_forall in Hd2.
    rewrite Forall_forall in Hv2. rewrite Forall_forall in Hdpos.
    rewrite Forall_forall in Hvpos.
    specialize (Hd2 _ Hx). specialize (Hv2 _ Hy).
    specialize (Hdpos _ Hx). specialize (Hvpos _ Hy).
    destruct (bcast_into_Ok_total (fun x v : R => Ok (x * v))
                (fun z => 0 <= z) x y) as (z & Hz & HPz & _).
    + rewrite Hd2, Hv2. destruct Hshape as [-> | ->]; [left; lia | right].
      reflexivity.
    + intros u v Hu Hv. exists (u * v). split; [reflexivity|].
      rewrite Forall_forall in Hdpos. rewrite Forall_forall in Hvpos.
      apply Rmult_le_pos; auto.
    + eauto.
  - exists step. split; [assumption|]. split; [congruence | assumption].
Qed.

Lemma clip_nonneg c x : 0 <= c -> 0 <= x -> 0 <= clip (- c) c x <= c.
Proof.
  intros Hc Hx. unfold clip, Rmin, Rmax.
  destruct (Rle_dec x (- c)); destruct (Rle_dec _ _); lra.
Qed.

Lemma summarize_and_clip_nonneg policy step :
  0 <= influence_reward_clip policy ->
  Forall (Forall (fun x => 0 <= x)) step ->
  Forall (fun x => 0 <= x <= influence_reward_clip policy)
    (summarize_and_clip policy step).
Proof.
  intros Hc Hstep. unfold summarize_and_clip.
  apply Forall_fmap, Forall_fmap. eapply Forall_impl; [exact Hstep|].
  intros row Hrow. cbn. apply clip_nonneg; [assumption|].
  apply rsum_nonneg. assumption.
Qed.

Lemma zip_with_plus_le (r s : list R) :
  length r = length s -> Forall (fun x => 0 <= x) s ->
  Forall2 Rle r (zip_with Rplus r s).
Proof.
  revert s. induction r as [|x r IH]; intros [|y s] Hlen Hs;
    try discriminate; cbn; constructor.
  - inversion Hs; subst. lra.
  - inversion Hs; subst. apply IH; [cbn in Hlen; lia | assumption].
Qed.

(** X14.  On a trajectory laid out as in the data model, with a single
    step or a single other agent, one of the two known measures, a clip
    that is not negative and visibility multipliers that are not negative,
    the call returns, every entry of [total_influence] lies between 0 and
    [influence_reward_clip], and with a stored weight that is not negative
    no reward goes down. *)
Theorem compute_influence_reward_nonneg (policy : Policy)
    (trajectory : gmap string value) (B A : nat) :
  data_model policy trajectory B A ->
  (B = 1 \/ num_other_agents policy = 1)%nat ->
  influence_divergence_measure policy = "kl"
  \/ influence_divergence_measure policy = "jsd" ->
  0 <= influence_reward_clip policy ->
  (forall vis, trajectory !! VISIBILITY = Some (VFloat2 vis) ->
               Forall (Forall (fun v => 0 <= v)) vis) ->
  exists policy' trajectory' influence rewards new_rewards,
    compute_influence_reward policy trajectory = Ok (policy', trajectory') /\
    trajectory' !! "total_influence" = Some (VFloat1 influence) /\
    length influence = B /\
    Forall (fun x => 0 <= x <= influence_reward_clip policy) influence /\
    trajectory !! "rewards" = Some (VFloat1 rewards) /\
    trajectory' !! "rewards" = Some (VFloat1 new_rewards) /\
    (0 <= curr_influence_weight policy -> Forall2 Rle rewards new_rewards).
Proof.
  intros Hdm Hshape Hmeasure Hclip Hvis.
  destruct (true_probs_distributions _ _ _ _ Hdm) as (tp & Htp & Hrtp & Hdtp).
  destruct (marginalize_distributions_rows _ _ _ _ Hdm Hshape)
    as (m & Hmp & Hlm & Hrm).
  pose proof (dm_own_actions _ _ _ _ Hdm) as HA.
  assert (Hdmp : distributions B (num_other_agents policy * B) A
                   (map (map normalize) m)).
  { split; [rewrite length_map; assumption|].
    apply Forall_fmap. eapply Forall_impl; [exact Hrm|].
    intros blk [Hl Hblk]. cbn. split; [rewrite length_map; assumption|].
    apply Forall_fmap. eapply Forall_impl; [exact Hblk|].
    intros r [Hr Hpos]. cbn. split; [rewrite normalize_length; assumption|].
    apply normalize_distribution; [assumption|].
    apply (nonempty_length _ A); assumption. }
  destruct (divergence_distributions _ _ _ _ _ Hshape Hmeasure
              (distributions_intro _ _ _ _ Hrtp Hdtp) Hdmp)
    as (d & Hd & Hrd & Hdpos).
  destruct (mask_invisible_nonneg _ _ _ _ _ Hdm Hshape Hvis Hrd Hdpos)
    as (step & Hstep & Hlstep & Hspos).
  destruct Hdm as [_ _ _ (obs & Hobs & _) _ (r & Hr & Hlr) _ _ _].
  assert (Hips : influence_per_agent_step policy trajectory = Ok step).
  { unfold influence_per_agent_step, divergence_per_agent_step.
    rewrite Htp, bind_Ok_l, Hmp, bind_Ok_l, Hd, bind_Ok_l. exact Hstep. }
  pose proof (summarize_and_clip_nonneg policy step Hclip Hspos) as Hinf.
  set (influence := summarize_and_clip policy step) in *.
  set (w := curr_influence_weight policy).
  assert (Hli : length influence = B)
    by (unfold influence; rewrite summarize_and_clip_length; assumption).
  assert (Hnew : bcast (fun x y : R => Ok (x + y)) r
                   (map (fun x => x * w) influence)
                 = Ok (zip_with Rplus r (map (fun x => x * w) influence))).
  { apply bcast_total, Forall2_true; [auto|].
    rewrite length_map. congruence. }
  pose proof (compute_influence_reward_Ok _ _ _ _ _ _ Hips Hobs Hr Hnew)
    as Hrun.
  destruct (compute_influence_reward_fields policy trajectory _ step r
              (zip_with Rplus r (map (fun x => x * w) influence)) eq_refl)
    as (Hf1 & _ & Hf3).
  eexists _, _, influence, r, _. split; [exact Hrun|].
  split; [exact Hf1|]. split; [assumption|]. split; [assumption|].
  split; [assumption|]. split; [exact Hf3|].
  intros Hw. apply zip_with_plus_le; [rewrite length_map; congruence|].
  apply Forall_fmap. eapply Forall_impl; [exact Hinf|].
  intros x [Hx _]. cbn. apply Rmult_le_pos; assumption.
Qed.

Lemma compute_influence_reward_nonneg_witness :
  exists policy' trajectory' influence rewards new_rewards,
    compute_influence_reward (setup_mixins CONFIG) example_trajectory
    = Ok (policy', trajectory') /\
    trajectory' !! "total_influence" = Some (VFloat1 influence) /\
    length influence = 1%nat /\
    Forall (fun x => 0 <= x <= influence_reward_clip (setup_mixins CONFIG))
      influence /\
    example_trajectory !! "rewards" = Some (VFloat1 rewards) /\
    trajectory' !! "rewards" = Some (VFloat1 new_rewards) /\
    (0 <= curr_influence_weight (setup_mixins CONFIG) ->
     Forall2 Rle rewards new_rewards).
Proof.
  apply (compute_influence_reward_nonneg (setup_mixins CONFIG)
           example_trajectory 1 2 example_data_model).
  - left. reflexivity.
  - left. reflexivity.
  - cbn. lra.
  - intros vis Hvis.
    assert (Hex : example_trajectory !! VISIBILITY = Some (VFloat2 [[1]]))
      by reflexivity.
    rewrite Hex in Hvis. injection Hvis as <-.
    repeat constructor. lra.
Defined.

(** ** [compute_influence_reward] on a trajectory it has processed *)

(** The per-agent influence depends on the five fields that are read and
    on three attributes of the policy. *)
Lemma influence_per_agent_step_ext policy policy' trajectory trajectory' :
  (forall key, key ∈ read_fields -> trajectory' !! key = trajectory !! key) ->
  num_other_agents policy' = num_other_agents policy ->
  influence_divergence_measure policy' = influence_divergence_measure policy ->
  influence_only_when_visible policy' = influence_only_when_visible policy ->
  influence_per_agent_step policy' trajectory'
  = influence_per_agent_step policy trajectory.
Proof.
  intros Hkeys HN Hm Hv.
  assert (Hget : forall key, key ∈ read_fields ->
                   getitem trajectory' key = getitem trajectory key).
  { intros key Hkey. unfold getitem. rewrite (Hkeys key Hkey). reflexivity. }
  unfold influence_per_agent_step, divergence_per_agent_step, true_probs_of,
    marginalize_predictions_over_own_actions, mask_invisible, divergence.
  rewrite HN, Hm, Hv.
  rewrite (Hget COUNTERFACTUAL_ACTIONS), (Hget "obs"), (Hget "actions"),
    (Hget ACTION_LOGITS), (Hget VISIBILITY)
    by (unfold read_fields; set_solver).
  reflexivity.
Qed.

Lemma bcast_Ok_fits {X Y Z : Type} (f : X -> Y -> result Z) xs ys zs :
  bcast f xs ys = Ok zs ->
  (length xs = length ys \/ length xs = 1 \/ length ys = 1)%nat /\
  length zs = (if decide (length xs = 1)%nat then length ys else length xs).
Proof.
  intros H. destruct xs as [|x [|x' xs]].
  - destruct ys as [|y [|y' ys]]; cbn in H.
    + injection H as <-. cbn. auto.
    + injection H as <-. cbn. auto.
    + discriminate.
  - cbn in H. apply mapM_Ok_length in H. cbn. auto.
  - destruct ys as [|y [|y' ys]].
    + discriminate.
    + apply bcast_singleton_Ok_length in H. cbn in *. auto.
    + assert (Hz : zip_with_r f (x :: x' :: xs) (y :: y' :: ys) = Ok zs)
        by exact H.
      apply zip_with_r_Ok_length in Hz as [Hz1 Hz2]. cbn in *.
      split; [left; congruence | assumption].
Qed.

Lemma zip_with_plus_twice (w : R) (r i : list R) :
  zip_with Rplus (zip_with Rplus r (map (fun x => x * w) i))
    (map (fun x => x * w) i)
  = zip_with (fun x y => x + 2 * (y * w)) r i.
Proof.
  revert i. induction r as [|x r IH]; intros [|y i]; cbn; try reflexivity.
  rewrite IH. f_equal. lra.
Qed.

(** X15.  The function does not notice a trajectory that it has already
    processed.  A second call on the trajectory and policy that a first
    call returned also returns; it finds the same [total_influence],
    stores the rewards of the first call (which include the influence) as
    [reward_without_influence], counts the steps a second time and, for
    rewards and influence of one length, adds the weighted influence to
    the rewards a second time. *)
Theorem compute_influence_reward_twice (policy : Policy)
    (trajectory : gmap string value) (policy1 : Policy)
    (trajectory1 : gmap string value) :
  compute_influence_reward policy trajectory = Ok (policy1, trajectory1) ->
  exists policy2 trajectory2 obs rewards influence,
    compute_influence_reward policy1 trajectory1
    = Ok (policy2, trajectory2) /\
    trajectory !! "obs" = Some obs /\
    steps_processed policy2
    = (steps_processed policy + 2 * Z.of_nat (len obs))%Z /\
    trajectory !! "rewards" = Some (VFloat1 rewards) /\
    trajectory1 !! "total_influence" = Some (VFloat1 influence) /\
    trajectory2 !! "total_influence" = Some (VFloat1 influence) /\
    trajectory2 !! "reward_without_influence" = trajectory1 !! "rewards" /\
    (length rewards = length influence ->
     trajectory2 !! "rewards"
     = Some (VFloat1
               (zip_with (fun r i => r + 2 * (i * curr_influence_weight policy))
                  rewards influence))).
Proof.
  intros H.
  apply compute_influence_reward_inv in H
    as (step & obs & r & new & Hstep & Hobs & Hr & Hnew & -> & ->).
  set (influence := summarize_and_clip policy step) in *.
  set (w := curr_influence_weight policy) in *.
  set (policy1 := set_steps_processed
                    (steps_processed policy + Z.of_nat (len obs)) policy).
  set (trajectory1 :=
         <["rewards" := VFloat1 new]>
           (<["reward_without_influence" := VFloat1 r]>
              (<["total_influence" := VFloat1 influence]> trajectory))).
  destruct (compute_influence_reward_fields policy trajectory trajectory1
              step r new eq_refl) as (Hf1 & Hf2 & Hf3).
  assert (Hstep1 : influence_per_agent_step policy1 trajectory1 = Ok step).
  { rewrite <- Hstep. apply influence_per_agent_step_ext; try reflexivity.
    intros key Hkey. unfold trajectory1.
    assert (Hne : key <> "rewards" /\ key <> "reward_without_influence"
                  /\ key <> "total_influence").
    { unfold read_fields in Hkey.
      repeat (apply elem_of_cons in Hkey as [-> | Hkey];
              [repeat split; discriminate|]).
      inversion Hkey. }
    destruct Hne as (Hne1 & Hne2 & Hne3).
    rewrite !lookup_insert_ne by congruence. reflexivity. }
  assert (Hobs1 : trajectory1 !! "obs" = Some obs).
  { unfold trajectory1. rewrite !lookup_insert_ne by discriminate.
    assumption. }
  destruct (bcast_Ok_fits _ _ _ _ Hnew) as [Hfit Hlnew].
  rewrite length_map in Hfit, Hlnew.
  destruct (bcast_Ok_total (fun x y : R => Ok (x + y)) (fun _ => True) new
              (map (fun x => x * curr_influence_weight policy1)
                 (summarize_and_clip policy1 step)))
    as (new2 & Hnew2 & _ & _).
  { rewrite length_map.
    change (summarize_and_clip policy1 step) with influence.
    rewrite Hlnew. destruct (decide (length r = 1%nat)); [left; reflexivity|].
    destruct Hfit as [? | [? | ?]]; [left; assumption | contradiction|].
    right. right. assumption. }
  { intros; eauto. }
  pose proof (compute_influence_reward_Ok policy1 trajectory1 step obs new
                new2 Hstep1 Hobs1 Hf3 Hnew2) as Hrun.
  destruct (compute_influence_reward_fields policy1 trajectory1 _ step new
              new2 eq_refl) as (Hg1 & Hg2 & Hg3).
  eexists _, _, obs, r, influence. split; [exact Hrun|].
  split; [assumption|]. split; [cbn; lia|]. split; [assumption|].
  split; [exact Hf1|]. split; [exact Hg1|].
  split; [rewrite Hg2, Hf3; reflexivity|].
  intros Hlen. rewrite Hg3. f_equal. f_equal.
  change (curr_influence_weight policy1) with w in Hnew2.
  change (summarize_and_clip policy1 step) with influence in Hnew2.
  rewrite bcast_same_length in Hnew by (rewrite length_map; assumption).
  apply zip_with_r_total_eq in Hnew. subst new.
  rewrite bcast_same_length in Hnew2
    by (rewrite length_zip_with, !length_map; lia).
  apply zip_with_r_total_eq in Hnew2. subst new2.
  apply zip_with_plus_twice.
Qed.

Lemma compute_influence_reward_twice_witness :
  exists policy1 trajectory1 policy2 trajectory2 obs rewards influence,
    compute_influence_reward (setup_mixins CONFIG) example_trajectory
    = Ok (policy1, trajectory1) /\
    compute_influence_reward policy1 trajectory1
    = Ok (policy2, trajectory2) /\
    example_trajectory !! "obs" = Some obs /\
    steps_processed policy2
    = (steps_processed (setup_mixins CONFIG) + 2 * Z.of_nat (len obs))%Z /\
    example_trajectory !! "rewards" = Some (VFloat1 rewards) /\
    trajectory1 !! "total_influence" = Some (VFloat1 influence) /\
    trajectory2 !! "total_influence" = Some (VFloat1 influence) /\
    trajectory2 !! "reward_without_influence" = trajectory1 !! "rewards" /\
    (length rewards = length influence ->
     trajectory2 !! "rewards"
     = Some (VFloat1
               (zip_with
                  (fun r i =>
                     r + 2 * (i * curr_influence_weight (setup_mixins CONFIG)))
                  rewards influence))).
Proof.
  destruct example_trajectory_fields as (Ho & Ha & Hr & Hl & Hc & Hv).
  pose proof (example_run example_trajectory 1 Ho Ha Hr Hl Hc Hv) as Hrun.
  destruct (compute_influence_reward_twice _ _ _ _ Hrun)
    as (policy2 & trajectory2 & obs & rewards & influence & H).
  eexists _, _, policy2, trajectory2, obs, rewards, influence.
  split; [exact Hrun | exact H].
Defined.

(** ** The KeyErrors of [compute_influence_reward] *)

Lemma bind_Err {A B : Type} (m : result A) (f : A -> result B) e :
  m ≫= f = Err e -> m = Err e \/ exists a, m = Ok a /\ f a = Err e.
Proof. destruct m as [a|e']; cbn; [eauto | intros [= <-]; auto]. Qed.

Lemma no_key_error_Ok {A : Type} (a : A) : no_key_error (Ok a).
Proof. intros key. discriminate. Qed.

Lemma no_key_error_bind {A B : Type} (m : result A) (f : A -> result B) :
  no_key_error m -> (forall a, no_key_error (f a)) -> no_key_error (m ≫= f).
Proof.
  intros Hm Hf key H. apply bind_Err in H as [H | (a & _ & H)].
  - exact (Hm key H).
  - exact (Hf a key H).
Qed.

Lemma no_key_error_mapM {A B : Type} (f : A -> result B) l :
  (forall x, no_key_error (f x)) -> no_key_error (mapM f l).
Proof.
  intros Hf key H. apply mapM_Err_inv in H as (x & _ & H).
  exact (Hf x key H).
Qed.

Lemma no_key_error_zip_with_r {X Y Z : Type} (f : X -> Y -> result Z) xs ys :
  (forall x y, no_key_error (f x y)) -> no_key_error (zip_with_r f xs ys).
Proof.
  intros Hf. revert ys. induction xs as [|x xs IH]; intros [|y ys];
    try (intros key; discriminate).
  cbn. apply no_key_error_bind; [apply Hf|]. intros z.
  apply no_key_error_bind; [apply IH|]. intros zs. apply no_key_error_Ok.
Qed.

Lemma no_key_error_bcast {X Y Z : Type} (f : X -> Y -> result Z) xs ys :
  (forall x y, no_key_error (f x y)) -> no_key_error (bcast f xs ys).
Proof.
  intros Hf. unfold bcast.
  destruct xs as [|x [|x' xs]]; destruct ys as [|y [|y' ys]];
    first [ apply no_key_error_mapM; intros; apply Hf
          | apply no_key_error_zip_with_r; exact Hf ].
Qed.

Lemma no_key_error_bcast_into {X Y : Type} (f : X -> Y -> result X) xs ys :
  (forall x y, no_key_error (f x y)) -> no_key_error (bcast_into f xs ys).
Proof.
  intros Hf. unfold bcast_into.
  destruct ys as [|y [|y' ys]];
    first [ apply no_key_error_mapM; intros; apply Hf
          | apply no_key_error_zip_with_r; exact Hf ].
Qed.

Lemma no_key_error_bcastN {X Y Z : Type} (f : X -> Y -> result Z) n
    (p : tens X n) (q : tens Y n) :
  (forall x y, no_key_error (f x y)) -> no_key_error (bcastN f n p q).
Proof.
  intros Hf. revert p q. induction n as [|n IH]; intros p q; cbn.
  - apply Hf.
  - apply no_key_error_bcast. exact IH.
Qed.

Lemma no_key_error_kl_div n (p q : tens (list R) n) :
  no_key_error (kl_div n p q).
Proof.
  unfold kl_div, kl_raw. apply no_key_error_bind.
  - apply no_key_error_bcastN. intros x y. unfold kl_row.
    apply no_key_error_bind.
    + apply no_key_error_bcast. intros; apply no_key_error_Ok.
    + intros; apply no_key_error_Ok.
  - intros; apply no_key_error_Ok.
Qed.

Lemma no_key_error_jsd n (p q : tens (list R) n) : no_key_error (jsd n p q).
Proof.
  unfold jsd. apply no_key_error_bind.
  - apply no_key_error_bcastN. intros x y.
    apply no_key_error_bcast. intros; apply no_key_error_Ok.
  - intros s. apply no_key_error_bind; [apply no_key_error_kl_div|].
    intros a. apply no_key_error_bind; [apply no_key_error_kl_div|].
    intros b. apply no_key_error_bcastN. intros; apply no_key_error_Ok.
Qed.

Lemma no_key_error_divergence policy tp mp :
  no_key_error (divergence policy tp mp).
Proof.
  unfold divergence.
  destruct (decide _); [apply (no_key_error_kl_div 2)|].
  destruct (decide _); [apply (no_key_error_jsd 2)|].
  intros key. discriminate.
Qed.

Lemma no_key_error_item {X : Type} (l : list X) i : no_key_error (item l i).
Proof. unfold item. destruct (l !! i); intros key; discriminate. Qed.

Lemma no_key_error_py_index size i : no_key_error (py_index size i).
Proof.
  unfold py_index. repeat destruct (decide _); intros key; discriminate.
Qed.

Lemma no_key_error_take_own_action a bs acts :
  no_key_error (take_own_action a bs acts).
Proof.
  unfold take_own_action. apply no_key_error_bind.
  - unfold index_pairs.
    destruct bs as [|b [|b' bs]]; destruct acts as [|c [|c' acts]];
      try destruct (decide _); intros key; discriminate.
  - intros ps. apply no_key_error_mapM. intros [b act].
    apply no_key_error_bind; [apply no_key_error_item|]. intros row.
    apply no_key_error_mapM. intros per_agent.
    apply no_key_error_bind; [apply no_key_error_py_index|].
    intros i. apply no_key_error_item.
Qed.

Lemma no_key_error_reshape_rows {X : Type} count (flat : list X) :
  no_key_error (reshape_rows count flat).
Proof.
  unfold reshape_rows. repeat destruct (decide _); intros key; discriminate.
Qed.

Lemma no_key_error_reshape_blocks {X : Type} count width (flat : list X) :
  no_key_error (reshape_blocks count width flat).
Proof.
  unfold reshape_blocks. repeat destruct (decide _); intros key;
    discriminate.
Qed.

Lemma getitem_Err trajectory key e :
  getitem trajectory key = Err e ->
  e = KeyError key /\ trajectory !! key = None.
Proof.
  unfold getitem. destruct (trajectory !! key); [discriminate|].
  intros [= <-]. auto.
Qed.

Lemma true_probs_of_KeyError policy trajectory key :
  true_probs_of policy trajectory = Err (KeyError key) ->
  key ∈ read_fields /\ trajectory !! key = None.
Proof.
  unfold true_probs_of, read_fields. intros H.
  apply bind_Err in H as [H | (cf & _ & H)].
  { apply getitem_Err in H as [[= ->] H]. split; [set_solver | exact H]. }
  apply bind_Err in H as [H | (obs & _ & H)].
  { apply getitem_Err in H as [[= ->] H]. split; [set_solver | exact H]. }
  apply bind_Err in H as [H | (actions & _ & H)].
  { apply getitem_Err in H as [[= ->] H]. split; [set_solver | exact H]. }
  exfalso. revert H. apply no_key_error_bind.
  - destruct cf; destruct actions; try (intros k; discriminate).
    apply no_key_error_take_own_action.
  - intros t0. apply no_key_error_bind; [|intros; apply no_key_error_Ok].
    destruct t0; [intros k; discriminate|].
    apply no_key_error_mapM. intros r. apply no_key_error_reshape_rows.
Qed.

Lemma marginalize_KeyError policy trajectory key :
  marginalize_predictions_over_own_actions policy trajectory
  = Err (KeyError key) ->
  key ∈ read_fields /\ trajectory !! key = None.
Proof.
  unfold marginalize_predictions_over_own_actions, read_fields. intros H.
  apply bind_Err in H as [H | (lv & _ & H)].
  { apply getitem_Err in H as [[= ->] H]. split; [set_solver | exact H]. }
  apply bind_Err in H as [H | (logits & _ & H)].
  { destruct lv; discriminate. }
  apply bind_Err in H as [H | (cf & _ & H)].
  { apply getitem_Err in H as [[= ->] H]. split; [set_solver | exact H]. }
  exfalso. revert H. apply no_key_error_bind.
  - destruct cf; intros k; discriminate.
  - intros rows. apply no_key_error_bind.
    + destruct rows; [intros k; discriminate|].
      apply no_key_error_mapM. intros r. apply no_key_error_reshape_blocks.
    + intros cp. apply no_key_error_bind; [|intros; apply no_key_error_Ok].
      apply (no_key_error_bcastN _ 3). intros; apply no_key_error_Ok.
Qed.

Lemma mask_invisible_KeyError policy trajectory d key :
  mask_invisible policy trajectory d = Err (KeyError key) ->
  key ∈ read_fields /\ trajectory !! key = None.
Proof.
  unfold mask_invisible, read_fields. intros H.
  destruct (influence_only_when_visible policy); [|discriminate].
  apply bind_Err in H as [H | (v & _ & H)].
  { apply getitem_Err in H as [[= ->] H]. split; [set_solver | exact H]. }
  exfalso. revert H. destruct v; try (intros H; discriminate).
  apply no_key_error_bcast_into. intros x y.
  apply no_key_error_bcast_into. intros; apply no_key_error_Ok.
Qed.

(** X16.  A KeyError that leaves [compute_influence_reward] names a field
    that the trajectory lacks, and that field is one of the five that the
    function reads or [rewards].  A trajectory without
    [counterfactual_actions] raises the KeyError of that field whatever
    else it holds, and a missing [rewards] is found only after the
    influence has been computed. *)
Theorem compute_influence_reward_KeyError (policy : Policy)
    (trajectory : gmap string value) :
  (forall key,
     compute_influence_reward policy trajectory = Err (KeyError key) ->
     key ∈ read_fields ++ ["rewards"] /\ trajectory !! key = None) /\
  (trajectory !! COUNTERFACTUAL_ACTIONS = None ->
   compute_influence_reward policy trajectory
   = Err (KeyError COUNTERFACTUAL_ACTIONS)) /\
  (compute_influence_reward policy trajectory = Err (KeyError "rewards") ->
   exists step, influence_per_agent_step policy trajectory = Ok step).
Proof.
  split; [|split].
  - intros key H. unfold compute_influence_reward in H.
    apply bind_Err in H as [H | (step & _ & H)].
    + enough (key ∈ read_fields /\ trajectory !! key = None) as [H1 H2]
        by (split; [apply elem_of_app; left|]; assumption).
      unfold influence_per_agent_step, divergence_per_agent_step in H.
      apply bind_Err in H as [H | (d & _ & H)].
      * apply bind_Err in H as [H | (tp & _ & H)];
          [apply (true_probs_of_KeyError _ _ _ H)|].
        apply bind_Err in H as [H | (mp & _ & H)];
          [apply (marginalize_KeyError _ _ _ H)|].
        exfalso. exact (no_key_error_divergence _ _ _ _ H).
      * apply (mask_invisible_KeyError _ _ _ _ H).
    + apply bind_Err in H as [H | (obs & _ & H)].
      { apply getitem_Err in H as [[= ->] H].
        split; [|exact H]. unfold read_fields. set_solver. }
      apply bind_Err in H as [H | (r1 & Hr1 & H)].
      { apply getitem_Err in H as [[= ->] H].
        rewrite lookup_insert_ne in H by discriminate.
        split; [|exact H]. apply elem_of_app. right. left. }
      apply bind_Err in H as [H | (r2 & Hr2 & H)].
      { apply getitem_Err in H as [[= ->] H].
        rewrite !lookup_insert_ne in H by discriminate.
        split; [|exact H]. apply elem_of_app. right. left. }
      exfalso. revert H. apply no_key_error_bind.
      * destruct r2; try (intros k; discriminate).
        apply no_key_error_bcast. intros; apply no_key_error_Ok.
      * intros; apply no_key_error_Ok.
  - intros Hcf. unfold compute_influence_reward, influence_per_agent_step,
      divergence_per_agent_step, true_probs_of, getitem.
    rewrite Hcf. reflexivity.
  - intros H. unfold compute_influence_reward in H.
    apply bind_Err in H as [H | (step & Hstep & _)]; [|eauto].
    exfalso.
    assert (Hin : "rewards" ∈ read_fields).
    { unfold influence_per_agent_step, divergence_per_agent_step in H.
      apply bind_Err in H as [H | (d & _ & H)].
      - apply bind_Err in H as [H | (tp & _ & H)];
          [apply (true_probs_of_KeyError _ _ _ H)|].
        apply bind_Err in H as [H | (mp & _ & H)];
          [apply (marginalize_KeyError _ _ _ H)|].
        exfalso. exact (no_key_error_divergence _ _ _ _ H).
      - apply (mask_invisible_KeyError _ _ _ _ H). }
    unfold read_fields in Hin.
    repeat (apply elem_of_cons in Hin as [Hin | Hin]; [discriminate|]).
    inversion Hin.
Qed.

Lemma compute_influence_reward_KeyError_witness :
  compute_influence_reward (setup_mixins CONFIG) ∅
  = Err (KeyError COUNTERFACTUAL_ACTIONS).
Proof.
  apply (compute_influence_reward_KeyError (setup_mixins CONFIG) ∅).
  reflexivity.
Defined.

(** ** Witnesses for the shapes that are processed and refused *)

Lemma compute_influence_reward_returns_witness :
  exists policy' trajectory',
    compute_influence_reward (setup_mixins CONFIG) example_trajectory
    = Ok (policy', trajectory').
Proof.
  apply (compute_influence_reward_returns (setup_mixins CONFIG)
           example_trajectory 1 2 example_data_model);
    left; reflexivity.
Defined.

Lemma two_by_two_data_model :
  data_model (setup_mixins (with_agents 2 CONFIG)) two_by_two 2 1.
Proof.
  split; try (cbn; lia).
  - exists (VFloat2 [[0]; [0]]). split; reflexivity.
  - exists [0; 0]%Z. split; [reflexivity|]. split; [reflexivity|].
    repeat (constructor; [lia|]). constructor.
  - exists [0; 0]. split; reflexivity.
  - exists [[0]; [0]]. split; [reflexivity|]. split; [reflexivity|].
    repeat (constructor; [reflexivity|]). constructor.
  - exists [[[[0]]; [[0]]]; [[[0]]; [[0]]]]. split; [reflexivity|].
    split; [reflexivity|].
    repeat match goal with
           | |- Forall _ [] => constructor
           | |- Forall _ (_ :: _) => constructor
           | |- rect3 _ _ _ _ => split; [reflexivity|]
           | |- rect2 _ _ _ => split; [reflexivity|]
           | |- length _ = _ => reflexivity
           end.
  - exists [[1; 1]; [1; 1]]. split; [reflexivity|]. split; [reflexivity|].
    repeat (constructor; [reflexivity|]). constructor.
Qed.

Lemma marginalize_refuses_witness :
  marginalize_predictions_over_own_actions
    (setup_mixins (with_agents 2 CONFIG)) two_by_two = Err ValueError /\
  compute_influence_reward (setup_mixins (with_agents 2 CONFIG)) two_by_two
  = Err ValueError.
Proof.
  apply (marginalize_refuses (setup_mixins (with_agents 2 CONFIG)) two_by_two
           2 1 two_by_two_data_model); cbn; lia.
Defined.

(** ** [MOALoss] *)

Lemma mapM_Ok_Forall {A B : Type} (f : A -> result B) (Q : B -> Prop) l k :
  mapM f l = Ok k ->
  (forall x y, x ∈ l -> f x = Ok y -> Q y) -> Forall Q k.
Proof.
  intros H HQ. apply mapM_Ok_Forall2 in H.
  induction H as [|x y l k Hxy _ IH]; constructor.
  - apply (HQ x y); [left | assumption].
  - apply IH. intros x' y' Hx'. apply HQ. right. assumption.
Qed.

Lemma zip_with_r_Ok_Forall {X Y Z : Type} (f : X -> Y -> result Z)
    (Q : Z -> Prop) xs ys zs :
  zip_with_r f xs ys = Ok zs ->
  (forall x y z, x ∈ xs -> y ∈ ys -> f x y = Ok z -> Q z) -> Forall Q zs.
Proof.
  revert ys zs. induction xs as [|x xs IH]; intros [|y ys] zs H HQ;
    try discriminate.
  - injection H as <-. constructor.
  - cbn in H. apply bind_Ok in H as (z & Hz & H).
    apply bind_Ok in H as (zs' & Hzs & H). injection H as <-.
    constructor.
    + apply (HQ x y z); [left | left | assumption].
    + apply (IH ys); [assumption|].
      intros x' y' z' Hx' Hy'. apply HQ; right; assumption.
Qed.

Lemma bcast_Ok_Forall {X Y Z : Type} (f : X -> Y -> result Z)
    (Q : Z -> Prop) xs ys zs :
  bcast f xs ys = Ok zs ->
  (forall x y z, x ∈ xs -> y ∈ ys -> f x y = Ok z -> Q z) -> Forall Q zs.
Proof.
  intros H HQ. destruct xs as [|x [|x' xs]].
  - destruct ys as [|y [|y' ys]]; cbn in H; try discriminate;
      injection H as <-; constructor.
  - cbn in H. apply (mapM_Ok_Forall _ _ _ _ H).
    intros y z Hy. apply HQ; [left | assumption].
  - destruct ys as [|y [|y' ys]].
    + discriminate.
    + assert (Hm : mapM (fun x => f x y) (x :: x' :: xs) = Ok zs) by exact H.
      apply (mapM_Ok_Forall _ _ _ _ Hm).
      intros x0 z Hx0. apply HQ; [assumption | left].
    + assert (Hz : zip_with_r f (x :: x' :: xs) (y :: y' :: ys) = Ok zs)
        by exact H.
      apply (zip_with_r_Ok_Forall _ _ _ _ _ Hz). exact HQ.
Qed.

Lemma elem_le_rsum (l : list R) x :
  Forall (fun v => 0 < v) l -> x ∈ l -> x <= rsum l.
Proof.
  unfold rsum. induction 1 as [|v l Hv Hl IH]; intros Hx; [inversion Hx|].
  pose proof (rsum_nonneg l (Forall_pos_nonneg _ Hl)) as Hs.
  unfold rsum in Hs. cbn.
  apply elem_of_cons in Hx as [-> | Hx]; [lra|].
  specialize (IH Hx). lra.
Qed.

(** A softmax probability lies in (0, 1]. *)
Lemma softmax_entry (logits : list R) i p :
  softmax logits !! i = Some p -> 0 < p <= 1.
Proof.
  intros Hp. pose proof (softmax_pos logits) as Hpos.
  rewrite Forall_forall in Hpos.
  assert (Hin : p ∈ softmax logits)
    by (eapply list_elem_of_lookup_2; eassumption).
  split; [apply Hpos; assumption|].
  assert (Hne : logits <> []) by (intros ->; inversion Hin).
  destruct (softmax_distribution logits Hne) as [Hall Hsum].
  rewrite <- Hsum. apply elem_le_rsum; assumption.
Qed.

Lemma cross_entropy_Ok logits label x :
  cross_entropy logits label = Ok x ->
  (0 <= label < Z.of_nat (length logits))%Z /\
  exists p, softmax logits !! Z.to_nat label = Some p /\ x = - ln p.
Proof.
  unfold cross_entropy. destruct (decide _) as [Hr|]; [|discriminate].
  intros H. apply bind_Ok in H as (p & Hp & H). injection H as <-.
  apply item_Ok in Hp. split; [assumption|]. eauto.
Qed.

Lemma cross_entropy_nonneg logits label x :
  cross_entropy logits label = Ok x -> 0 <= x.
Proof.
  intros H. apply cross_entropy_Ok in H as (_ & p & Hp & ->).
  apply softmax_entry in Hp as [Hp0 Hp1].
  destruct (Req_dec_T p 1) as [-> | Hne]; [rewrite ln_1; lra|].
  assert (ln p < ln 1) by (apply ln_increasing; lra).
  rewrite ln_1 in *. lra.
Qed.

Lemma rsum_app (l k : list R) : rsum (l ++ k) = rsum l + rsum k.
Proof.
  unfold rsum. induction l as [|x l IH]; cbn; [lra|]. rewrite IH. lra.
Qed.

Lemma Forall_mjoin {X : Type} (P : X -> Prop) (a : list (list X)) :
  Forall (Forall P) a -> Forall P (mjoin a).
Proof.
  induction 1 as [|r a Hr _ IH]; [constructor|].
  change (mjoin (r :: a)) with (r ++ mjoin a).
  apply Forall_app. split; assumption.
Qed.

Lemma reduce_mean_nonneg (a : list (list R)) l :
  Forall (Forall (fun x => 0 <= x)) a -> reduce_mean a = Finite l -> 0 <= l.
Proof.
  intros Ha. apply Forall_mjoin in Ha. unfold reduce_mean.
  destruct (mjoin a) as [|x flat] eqn:Hflat; [discriminate|].
  intros [= <-].
  change (0 <= rsum (x :: flat) / INR (length (x :: flat))).
  apply Rdiv_nonneg; [exact (rsum_nonneg (x :: flat) Ha)|].
  apply lt_0_INR. cbn. lia.
Qed.

Lemma Forall_drop_1 {X : Type} (P : X -> Prop) (l : list X) :
  Forall P l -> Forall P (drop 1 l).
Proof. intros H. destruct H; [constructor | assumption]. Qed.

(** The cross entropies before the visibility is applied. *)
Lemma MOALoss_inv pred_logits true_actions loss_weight others_visibility obj :
  MOALoss pred_logits true_actions loss_weight others_visibility = Ok obj ->
  exists ce0,
    zip_with_r (zip_with_r cross_entropy) (all_but_last pred_logits)
      (map (drop 1) (drop 1 true_actions)) = Ok ce0 /\
    match others_visibility with
    | Some vis =>
        bcast (bcast (fun x v : R => Ok (x * v))) ce0 (drop 1 vis)
        = Ok (ce_per_entry obj)
    | None => ce_per_entry obj = ce0
    end /\
    total_loss obj = fscale (reduce_mean (ce_per_entry obj)) loss_weight.
Proof.
  unfold MOALoss. intros H. apply bind_Ok in H as (ce0 & Hce0 & H).
  apply bind_Ok in H as (ce & Hce & H). injection H as <-.
  exists ce0. split; [assumption|]. cbn. split; [|reflexivity].
  destruct others_visibility as [vis|]; [exact Hce | congruence].
Qed.

(** X19.  With a loss weight that is not negative and visibility
    multipliers that are not negative (or none), no cross entropy that
    [MOALoss] keeps is negative, and neither is the total loss when it is
    a number. *)
Theorem MOALoss_nonneg (pred_logits : list (list (list R)))
    (true_actions : list (list Z)) (loss_weight : R)
    (others_visibility : option (list (list R))) (obj : MOALoss_object) :
  0 <= loss_weight ->
  (forall vis, others_visibility = Some vis ->
               Forall (Forall (fun v => 0 <= v)) vis) ->
  MOALoss pred_logits true_actions loss_weight others_visibility = Ok obj ->
  Forall (Forall (fun x => 0 <= x)) (ce_per_entry obj) /\
  forall l, total_loss obj = Finite l -> 0 <= l.
Proof.
  intros Hw Hvis H.
  apply MOALoss_inv in H as (ce0 & Hce0 & Hce & Htotal).
  assert (H0 : Forall (Forall (fun x => 0 <= x)) ce0).
  { apply (zip_with_r_Ok_Forall _ _ _ _ _ Hce0).
    intros row acts z _ _ Hz.
    apply (zip_with_r_Ok_Forall _ _ _ _ _ Hz).
    intros logits label x _ _. apply cross_entropy_nonneg. }
  assert (Hpos : Forall (Forall (fun x => 0 <= x)) (ce_per_entry obj)).
  { destruct others_visibility as [vis|]; [|rewrite Hce; assumption].
    specialize (Hvis vis eq_refl). apply Forall_drop_1 in Hvis.
    apply (bcast_Ok_Forall _ _ _ _ _ Hce).
    intros row vrow z Hrow Hvrow Hz.
    rewrite Forall_forall in H0. rewrite Forall_forall in Hvis.
    specialize (H0 _ Hrow). specialize (Hvis _ Hvrow).
    apply (bcast_Ok_Forall _ _ _ _ _ Hz).
    intros x v y Hx Hv [= <-].
    rewrite Forall_forall in H0. rewrite Forall_forall in Hvis.
    apply Rmult_le_pos; auto. }
  split; [assumption|].
  intros l Hl. rewrite Htotal in Hl.
  destruct (reduce_mean (ce_per_entry obj)) as [m|] eqn:Hm; [|discriminate].
  injection Hl as <-. apply Rmult_le_pos; [|assumption].
  eapply reduce_mean_nonneg; eassumption.
Qed.

Lemma MOALoss_nonneg_witness :
  exists obj,
    MOALoss moa_example_logits moa_example_actions 10 (Some [[1]; [1]])
    = Ok obj /\
    Forall (Forall (fun x => 0 <= x)) (ce_per_entry obj) /\
    forall l, total_loss obj = Finite l -> 0 <= l.
Proof.
  eexists. split; [reflexivity|].
  eapply (MOALoss_nonneg moa_example_logits moa_example_actions 10
            (Some [[1]; [1]])); [lra | | reflexivity].
  intros vis [= <-]. repeat constructor; lra.
Defined.

Lemma rsum_all_zero (l : list R) :
  Forall (fun x => x = 0) l -> rsum l = 0.
Proof.
  unfold rsum. induction 1 as [|x l Hx _ IH]; cbn; [reflexivity|].
  rewrite Hx, IH. lra.
Qed.

(** X20.  When no other agent is visible from the second step on, every
    cross entropy that [MOALoss] keeps is 0 and the total loss is 0 (or
    NaN, for a tensor without entries); the visibility of the first step
    is not looked at. *)
Theorem MOALoss_nothing_visible (pred_logits : list (list (list R)))
    (true_actions : list (list Z)) (loss_weight : R)
    (others_visibility : list (list R)) (obj : MOALoss_object) :
  Forall (Forall (fun v => v = 0)) (drop 1 others_visibility) ->
  MOALoss pred_logits true_actions loss_weight (Some others_visibility)
  = Ok obj ->
  Forall (Forall (fun x => x = 0)) (ce_per_entry obj) /\
  total_loss obj
  = match mjoin (ce_per_entry obj) with
    | [] => NonFinite
    | _ => Finite 0
    end.
Proof.
  intros Hvis H.
  apply MOALoss_inv in H as (ce0 & _ & Hce & Htotal).
  assert (Hz : Forall (Forall (fun x => x = 0)) (ce_per_entry obj)).
  { apply (bcast_Ok_Forall _ _ _ _ _ Hce).
    intros row vrow z _ Hvrow Hz.
    rewrite Forall_forall in Hvis. specialize (Hvis _ Hvrow).
    apply (bcast_Ok_Forall _ _ _ _ _ Hz).
    intros x v y _ Hv [= <-].
    rewrite Forall_forall in Hvis. rewrite (Hvis _ Hv). lra. }
  split; [assumption|].
  rewrite Htotal. unfold reduce_mean.
  pose proof (rsum_all_zero _ (Forall_mjoin _ _ Hz)) as Hsum.
  destruct (mjoin (ce_per_entry obj)) as [|x flat]; [reflexivity|].
  cbn [fscale]. f_equal.
  change (rsum (x :: flat) / INR (length (x :: flat)) * loss_weight = 0).
  rewrite Hsum. unfold Rdiv. lra.
Qed.

Lemma MOALoss_nothing_visible_witness :
  exists obj,
    MOALoss moa_example_logits moa_example_actions 10 (Some [[1]; [0]])
    = Ok obj /\
    Forall (Forall (fun x => x = 0)) (ce_per_entry obj) /\
    total_loss obj
    = match mjoin (ce_per_entry obj) with
      | [] => NonFinite
      | _ => Finite 0
      end.
Proof.
  eexists. split; [reflexivity|].
  eapply (MOALoss_nothing_visible moa_example_logits moa_example_actions 10
            [[1]; [0]]); [|reflexivity].
  repeat constructor.
Defined.

(** ** [MOALoss]: which prediction is scored against which action *)

Lemma Forall2_from_Forall {X Y : Type} (P : X -> Prop) (Q : Y -> Prop)
    (S : X -> Y -> Prop) xs ys :
  length xs = length ys -> Forall P xs -> Forall Q ys ->
  (forall x y, P x -> Q y -> S x y) -> Forall2 S xs ys.
Proof.
  intros Hlen Hxs. revert ys Hlen.
  induction Hxs as [|x xs Hx _ IH]; intros [|y ys] Hlen Hys HS;
    try discriminate; constructor.
  - inversion Hys; subst. auto.
  - inversion Hys; subst. apply IH; [cbn in Hlen; lia | assumption | exact HS].
Qed.

Lemma all_but_last_rect {X : Type} B N A (a : list (list (list X))) :
  rect3 B N A a -> rect3 (B - 1) N A (all_but_last a).
Proof.
  intros [Hl Hrows]. unfold all_but_last. split.
  - rewrite length_take. lia.
  - apply Forall_take. assumption.
Qed.

Lemma labels_rect B N A (ta : list (list Z)) :
  rect2 B (S N) ta ->
  Forall (Forall (fun a => (0 <= a < Z.of_nat A)%Z)) ta ->
  length (map (drop 1) (drop 1 ta)) = (B - 1)%nat /\
  Forall (fun acts => length acts = N /\
                      Forall (fun a => (0 <= a < Z.of_nat A)%Z) acts)
    (map (drop 1) (drop 1 ta)).
Proof.
  intros [Hl Hrows] Hrange. split.
  - rewrite length_map, length_drop. lia.
  - apply Forall_fmap. apply Forall_drop.
    rewrite Forall_forall in Hrows. rewrite Forall_forall in Hrange.
    apply Forall_forall. intros acts Hacts. cbn. split.
    + rewrite length_drop, (Hrows _ Hacts). lia.
    + apply Forall_drop. auto.
Qed.

Lemma cross_entropy_total A logits label :
  length logits = A -> (0 <= label < Z.of_nat A)%Z ->
  exists x, cross_entropy logits label = Ok x.
Proof.
  intros Hlen Hrange. unfold cross_entropy.
  destruct (decide _) as [_ | Hn]; [|rewrite Hlen in Hn; contradiction].
  destruct (item_total (softmax logits) (Z.to_nat label)) as (p & Hp & _).
  { rewrite softmax_length. lia. }
  rewrite Hp, bind_Ok_l. eauto.
Qed.

(** The cross entropies before the visibility is applied, on tensors of
    the shapes of a training batch. *)
Lemma cross_entropies_total B N A pl (ta : list (list Z)) :
  rect3 B N A pl -> rect2 B (S N) ta ->
  Forall (Forall (fun a => (0 <= a < Z.of_nat A)%Z)) ta ->
  exists ce0,
    zip_with_r (zip_with_r cross_entropy) (all_but_last pl)
      (map (drop 1) (drop 1 ta)) = Ok ce0 /\
    rect2 (B - 1) N ce0 /\
    forall t n, (t < B - 1)%nat -> (n < N)%nat ->
      exists row logits acts label p,
        pl !! t = Some row /\ row !! n = Some logits /\
        ta !! S t = Some acts /\ acts !! S n = Some label /\
        softmax logits !! Z.to_nat label = Some p /\
        entry ce0 t n = Some (- ln p).
Proof.
  intros Hpl Hta Hrange.
  destruct (all_but_last_rect _ _ _ _ Hpl) as [HL1 HL2].
  destruct (labels_rect _ _ _ _ Hta Hrange) as [HT1 HT2].
  destruct (zip_with_r_Ok_total (zip_with_r cross_entropy)
              (fun r => length r = N) (all_but_last pl)
              (map (drop 1) (drop 1 ta)))
    as (ce0 & Hce0 & HP & Hlen).
  { congruence. }
  { intros row acts Hrow Hacts.
    rewrite Forall_forall in HL2. destruct (HL2 _ Hrow) as [Hr1 Hr2].
    rewrite Forall_forall in HT2. destruct (HT2 _ Hacts) as [Ha1 Ha2].
    destruct (zip_with_r_Ok_total cross_entropy (fun _ => True) row acts)
      as (z & Hz & _ & Hlz).
    - congruence.
    - intros logits label Hlogits Hlabel.
      rewrite Forall_forall in Hr2. rewrite Forall_forall in Ha2.
      destruct (cross_entropy_total A logits label (Hr2 _ Hlogits)
                  (Ha2 _ Hlabel)) as (x & Hx).
      eauto.
    - exists z. split; [assumption | congruence]. }
  exists ce0. split; [assumption|].
  split; [split; [congruence | assumption]|].
  intros t n Ht Hn.
  destruct (lookup_lt_is_Some_2 ce0 t) as [r0 Hr0]; [lia|].
  rewrite Forall_forall in HP.
  assert (Hr0len : length r0 = N)
    by (apply HP; eapply list_elem_of_lookup_2; eassumption).
  destruct (lookup_lt_is_Some_2 r0 n) as [x Hx]; [lia|].
  destruct (zip_with_r_Ok_lookup _ _ _ _ _ _ Hce0 Hr0)
    as (row & acts' & Hrow & Hacts' & Hz).
  destruct (zip_with_r_Ok_lookup _ _ _ _ _ _ Hz Hx)
    as (logits & label & Hlogits & Hlabel & Hce).
  apply cross_entropy_Ok in Hce as (_ & p & Hp & ->).
  unfold all_but_last in Hrow. apply lookup_take_Some in Hrow as [Hrow _].
  assert (Hmap : (drop 1 <$> drop 1 ta) !! t = Some acts') by exact Hacts'.
  rewrite list_lookup_fmap, lookup_drop in Hmap.
  destruct (ta !! (1 + t)%nat) as [acts|] eqn:Hacts; [|discriminate].
  injection Hmap as <-. rewrite lookup_drop in Hlabel.
  exists row, logits, acts, label, p. repeat split; try assumption.
  unfold entry. rewrite Hr0. exact Hx.
Qed.

Lemma visibility_applied B N (ce0 vis : list (list R)) :
  rect2 (B - 1) N ce0 -> rect2 B N vis ->
  bcast (bcast (fun x v : R => Ok (x * v))) ce0 (drop 1 vis)
  = Ok (zip_with (zip_with Rmult) ce0 (drop 1 vis)).
Proof.
  intros [Hc1 Hc2] [Hv1 Hv2]. apply bcast_total.
  apply (Forall2_from_Forall (fun r => length r = N)
           (fun r => length r = N)).
  - rewrite length_drop. lia.
  - assumption.
  - apply Forall_drop. assumption.
  - intros x y Hx Hy. apply bcast_total.
    apply Forall2_true; [auto | congruence].
Qed.

(** X21.  On tensors of the shapes of a training batch ([pred_logits]
    [B, N, A], [true_actions] [B, N + 1] with labels in [0, A),
    [others_visibility] [B, N] or none) [MOALoss] returns, and its cross
    entropy at [(t, n)] scores the prediction made at step [t] for the
    other agent [n] against column [n + 1] of the actions of step
    [t + 1], multiplied by the visibility of step [t + 1]: the last
    prediction, the first row of actions and of visibilities and the
    column of the agent's own actions are not used.  The total loss is
    the sum of these entries over [(B - 1) * N], the entries of agents
    out of sight included, times the loss weight. *)
Theorem MOALoss_entries (B N A : nat) (pred_logits : list (list (list R)))
    (true_actions : list (list Z)) (loss_weight : R)
    (others_visibility : option (list (list R))) :
  rect3 B N A pred_logits ->
  rect2 B (S N) true_actions ->
  Forall (Forall (fun a => (0 <= a < Z.of_nat A)%Z)) true_actions ->
  (forall vis, others_visibility = Some vis -> rect2 B N vis) ->
  exists obj,
    MOALoss pred_logits true_actions loss_weight others_visibility = Ok obj /\
    rect2 (B - 1) N (ce_per_entry obj) /\
    (forall t n, (t < B - 1)%nat -> (n < N)%nat ->
       exists row logits acts label p v,
         pred_logits !! t = Some row /\ row !! n = Some logits /\
         true_actions !! S t = Some acts /\ acts !! S n = Some label /\
         softmax logits !! Z.to_nat label = Some p /\
         visibility_at others_visibility (S t) n = Some v /\
         entry (ce_per_entry obj) t n = Some (- ln p * v)) /\
    ((2 <= B)%nat -> (1 <= N)%nat ->
     total_loss obj
     = Finite (rsum (mjoin (ce_per_entry obj)) / INR ((B - 1) * N)
               * loss_weight)).
Proof.
  intros Hpl Hta Hrange Hvis.
  destruct (cross_entropies_total _ _ _ _ _ Hpl Hta Hrange)
    as (ce0 & Hce0 & Hrect0 & Hentry0).
  assert (Hce : exists ce,
    match others_visibility with
    | Some vis =>
        bcast (bcast (fun x v : R => Ok (x * v))) ce0 (drop 1 vis)
    | None => Ok ce0
    end = Ok ce /\
    rect2 (B - 1) N ce /\
    forall t n x, (t < B - 1)%nat -> (n < N)%nat ->
      entry ce0 t n = Some x ->
      exists v, visibility_at others_visibility (S t) n = Some v /\
                entry ce t n = Some (x * v)).
  { destruct others_visibility as [vis|].
    - specialize (Hvis vis eq_refl).
      exists (zip_with (zip_with Rmult) ce0 (drop 1 vis)).
      split; [apply (visibility_applied B N); assumption|].
      destruct Hrect0 as [Hc1 Hc2]. destruct Hvis as [Hv1 Hv2]. split.
      + split; [rewrite length_zip_with, length_drop; lia|].
        apply Forall_forall. intros r Hr.
        apply list_elem_of_lookup_1 in Hr as [i Hi].
        apply lookup_zip_with_Some in Hi as (x & y & -> & Hx & Hy).
        rewrite Forall_forall in Hc2. rewrite Forall_forall in Hv2.
        rewrite length_zip_with.
        rewrite (Hc2 x) by (eapply list_elem_of_lookup_2; eassumption).
        rewrite lookup_drop in Hy.
        rewrite (Hv2 y) by (eapply list_elem_of_lookup_2; eassumption).
        lia.
      + intros t n x Ht Hn Hx. unfold entry in Hx.
        destruct (ce0 !! t) as [r0|] eqn:Hr0; [|discriminate]. cbn in Hx.
        destruct (lookup_lt_is_Some_2 vis (S t)) as [vrow Hvrow]; [lia|].
        rewrite Forall_forall in Hv2.
        assert (Hvlen : length vrow = N)
          by (apply Hv2; eapply list_elem_of_lookup_2; eassumption).
        destruct (lookup_lt_is_Some_2 vrow n) as [v Hv]; [lia|].
        exists v. split.
        * cbn. unfold entry. rewrite Hvrow. exact Hv.
        * unfold entry. rewrite lookup_zip_with, Hr0. cbn.
          rewrite lookup_drop. change (1 + t)%nat with (S t).
          rewrite Hvrow. cbn.
          rewrite lookup_zip_with, Hx. cbn. rewrite Hv. reflexivity.
    - exists ce0. split; [reflexivity|]. split; [assumption|].
      intros t n x _ _ Hx. exists 1. split; [reflexivity|].
      rewrite Hx. f_equal. lra. }
  destruct Hce as (ce & Hce & Hrect & Hentry).
  exists {| ce_per_entry := ce;
            total_loss := fscale (reduce_mean ce) loss_weight |}.
  split; [|split; [exact Hrect|split]].
  - unfold MOALoss. rewrite Hce0, bind_Ok_l.
    destruct others_visibility as [vis|].
    + assert (Hce' : bcastN (fun x v : R => Ok (x * v)) 2 ce0 (drop 1 vis)
                     = Ok ce) by exact Hce.
      rewrite Hce'. reflexivity.
    + injection Hce as <-. reflexivity.
  - intros t n Ht Hn.
    destruct (Hentry0 t n Ht Hn)
      as (row & logits & acts & label & p & H1 & H2 & H3 & H4 & H5 & H6).
    destruct (Hentry t n _ Ht Hn H6) as (v & Hv1 & Hv2).
    exists row, logits, acts, label, p, v. cbn. auto 10.
  - intros HB HN. cbn. unfold reduce_mean.
    pose proof (length_mjoin_rect _ _ _ Hrect) as Hlen.
    destruct (mjoin ce) as [|x flat] eqn:Hflat.
    + cbn in Hlen. nia.
    + cbn [fscale]. rewrite <- Hlen. reflexivity.
Qed.

Lemma MOALoss_entries_witness :
  exists obj,
    MOALoss moa_example_logits moa_example_actions 10 (Some [[1]; [1]])
    = Ok obj /\
    rect2 (2 - 1) 1 (ce_per_entry obj) /\
    (forall t n, (t < 2 - 1)%nat -> (n < 1)%nat ->
       exists row logits acts label p v,
         moa_example_logits !! t = Some row /\ row !! n = Some logits /\
         moa_example_actions !! S t = Some acts /\
         acts !! S n = Some label /\
         softmax logits !! Z.to_nat label = Some p /\
         visibility_at (Some [[1]; [1]]) (S t) n = Some v /\
         entry (ce_per_entry obj) t n = Some (- ln p * v)) /\
    ((2 <= 2)%nat -> (1 <= 1)%nat ->
     total_loss obj
     = Finite (rsum (mjoin (ce_per_entry obj)) / INR ((2 - 1) * 1) * 10)).
Proof.
  apply (MOALoss_entries 2 1 2 moa_example_logits moa_example_actions 10
           (Some [[1]; [1]])).
  - repeat (split || constructor).
  - repeat (split || constructor).
  - repeat constructor; lia.
  - intros vis [= <-]. repeat (split || constructor).
Defined.

(** ** [compute_influence_reward] and the fields it does not touch *)

Lemma getitem_insert_ne (trajectory : gmap string value) key key' v :
  key <> key' ->
  getitem (<[key := v]> trajectory) key' = getitem trajectory key'.
Proof.
  intros Hne. unfold getitem. rewrite lookup_insert_ne by assumption.
  reflexivity.
Qed.

(** X22.  A field that [compute_influence_reward] neither reads nor
    writes plays no part: adding such a field to the trajectory before
    the call gives the result of adding it afterwards, with the same
    policy, and the same exception where the call raises. *)
Theorem compute_influence_reward_other_field (policy : Policy)
    (trajectory : gmap string value) (key : string) (v : value) :
  key ∉ read_fields ++ written_fields ->
  compute_influence_reward policy (<[key := v]> trajectory)
  = (fun '(policy', trajectory') => (policy', <[key := v]> trajectory'))
    <$> compute_influence_reward policy trajectory.
Proof.
  intros Hkey.
  assert (Hne : forall k, k ∈ read_fields ++ written_fields -> key <> k)
    by (intros k Hk ->; contradiction).
  assert (Hread : forall k, k ∈ read_fields -> key <> k)
    by (intros k Hk; apply Hne, elem_of_app; left; assumption).
  assert (Hti : key <> "total_influence").
  { apply Hne, elem_of_app. right. unfold written_fields. set_solver. }
  assert (Hrwi : key <> "reward_without_influence").
  { apply Hne, elem_of_app. right. unfold written_fields. set_solver. }
  assert (Hrew : key <> "rewards").
  { apply Hne, elem_of_app. right. unfold written_fields. set_solver. }
  assert (Hobs : key <> "obs").
  { apply Hread. unfold read_fields. set_solver. }
  unfold compute_influence_reward.
  rewrite (influence_per_agent_step_ext policy policy trajectory
             (<[key := v]> trajectory)); try reflexivity.
  2:{ intros k Hk. apply lookup_insert_ne. apply Hread. assumption. }
  destruct (influence_per_agent_step policy trajectory) as [step|e];
    [|reflexivity].
  rewrite !bind_Ok_l, (getitem_insert_ne _ _ _ _ Hobs).
  destruct (getitem trajectory "obs") as [obs|e]; [|reflexivity].
  rewrite !bind_Ok_l.
  set (influence := summarize_and_clip policy step).
  assert (H1 : getitem (<["total_influence" := VFloat1 influence]>
                          (<[key := v]> trajectory)) "rewards"
               = getitem trajectory "rewards").
  { rewrite getitem_insert_ne by discriminate.
    apply getitem_insert_ne. assumption. }
  assert (H1' : getitem (<["total_influence" := VFloat1 influence]>
                           trajectory) "rewards"
                = getitem trajectory "rewards")
    by (apply getitem_insert_ne; discriminate).
  rewrite H1, H1'.
  destruct (getitem trajectory "rewards") as [rewards|e] eqn:Hr;
    [|reflexivity].
  rewrite !bind_Ok_l.
  assert (H2 : getitem (<["reward_without_influence" := rewards]>
                          (<["total_influence" := VFloat1 influence]>
                             (<[key := v]> trajectory))) "rewards"
               = Ok rewards).
  { rewrite getitem_insert_ne by discriminate. rewrite H1. reflexivity. }
  assert (H2' : getitem (<["reward_without_influence" := rewards]>
                           (<["total_influence" := VFloat1 influence]>
                              trajectory)) "rewards"
                = Ok rewards).
  { rewrite getitem_insert_ne by discriminate. rewrite H1'. reflexivity. }
  rewrite H2, H2', !bind_Ok_l.
  destruct rewards as [r| | | | | |]; try reflexivity.
  destruct (bcast _ r _) as [new_rewards|e]; [|reflexivity].
  rewrite !bind_Ok_l. cbn. f_equal. f_equal.
  rewrite (insert_insert_ne _ key "rewards") by assumption.
  rewrite (insert_insert_ne _ key "reward_without_influence") by assumption.
  rewrite (insert_insert_ne _ key "total_influence") by assumption.
  reflexivity.
Qed.

Lemma compute_influence_reward_other_field_witness :
  compute_influence_reward (setup_mixins CONFIG)
    (<[ALL_ACTIONS := VInt2 [[0; 0]%Z]]> example_trajectory)
  = (fun '(policy', trajectory') =>
       (policy', <[ALL_ACTIONS := VInt2 [[0; 0]%Z]]> trajectory'))
    <$> compute_influence_reward (setup_mixins CONFIG) example_trajectory.
Proof.
  apply (compute_influence_reward_other_field (setup_mixins CONFIG)
           example_trajectory ALL_ACTIONS (VInt2 [[0; 0]%Z])).
  intros H. unfold read_fields, written_fields in H.
  repeat (apply elem_of_cons in H as [H | H]; [discriminate|]).
  inversion H.
Defined.

(** ** [postprocess_trajectory] *)

Lemma compute_influence_reward_keeps policy trajectory policy' trajectory'
    key :
  compute_influence_reward policy trajectory = Ok (policy', trajectory') ->
  key <> "total_influence" -> key <> "reward_without_influence" ->
  key <> "rewards" ->
  getitem trajectory' key = getitem trajectory key.
Proof.
  intros H H1 H2 H3.
  apply compute_influence_reward_inv in H
    as (step & obs & r & new & _ & _ & _ & _ & _ & ->).
  rewrite !getitem_insert_ne by congruence. reflexivity.
Qed.

(** X23.  On a batch whose last [dones] entry is true the value network
    is not asked: the result is the same for every [policy._value] and
    every number of state tensors, and [compute_advantages] is called
    with [last_r = 0.0] on the trajectory that [compute_influence_reward]
    returned. *)
Theorem postprocess_trajectory_completed
    (num_state_tensors num_state_tensors' : nat)
    (_value _value' :
       element -> element -> element -> list (list element) -> result R)
    (compute_advantages :
       gmap string value -> R -> result (gmap string value))
    (policy : Policy) (sample_batch : gmap string value) (dones : list bool) :
  sample_batch !! "dones" = Some (VBool1 dones) ->
  last dones = Some true ->
  postprocess_trajectory num_state_tensors _value compute_advantages
    policy sample_batch
  = postprocess_trajectory num_state_tensors' _value' compute_advantages
      policy sample_batch /\
  forall policy' out,
    postprocess_trajectory num_state_tensors _value compute_advantages
      policy sample_batch = Ok (policy', out) ->
    exists all_actions trajectory,
      compute_influence_reward policy
        (<[ALL_ACTIONS := all_actions]> sample_batch)
      = Ok (policy', trajectory) /\
      compute_advantages trajectory 0 = Ok out.
Proof.
  intros Hdones Hlast.
  assert (Hstage : forall n v,
    postprocess_trajectory n v compute_advantages policy sample_batch
    = (actions ← getitem sample_batch "actions";
       own_actions ← column actions;
       others_actions ← getitem sample_batch OTHERS_ACTIONS;
       all_actions ← hstack own_actions others_actions;
       '(policy, sample_batch) ←
         compute_influence_reward policy
           (<[ALL_ACTIONS := all_actions]> sample_batch);
       sample_batch ← compute_advantages sample_batch 0;
       Ok (policy, sample_batch))).
  { intros n v. unfold postprocess_trajectory.
    destruct (getitem sample_batch "actions") as [actions|e]; [|reflexivity].
    rewrite !bind_Ok_l.
    destruct (column actions) as [own|e]; [|reflexivity].
    rewrite !bind_Ok_l.
    destruct (getitem sample_batch OTHERS_ACTIONS) as [others|e];
      [|reflexivity].
    rewrite !bind_Ok_l.
    destruct (hstack own others) as [all_actions|e]; [|reflexivity].
    rewrite !bind_Ok_l.
    destruct (compute_influence_reward policy
                (<[ALL_ACTIONS := all_actions]> sample_batch))
      as [[policy' trajectory]|e] eqn:Hrun; [|reflexivity].
    rewrite !bind_Ok_l.
    rewrite (compute_influence_reward_keeps _ _ _ _ "dones" Hrun)
      by discriminate.
    rewrite getitem_insert_ne by discriminate.
    rewrite (proj2 (getitem_Ok _ _ _) Hdones), bind_Ok_l.
    unfold last_of. rewrite Hlast, !bind_Ok_l. reflexivity. }
  split; [rewrite !Hstage; reflexivity|].
  intros policy' out H. rewrite Hstage in H.
  apply bind_Ok in H as (actions & _ & H).
  apply bind_Ok in H as (own & _ & H).
  apply bind_Ok in H as (others & _ & H).
  apply bind_Ok in H as (all_actions & _ & H).
  apply bind_Ok in H as ([policy1 trajectory] & Hrun & H).
  apply bind_Ok in H as (out' & Hout & H). injection H as <- <-.
  exists all_actions, trajectory. split; assumption.
Qed.

Lemma postprocess_trajectory_completed_witness :
  postprocess_trajectory 0 (fun _ _ _ _ => Ok 0) (fun batch _ => Ok batch)
    (setup_mixins CONFIG) example_batch
  = postprocess_trajectory 1 (fun _ _ _ _ => Err Unmodelled)
      (fun batch _ => Ok batch) (setup_mixins CONFIG) example_batch /\
  forall policy' out,
    postprocess_trajectory 0 (fun _ _ _ _ => Ok 0) (fun batch _ => Ok batch)
      (setup_mixins CONFIG) example_batch = Ok (policy', out) ->
    exists all_actions trajectory,
      compute_influence_reward (setup_mixins CONFIG)
        (<[ALL_ACTIONS := all_actions]> example_batch)
      = Ok (policy', trajectory) /\
      (fun batch (_ : R) => Ok batch) trajectory 0 = Ok out.
Proof.
  apply (postprocess_trajectory_completed 0 1 (fun _ _ _ _ => Ok 0)
           (fun _ _ _ _ => Err Unmodelled) (fun batch _ => Ok batch)
           (setup_mixins CONFIG) example_batch [true]);
    reflexivity.
Defined.

Lemma zip_with_r_app_total {X : Type} (a b : list (list X)) :
  length a = length b ->
  zip_with_r (fun r s => Ok (r ++ s)) a b = Ok (zip_with app a b).
Proof.
  revert b. induction a as [|r a IH]; intros [|s b] Hlen; try discriminate;
    [reflexivity|].
  cbn. rewrite IH by (cbn in Hlen; lia). reflexivity.
Qed.

Lemma zip_with_cons_column {X : Type} (l : list X) (b : list (list X)) :
  zip_with app (map (fun x => [x]) l) b = zip_with cons l b.
Proof.
  revert b. induction l as [|x l IH]; intros [|s b]; cbn; try reflexivity.
  rewrite IH. reflexivity.
Qed.

(** X24.  With the agent's actions as a rank 1 array of integers and the
    others' actions as a rank 2 array of integers, the function stores as
    [all_actions] the array whose row [t] is the own action of step [t]
    followed by the others' actions of that step, before it calls
    [compute_influence_reward]; [compute_advantages] gets the trajectory
    of that call.  When the two arrays differ in the number of rows the
    function raises ValueError and computes nothing. *)
Theorem postprocess_trajectory_all_actions (num_state_tensors : nat)
    (_value :
       element -> element -> element -> list (list element) -> result R)
    (compute_advantages :
       gmap string value -> R -> result (gmap string value))
    (policy : Policy) (sample_batch : gmap string value)
    (actions : list Z) (others_actions : list (list Z)) :
  sample_batch !! "actions" = Some (VInt1 actions) ->
  sample_batch !! OTHERS_ACTIONS = Some (VInt2 others_actions) ->
  (length actions <> length others_actions ->
   postprocess_trajectory num_state_tensors _value compute_advantages
     policy sample_batch = Err ValueError) /\
  (forall policy' out,
     postprocess_trajectory num_state_tensors _value compute_advantages
       policy sample_batch = Ok (policy', out) ->
     length actions = length others_actions /\
     exists trajectory last_r,
       compute_influence_reward policy
         (<[ALL_ACTIONS := VInt2 (zip_with cons actions others_actions)]>
            sample_batch)
       = Ok (policy', trajectory) /\
       trajectory !! ALL_ACTIONS
       = Some (VInt2 (zip_with cons actions others_actions)) /\
       compute_advantages trajectory last_r = Ok out).
Proof.
  intros Hact Hothers. unfold postprocess_trajectory.
  rewrite (proj2 (getitem_Ok _ _ _) Hact), bind_Ok_l.
  cbn [column]. rewrite bind_Ok_l.
  rewrite (proj2 (getitem_Ok _ _ _) Hothers), bind_Ok_l.
  cbn [hstack]. split.
  - intros Hlen. rewrite zip_with_r_mismatch; [reflexivity | |].
    + rewrite length_map. assumption.
    + intros; eauto.
  - intros policy' out H.
    destruct (decide (length actions = length others_actions)) as [Hlen|Hlen].
    2:{ rewrite zip_with_r_mismatch in H; [discriminate | |].
        - rewrite length_map. assumption.
        - intros; eauto. }
    split; [assumption|].
    rewrite zip_with_r_app_total in H by (rewrite length_map; assumption).
    rewrite zip_with_cons_column in H.
    change (VInt2 <$> Ok (zip_with cons actions others_actions))
      with (Ok (VInt2 (zip_with cons actions others_actions))) in H.
    rewrite bind_Ok_l in H.
    apply bind_Ok in H as ([policy1 trajectory] & Hrun & H).
    apply bind_Ok in H as (dones & _ & H).
    apply bind_Ok in H as (completed & _ & H).
    apply bind_Ok in H as (last_r & _ & H).
    apply bind_Ok in H as (out' & Hout & H). injection H as <- <-.
    exists trajectory, last_r. split; [assumption|]. split; [|assumption].
    apply getitem_Ok.
    rewrite (compute_influence_reward_keeps _ _ _ _ ALL_ACTIONS Hrun)
      by discriminate.
    apply getitem_Ok. apply lookup_insert_eq.
Qed.

Lemma postprocess_trajectory_all_actions_witness :
  (length [0%Z] <> length [[1%Z]] ->
   postprocess_trajectory 0 (fun _ _ _ _ => Ok 0) (fun batch _ => Ok batch)
     (setup_mixins CONFIG) example_batch = Err ValueError) /\
  (forall policy' out,
     postprocess_trajectory 0 (fun _ _ _ _ => Ok 0) (fun batch _ => Ok batch)
       (setup_mixins CONFIG) example_batch = Ok (policy', out) ->
     length [0%Z] = length [[1%Z]] /\
     exists trajectory last_r,
       compute_influence_reward (setup_mixins CONFIG)
         (<[ALL_ACTIONS := VInt2 (zip_with cons [0%Z] [[1%Z]])]>
            example_batch)
       = Ok (policy', trajectory) /\
       trajectory !! ALL_ACTIONS
       = Some (VInt2 (zip_with cons [0%Z] [[1%Z]])) /\
       (fun batch (_ : R) => Ok batch) trajectory last_r = Ok out).
Proof.
  apply (postprocess_trajectory_all_actions 0 (fun _ _ _ _ => Ok 0)
           (fun batch _ => Ok batch) (setup_mixins CONFIG) example_batch
           [0%Z] [[1%Z]]);
    reflexivity.
Defined.

(** ** [compute_influence_reward]: the axis that is summed *)

Lemma cross_step_trajectory_fields :
  getitem cross_step_trajectory "obs" = Ok (VFloat2 [[0]; [0]]) /\
  getitem cross_step_trajectory "actions" = Ok (VInt1 [0; 0]%Z) /\
  getitem cross_step_trajectory "rewards" = Ok (VFloat1 [1; 1]) /\
  getitem cross_step_trajectory ACTION_LOGITS
  = Ok (VFloat2 [[0; 0]; [ln 3; 0]]) /\
  getitem cross_step_trajectory COUNTERFACTUAL_ACTIONS
  = Ok (VFloat4 [[[[0; 0]; [0; 0]]]; [[[0; 0]; [0; 0]]]]) /\
  getitem cross_step_trajectory VISIBILITY = Ok (VFloat2 [[1]; [1]]).
Proof. repeat split; reflexivity. Qed.

Section cross_step.
Variable policy : Policy.
Hypothesis agents : num_other_agents policy = 1%nat.

Lemma cross_step_true_probs :
  true_probs_of policy cross_step_trajectory
  = Ok [[[1 / 2; 1 / 2]]; [[1 / 2; 1 / 2]]].
Proof.
  destruct cross_step_trajectory_fields as (Ho & Ha & _ & _ & Hc & _).
  unfold true_probs_of. rewrite Hc, Ho, Ha, agents. crunch.
  destruct (decide (2 = 2)%nat) as [_ | Hne]; [|contradiction].
  crunch. list_eq.
Qed.

Lemma cross_step_marginal :
  marginalize_predictions_over_own_actions policy cross_step_trajectory
  = Ok [[[1 / 2; 1 / 2]; [3 / 4; 1 / 4]];
        [[1 / 2; 1 / 2]; [3 / 4; 1 / 4]]].
Proof.
  destruct cross_step_trajectory_fields as (_ & _ & _ & Hl & Hc & _).
  unfold marginalize_predictions_over_own_actions.
  rewrite Hl, Hc, agents. crunch. list_eq.
Qed.

Lemma cross_step_weighting :
  marginal_by_weighting policy cross_step_trajectory
  = Ok [[[1 / 2; 1 / 2]]; [[1 / 2; 1 / 2]]].
Proof.
  destruct cross_step_trajectory_fields as (_ & _ & _ & Hl & Hc & _).
  unfold marginal_by_weighting.
  rewrite Hl, Hc, agents. crunch.
  unfold weighted_marginal. crunch. list_eq.
Qed.
End cross_step.

Lemma cross_step_divergence_value :
  cross_step_divergence = 1 / 2 * ln (2 / 3) + 1 / 2 * ln 2.
Proof.
  unfold cross_step_divergence, kl_sum, kl_summand. cbn.
  destruct (Req_dec_T (1 / 2) 0); [lra|].
  replace (1 / 2 / (3 / 4)) with (2 / 3) by lra.
  replace (1 / 2 / (1 / 4)) with 2 by lra. lra.
Qed.

Lemma cross_step_divergence_pos : 0 < cross_step_divergence.
Proof.
  rewrite cross_step_divergence_value.
  enough (0 < ln (2 / 3) + ln 2) by lra.
  rewrite <- ln_mult by lra. rewrite <- ln_1. apply ln_increasing; lra.
Qed.

Lemma cross_step_divergence_small : cross_step_divergence <= 1.
Proof.
  rewrite cross_step_divergence_value.
  enough (ln (2 / 3) + ln 2 <= 1) by lra.
  rewrite <- ln_mult by lra.
  pose proof (ln_le_minus_1 (2 / 3 * 2) ltac:(lra)). lra.
Qed.

Lemma clip_inside c x : - c <= x <= c -> clip (- c) c x = x.
Proof.
  intros Hx. unfold clip, Rmin, Rmax.
  destruct (Rle_dec x (- c)); destruct (Rle_dec _ _); lra.
Qed.

Lemma kl_row_even_even :
  kl_row [1 / 2; 1 / 2] [1 / 2; 1 / 2] = Ok (Finite 0).
Proof.
  rewrite kl_row_same_length by reflexivity.
  rewrite kl_row_val_finite, kl_sum_self; [reflexivity|].
  rows; apply term_defined_self.
Qed.

Lemma kl_row_even_skewed :
  kl_row [1 / 2; 1 / 2] [3 / 4; 1 / 4] = Ok (Finite cross_step_divergence).
Proof.
  rewrite kl_row_same_length by reflexivity.
  rewrite kl_row_val_finite; [reflexivity|].
  rows; right; split; lra.
Qed.

Section cross_step_influence.
Variable policy : Policy.
Hypothesis agents : num_other_agents policy = 1%nat.
Hypothesis measure : influence_divergence_measure policy = "kl".
Hypothesis flag : influence_only_when_visible policy = true.

(** Each step gets two entries, one for the action probabilities of
    either step, although there is one other agent. *)
Lemma cross_step_per_agent_step :
  influence_per_agent_step policy cross_step_trajectory
  = Ok [[0 * 1; cross_step_divergence * 1];
        [0 * 1; cross_step_divergence * 1]].
Proof.
  destruct cross_step_trajectory_fields as (_ & _ & _ & _ & _ & Hv).
  unfold influence_per_agent_step, divergence_per_agent_step.
  rewrite (cross_step_true_probs policy agents),
    (cross_step_marginal policy agents), !bind_Ok_l.
  unfold divergence. rewrite measure.
  destruct (decide ("kl" = "kl")) as [_ | Hne]; [|contradiction].
  assert (Hkl : kl_div 2 [[[1 / 2; 1 / 2]]; [[1 / 2; 1 / 2]]]
                  [[[1 / 2; 1 / 2]; [3 / 4; 1 / 4]];
                   [[1 / 2; 1 / 2]; [3 / 4; 1 / 4]]]
                = Ok [[0; cross_step_divergence];
                      [0; cross_step_divergence]]).
  { unfold kl_div, kl_raw.
    assert (Hraw : bcastN kl_row 2 [[[1 / 2; 1 / 2]]; [[1 / 2; 1 / 2]]]
                     [[[1 / 2; 1 / 2]; [3 / 4; 1 / 4]];
                      [[1 / 2; 1 / 2]; [3 / 4; 1 / 4]]]
                   = Ok [[Finite 0; Finite cross_step_divergence];
                         [Finite 0; Finite cross_step_divergence]]).
    { cbn -[kl_row]. rewrite kl_row_even_even, kl_row_even_skewed.
      reflexivity. }
    rewrite Hraw. reflexivity. }
  rewrite Hkl, bind_Ok_l.
  unfold mask_invisible. rewrite flag, Hv. reflexivity.
Qed.

Lemma cross_step_by_design :
  influence_by_design policy cross_step_trajectory
  = Ok [clip (- influence_reward_clip policy) (influence_reward_clip policy)
          (rsum [0 * 1]);
        clip (- influence_reward_clip policy) (influence_reward_clip policy)
          (rsum [0 * 1])].
Proof.
  destruct cross_step_trajectory_fields as (_ & _ & _ & _ & _ & Hv).
  unfold influence_by_design.
  rewrite (cross_step_true_probs policy agents),
    (cross_step_weighting policy agents), !bind_Ok_l.
  assert (Hrow : divergence_of_rows policy [1 / 2; 1 / 2] [1 / 2; 1 / 2]
                 = Ok 0).
  { unfold divergence_of_rows, divergence. rewrite measure.
    destruct (decide ("kl" = "kl")) as [_ | Hne]; [|contradiction].
    rewrite kl_div_all_defined.
    - cbn -[kl_sum]. rewrite kl_sum_self. reflexivity.
    - unfold all_defined. cbn [tForall2]. rows; apply term_defined_self. }
  cbn -[divergence_of_rows]. rewrite Hrow. cbn.
  unfold mask_invisible. rewrite flag, Hv. reflexivity.
Qed.
End cross_step_influence.

(** C6 fails on trajectories of more than one step.  With one other
    agent and two steps, [np.tile] lines the action probabilities of both
    steps up along the agent axis (the defect of C1), the array of
    line 212 has two entries for every step instead of one, and
    [total_influence] is the sum of both.  Here the other agent is
    predicted to act the same whatever the agent does, so that the
    divergence of the single other agent is 0 at either step and the
    design's influence is [[0, 0]]; the code returns the positive
    [cross_step_divergence] at both steps, which comes from the agent's
    action probabilities at the second step, and adds it to the
    rewards. *)
Theorem compute_influence_reward_sums_across_steps :
  let policy := setup_mixins CONFIG in
  num_other_agents policy = 1%nat /\
  influence_per_agent_step policy cross_step_trajectory
  = Ok [[0 * 1; cross_step_divergence * 1];
        [0 * 1; cross_step_divergence * 1]] /\
  0 < cross_step_divergence /\
  (exists policy' trajectory',
     compute_influence_reward policy cross_step_trajectory
     = Ok (policy', trajectory') /\
     trajectory' !! "total_influence"
     = Some (VFloat1 [cross_step_divergence; cross_step_divergence]) /\
     trajectory' !! "rewards"
     = Some (VFloat1 [1 + cross_step_divergence * 1;
                      1 + cross_step_divergence * 1])) /\
  influence_by_design policy cross_step_trajectory = Ok [0; 0].
Proof.
  intros policy.
  assert (Hagents : num_other_agents policy = 1%nat) by reflexivity.
  assert (Hmeasure : influence_divergence_measure policy = "kl")
    by reflexivity.
  assert (Hflag : influence_only_when_visible policy = true) by reflexivity.
  pose proof (cross_step_per_agent_step policy Hagents Hmeasure Hflag)
    as Hstep.
  pose proof cross_step_divergence_pos as Hpos.
  pose proof cross_step_divergence_small as Hsmall.
  assert (Hentry : clip (Ropp 10) 10 (rsum [0 * 1; cross_step_divergence * 1])
                   = cross_step_divergence).
  { rewrite clip_inside; unfold rsum; cbn [foldr]; lra. }
  assert (Hzero : clip (Ropp 10) 10 (rsum [0 * 1]) = 0).
  { rewrite clip_inside; unfold rsum; cbn [foldr]; lra. }
  assert (Hsum : summarize_and_clip policy
                   [[0 * 1; cross_step_divergence * 1];
                    [0 * 1; cross_step_divergence * 1]]
                 = [cross_step_divergence; cross_step_divergence]).
  { unfold summarize_and_clip. cbn [map].
    change (influence_reward_clip policy) with 10.
    rewrite Hentry. reflexivity. }
  split; [exact Hagents|]. split; [exact Hstep|]. split; [exact Hpos|].
  split.
  - destruct cross_step_trajectory_fields as (Ho & _ & Hr & _ & _ & _).
    apply getitem_Ok in Ho, Hr.
    pose proof (compute_influence_reward_Ok policy cross_step_trajectory
                  _ _ [1; 1]
                  [1 + cross_step_divergence * 1;
                   1 + cross_step_divergence * 1] Hstep Ho Hr) as Hrun.
    rewrite Hsum in Hrun. specialize (Hrun eq_refl).
    eexists _, _. split; [exact Hrun|]. split.
    + rewrite !lookup_insert_ne by discriminate. apply lookup_insert_eq.
    + apply lookup_insert_eq.
  - rewrite (cross_step_by_design policy Hagents Hmeasure Hflag).
    change (influence_reward_clip policy) with 10.
    rewrite Hzero. reflexivity.
Qed.

(** ** [compute_influence_reward]: an exception after the first
    assignment *)

(** X26.  A trajectory without [rewards] is found out late: when the
    KeyError leaves the function the step counter of the policy has been
    advanced by the batch length and [total_influence] has been written,
    no other field. *)
Theorem compute_influence_reward_partial_update (policy : Policy)
    (trajectory : gmap string value) (step : list (list R)) (obs : value) :
  influence_per_agent_step policy trajectory = Ok step ->
  trajectory !! "obs" = Some obs ->
  trajectory !! "rewards" = None ->
  compute_influence_reward_in_place policy trajectory
  = {| policy_after :=
         set_steps_processed
           (steps_processed policy + Z.of_nat (len obs)) policy;
       trajectory_after :=
         <["total_influence" := VFloat1 (summarize_and_clip policy step)]>
           trajectory;
       raised := Some (KeyError "rewards") |}.
Proof.
  intros Hstep Hobs Hrew. unfold compute_influence_reward_in_place.
  rewrite Hstep, (proj2 (getitem_Ok _ _ _) Hobs). cbv zeta.
  assert (H : getitem
                (<["total_influence" :=
                     VFloat1 (summarize_and_clip policy step)]> trajectory)
                "rewards" = Err (KeyError "rewards")).
  { unfold getitem. rewrite lookup_insert_ne by discriminate.
    rewrite Hrew. reflexivity. }
  rewrite H. reflexivity.
Qed.

Lemma compute_influence_reward_partial_update_witness :
  compute_influence_reward_in_place (setup_mixins CONFIG)
    example_without_rewards
  = {| policy_after :=
         set_steps_processed
           (steps_processed (setup_mixins CONFIG)
            + Z.of_nat (len (VFloat2 [[0]]))) (setup_mixins CONFIG);
       trajectory_after :=
         <["total_influence" :=
             VFloat1 (summarize_and_clip (setup_mixins CONFIG)
                        [[example_divergence * 1]])]>
           example_without_rewards;
       raised := Some (KeyError "rewards") |}.
Proof.
  apply (compute_influence_reward_partial_update (setup_mixins CONFIG)
           example_without_rewards [[example_divergence * 1]]
           (VFloat2 [[0]])).
  - apply example_step_kl; reflexivity.
  - reflexivity.
  - reflexivity.
Defined.
